(** * A CHIP-8 interpreter: chip8.c, chip8.h and the key handler of main.c

    The machine state is the [Chip8] struct of chip8.h; every instruction
    handler of chip8.c is a function on that record.  Fixed-width C integers
    are integers of [Z] with their wrap-around written out ([u8], [u16]).
    Arrays are lists.  The register file [v] is only ever indexed by a nibble
    of the opcode or by a loop counter below 16, so it is read and written
    with total accessors; [ram], [screen], [stack] and [keys] are indexed by
    run-time values, and an access outside the array is the outcome
    [Undefined].  [abort()] in the bad-instruction handler is the outcome
    [Abort].  The host callback [key_handle] and the C library's [rand] act on
    a state of the surrounding world that the interpreter never inspects. *)

From Stdlib Require Import ZArith Lia.
From stdpp Require Import base tactics option list relations.

Local Open Scope Z_scope.

(** ** Machine integers *)

Definition u8 (z : Z) : Z := z mod 256.
Definition u16 (z : Z) : Z := z mod 65536.

(** ** chip8.h *)

Definition SCREEN_W : Z := 64.
Definition SCREEN_H : Z := 32.
Definition RAM_SIZE : Z := 0x1000.
Definition ROM_START : Z := 0x200.
Definition ROM_SIZE : Z := RAM_SIZE - ROM_START.
Definition KEYPAD_SIZE : Z := 16.
Definition CHAR_SIZE : Z := 5.
Definition FONT_START : Z := 0x000.
Definition FONT_SIZE : Z := KEYPAD_SIZE * CHAR_SIZE.
Definition STACK_SIZE : Z := 16.
Definition SCREEN_SIZE : Z := SCREEN_W * SCREEN_H.

Record Chip8 : Type := mkChip8 {
  ram : list Z;      (* uint8_t ram[RAM_SIZE] *)
  screen : list Z;   (* uint8_t screen[SCREEN_SIZE] *)
  stack : list Z;    (* uint16_t stack[STACK_SIZE] *)
  v : list Z;        (* uint8_t v[16] *)
  i : Z;             (* uint16_t *)
  dt : Z;            (* uint8_t *)
  st : Z;            (* uint8_t *)
  sp : Z;            (* uint8_t *)
  pc : Z;            (* uint16_t *)
  keys : list Z      (* int keys[KEYPAD_SIZE] *)
}.

Definition with_ram (c : Chip8) (a : list Z) : Chip8 :=
  mkChip8 a (screen c) (stack c) (v c) (i c) (dt c) (st c) (sp c) (pc c) (keys c).
Definition with_screen (c : Chip8) (a : list Z) : Chip8 :=
  mkChip8 (ram c) a (stack c) (v c) (i c) (dt c) (st c) (sp c) (pc c) (keys c).
Definition with_stack (c : Chip8) (a : list Z) : Chip8 :=
  mkChip8 (ram c) (screen c) a (v c) (i c) (dt c) (st c) (sp c) (pc c) (keys c).
Definition with_v (c : Chip8) (a : list Z) : Chip8 :=
  mkChip8 (ram c) (screen c) (stack c) a (i c) (dt c) (st c) (sp c) (pc c) (keys c).
Definition with_i (c : Chip8) (z : Z) : Chip8 :=
  mkChip8 (ram c) (screen c) (stack c) (v c) z (dt c) (st c) (sp c) (pc c) (keys c).
Definition with_dt (c : Chip8) (z : Z) : Chip8 :=
  mkChip8 (ram c) (screen c) (stack c) (v c) (i c) z (st c) (sp c) (pc c) (keys c).
Definition with_st (c : Chip8) (z : Z) : Chip8 :=
  mkChip8 (ram c) (screen c) (stack c) (v c) (i c) (dt c) z (sp c) (pc c) (keys c).
Definition with_sp (c : Chip8) (z : Z) : Chip8 :=
  mkChip8 (ram c) (screen c) (stack c) (v c) (i c) (dt c) (st c) z (pc c) (keys c).
Definition with_pc (c : Chip8) (z : Z) : Chip8 :=
  mkChip8 (ram c) (screen c) (stack c) (v c) (i c) (dt c) (st c) (sp c) z (keys c).
Definition with_keys (c : Chip8) (a : list Z) : Chip8 :=
  mkChip8 (ram c) (screen c) (stack c) (v c) (i c) (dt c) (st c) (sp c) (pc c) a.

(** [chip->v[k]] and [chip->v[k] = b]. *)
Definition V (c : Chip8) (k : Z) : Z := v c !!! Z.to_nat k.
Definition set_v (c : Chip8) (k : Z) (b : Z) : Chip8 :=
  with_v c (<[Z.to_nat k := b]> (v c)).

(** The state a C program can be in: array sizes and integer ranges of the
    struct's field types. *)
Definition byte (b : Z) : Prop := 0 <= b < 256.
Definition word (b : Z) : Prop := 0 <= b < 65536.

Record wf (c : Chip8) : Prop := mkWf {
  wf_ram : length (ram c) = 4096%nat;
  wf_ram_bytes : Forall byte (ram c);
  wf_screen : length (screen c) = 2048%nat;
  wf_screen_bytes : Forall byte (screen c);
  wf_stack : length (stack c) = 16%nat;
  wf_stack_words : Forall word (stack c);
  wf_v : length (v c) = 16%nat;
  wf_v_bytes : Forall byte (v c);
  wf_i : word (i c);
  wf_dt : byte (dt c);
  wf_st : byte (st c);
  wf_sp : byte (sp c);
  wf_pc : word (pc c);
  wf_keys : length (keys c) = 16%nat
}.

(** ** Outcomes of running interpreter code *)

Inductive outcome (A : Type) : Type :=
| Ok (a : A)
| Abort (op : Z)   (* chip8_cpu_bdi: the opcode is reported, then abort() *)
| Undefined        (* an array is accessed outside its bounds *)
| Blocked.         (* the key wait is still polling when the fuel is spent *)
Arguments Ok {A} a.
Arguments Abort {A} op.
Arguments Undefined {A}.
Arguments Blocked {A}.

#[global] Instance outcome_ret : MRet outcome := fun A a => Ok a.
#[global] Instance outcome_bind : MBind outcome := fun A B f m =>
  match m with
  | Ok a => f a
  | Abort op => Abort op
  | Undefined => Undefined
  | Blocked => Blocked
  end.

(** [a[k]] and [a[k] = b] for an array indexed by a run-time value. *)
Definition load (a : list Z) (k : Z) : outcome Z :=
  if decide (0 <= k) then
    match a !! Z.to_nat k with
    | Some b => Ok b
    | None => Undefined
    end
  else Undefined.

Definition store (a : list Z) (k : Z) (b : Z) : outcome (list Z) :=
  if decide (0 <= k < Z.of_nat (length a)) then Ok (<[Z.to_nat k := b]> a)
  else Undefined.

(** [for (k = from; k < from + count; k++) body], the state threaded through. *)
Fixpoint for_loop {T : Type} (from : Z) (count : nat)
    (body : Z -> T -> outcome T) (s : T) : outcome T :=
  match count with
  | O => Ok s
  | S n => s' ← body from s; for_loop (from + 1) n body s'
  end.

(** ** chip8.c: opcode fields *)

Definition Opcode : Type := Z.   (* uint16_t *)

Definition NNN (op : Opcode) : Z := Z.land op 0x0FFF.
Definition N (op : Opcode) : Z := Z.land op 0x000F.
Definition KK (op : Opcode) : Z := Z.land op 0x00FF.
Definition X (op : Opcode) : Z := Z.shiftr (Z.land op 0x0F00) 8.
Definition Y (op : Opcode) : Z := Z.shiftr (Z.land op 0x00F0) 4.

(** ** chip8.c: instruction handlers *)

(* Jumps *)
Definition chip8_cpu_jmp (c : Chip8) (op : Opcode) : Chip8 :=
  with_pc c (NNN op).

Definition chip8_cpu_jmpv0 (c : Chip8) (op : Opcode) : Chip8 :=
  with_pc c (u16 (NNN op + V c 0)).

(* Subroutines *)
Definition chip8_cpu_call (c : Chip8) (op : Opcode) : outcome Chip8 :=
  s ← store (stack c) (sp c) (u16 (pc c));
  let c := with_stack c s in
  let c := with_sp c (u8 (sp c + 1)) in
  Ok (with_pc c (NNN op)).

Definition chip8_cpu_ret (c : Chip8) (op : Opcode) : outcome Chip8 :=
  let c := with_sp c (u8 (sp c - 1)) in
  a ← load (stack c) (sp c);
  Ok (with_pc c a).

(* Skips *)
Definition chip8_cpu_se (c : Chip8) (op : Opcode) : Chip8 :=
  with_pc c (u16 (pc c + (if decide (V c (X op) = KK op) then 2 else 0))).

Definition chip8_cpu_sne (c : Chip8) (op : Opcode) : Chip8 :=
  with_pc c (u16 (pc c + (if decide (V c (X op) ≠ KK op) then 2 else 0))).

Definition chip8_cpu_ser (c : Chip8) (op : Opcode) : Chip8 :=
  with_pc c (u16 (pc c + (if decide (V c (X op) = V c (Y op)) then 2 else 0))).

Definition chip8_cpu_sner (c : Chip8) (op : Opcode) : Chip8 :=
  with_pc c (u16 (pc c + (if decide (V c (X op) ≠ V c (Y op)) then 2 else 0))).

(* Data Register *)
Definition chip8_cpu_ld (c : Chip8) (op : Opcode) : Chip8 :=
  set_v c (X op) (u8 (KK op)).

Definition chip8_cpu_ldr (c : Chip8) (op : Opcode) : Chip8 :=
  set_v c (X op) (V c (Y op)).

Definition chip8_cpu_or (c : Chip8) (op : Opcode) : Chip8 :=
  set_v c (X op) (u8 (Z.lor (V c (X op)) (V c (Y op)))).

Definition chip8_cpu_xor (c : Chip8) (op : Opcode) : Chip8 :=
  set_v c (X op) (u8 (Z.lxor (V c (X op)) (V c (Y op)))).

Definition chip8_cpu_and (c : Chip8) (op : Opcode) : Chip8 :=
  set_v c (X op) (u8 (Z.land (V c (X op)) (V c (Y op)))).

Definition chip8_cpu_add (c : Chip8) (op : Opcode) : Chip8 :=
  set_v c (X op) (u8 (V c (X op) + KK op)).

Definition chip8_cpu_addr (c : Chip8) (op : Opcode) : Chip8 :=
  let c := set_v c 0xF (if decide (V c (X op) + V c (Y op) > 0xFF) then 1 else 0) in
  set_v c (X op) (u8 (V c (X op) + V c (Y op))).

Definition chip8_cpu_sub (c : Chip8) (op : Opcode) : Chip8 :=
  set_v c (X op) (u8 (V c (X op) - V c (Y op))).

Definition chip8_cpu_subn (c : Chip8) (op : Opcode) : Chip8 :=
  let c := set_v c 0xF (if decide (V c (Y op) > V c (X op)) then 1 else 0) in
  set_v c (X op) (u8 (V c (Y op) - V c (X op))).

Definition chip8_cpu_shr (c : Chip8) (op : Opcode) : Chip8 :=
  let c := set_v c 0xF
    (if decide (Z.shiftr (Z.land (V c (X op)) 0x0F) 3 = 1) then 1 else 0) in
  set_v c (X op) (u8 (Z.shiftr (V c (X op)) 1)).

Definition chip8_cpu_shl (c : Chip8) (op : Opcode) : Chip8 :=
  let c := set_v c 0xF (if decide (Z.shiftr (V c (X op)) 15 = 1) then 1 else 0) in
  set_v c (X op) (u8 (Z.shiftl (V c (X op)) 1)).

(* I *)
Definition chip8_cpu_ldi (c : Chip8) (op : Opcode) : Chip8 :=
  with_i c (NNN op).

Definition chip8_cpu_addi (c : Chip8) (op : Opcode) : Chip8 :=
  with_i c (u16 (i c + V c (X op))).

(* Storage *)
Definition chip8_cpu_ldir (c : Chip8) (op : Opcode) : outcome Chip8 :=
  c ← for_loop 0 (Z.to_nat (X op + 1))
        (fun k c => a ← store (ram c) (i c + k) (V c k); Ok (with_ram c a)) c;
  Ok (with_i c (u16 (i c + (X op + 1)))).

Definition chip8_cpu_ldri (c : Chip8) (op : Opcode) : outcome Chip8 :=
  c ← for_loop 0 (Z.to_nat (X op + 1))
        (fun k c => b ← load (ram c) (i c + k); Ok (set_v c k b)) c;
  Ok (with_i c (u16 (i c + (X op + 1)))).

(* Drawing *)

(** The body of the inner loop of [chip8_cpu_drw] once the sprite bit is
    known to be set.  The cell index is computed from the registers each of
    the two times the source computes it. *)
Definition drw_pixel (op : Opcode) (row col : Z) (c : Chip8) : outcome Chip8 :=
  px ← load (screen c) (V c (X op) + col + (V c (Y op) + row) * SCREEN_W);
  let c := if decide (px ≠ 0) then set_v c 0xF 0x1 else c in
  let k := V c (X op) + col + (V c (Y op) + row) * SCREEN_W in
  px ← load (screen c) k;
  a ← store (screen c) k (u8 (Z.lxor px 0x1));
  Ok (with_screen c a).

Definition drw_row (op : Opcode) (row : Z) (c : Chip8) : outcome Chip8 :=
  b ← load (ram c) (i c + row);
  for_loop 0 8
    (fun col c =>
       if decide (Z.land b (Z.shiftr 0x80 col) ≠ 0) then drw_pixel op row col c
       else Ok c) c.

Definition chip8_cpu_drw (c : Chip8) (op : Opcode) : outcome Chip8 :=
  let c := set_v c 0xF 0 in
  for_loop 0 (Z.to_nat (N op)) (drw_row op) c.

Definition chip8_cpu_cls (c : Chip8) (op : Opcode) : Chip8 :=
  with_screen c (replicate (Z.to_nat SCREEN_SIZE) 0).

(* Font *)
Definition chip8_cpu_ldf (c : Chip8) (op : Opcode) : Chip8 :=
  with_i c (u16 (V c (X op) * CHAR_SIZE)).

(* Keypad *)
Definition chip8_cpu_skp (c : Chip8) (op : Opcode) : outcome Chip8 :=
  k ← load (keys c) (V c (X op));
  Ok (if decide (k ≠ 0) then with_pc c (u16 (pc c + 2)) else c).

Definition chip8_cpu_sknp (c : Chip8) (op : Opcode) : outcome Chip8 :=
  k ← load (keys c) (V c (X op));
  Ok (if decide (k = 0) then with_pc c (u16 (pc c + 2)) else c).

(** The inner loop of [chip8_cpu_ldk]: the first [k] from [from] on with
    [keys[k] != 0], where the source leaves both loops. *)
Fixpoint scan_keys (ks : list Z) (from : Z) (count : nat) : outcome (option Z) :=
  match count with
  | O => Ok None
  | S n =>
      b ← load ks from;
      if decide (b ≠ 0) then Ok (Some from) else scan_keys ks (from + 1) n
  end.

(* BCD *)
Definition chip8_cpu_bcd (c : Chip8) (op : Opcode) : outcome Chip8 :=
  a ← store (ram c) (i c) (u8 (Z.quot (Z.rem (V c (X op)) 1000) 100));
  let c := with_ram c a in
  a ← store (ram c) (i c + 1) (u8 (Z.quot (Z.rem (V c (X op)) 100) 10));
  let c := with_ram c a in
  a ← store (ram c) (i c + 2) (u8 (Z.rem (V c (X op)) 10));
  Ok (with_ram c a).

(* Timers *)
Definition chip8_cpu_ldrdt (c : Chip8) (op : Opcode) : Chip8 :=
  set_v c (X op) (dt c).

Definition chip8_cpu_lddtr (c : Chip8) (op : Opcode) : Chip8 :=
  with_dt c (V c (X op)).

Definition chip8_cpu_ldstr (c : Chip8) (op : Opcode) : Chip8 :=
  with_st c (V c (X op)).

(** ** chip8.c: creation, reset, ROM loading, timers *)

Definition font : list Z :=
  [ 0xF0; 0x90; 0x90; 0x90; 0xF0;   (* 0 *)
    0x20; 0x60; 0x20; 0x20; 0x70;   (* 1 *)
    0xF0; 0x10; 0xF0; 0x80; 0xF0;   (* 2 *)
    0xF0; 0x10; 0xF0; 0x10; 0xF0;   (* 3 *)
    0x90; 0x90; 0xF0; 0x10; 0x10;   (* 4 *)
    0xF0; 0x80; 0xF0; 0x10; 0xF0;   (* 5 *)
    0xF0; 0x80; 0xF0; 0x90; 0xF0;   (* 6 *)
    0xF0; 0x10; 0x20; 0x40; 0x40;   (* 7 *)
    0xF0; 0x90; 0xF0; 0x90; 0xF0;   (* 8 *)
    0xF0; 0x90; 0xF0; 0x10; 0xF0;   (* 9 *)
    0xF0; 0x90; 0xF0; 0x90; 0x90;   (* A *)
    0xE0; 0x90; 0xE0; 0x90; 0xE0;   (* B *)
    0xF0; 0x80; 0x80; 0x80; 0xF0;   (* C *)
    0xE0; 0x90; 0x90; 0x90; 0xE0;   (* D *)
    0xF0; 0x80; 0xF0; 0x80; 0xF0;   (* E *)
    0xF0; 0x80; 0xF0; 0x80; 0x80 ]. (* F *)

(** The struct [chip8_create] returns when [malloc] succeeds: all zero, then
    [pc] and the font. *)
Definition chip8_create : Chip8 :=
  let c := mkChip8 (replicate (Z.to_nat RAM_SIZE) 0)
                   (replicate (Z.to_nat SCREEN_SIZE) 0)
                   (replicate (Z.to_nat STACK_SIZE) 0)
                   (replicate 16 0) 0 0 0 0 0
                   (replicate (Z.to_nat KEYPAD_SIZE) 0) in
  let c := with_pc c 0x200 in
  with_ram c (list_inserts (Z.to_nat FONT_START) (take (Z.to_nat FONT_SIZE) font) (ram c)).

Definition chip8_reset (c : Chip8) : Chip8 :=
  let c := with_pc c 0x200 in
  let c := with_i c 0 in
  let c := with_dt c 0 in
  let c := with_st c 0 in
  let c := with_sp c 0 in
  let c := with_v c (replicate 16 0) in
  let c := with_stack c (replicate (Z.to_nat STACK_SIZE) 0) in
  with_screen c (replicate (Z.to_nat SCREEN_SIZE) 0).

(** [file] is the content of the ROM file, [None] when it cannot be opened;
    the second component is the returned status. *)
Definition chip8_load_rom (c : Chip8) (file : option (list Z)) : Chip8 * Z :=
  match file with
  | None => (c, -1)
  | Some bytes =>
      (with_ram c (list_inserts (Z.to_nat ROM_START)
                     (take (Z.to_nat ROM_SIZE) bytes) (ram c)), 0)
  end.

Definition chip8_tick (c : Chip8) : Chip8 :=
  let c := if decide (dt c ≠ 0) then with_dt c (u8 (dt c - 1)) else c in
  if decide (st c ≠ 0) then with_st c (u8 (st c - 1)) else c.

(** ** chip8.c: dispatch and the fetch-execute cycle *)

Section Interpreter.

Context {World : Type}.
(** [chip->key_handle], with whatever [chip->userdata] lets it reach. *)
Variable key_handle : World -> Chip8 -> World * Chip8.
(** The C library's [rand()]. *)
Variable rand : World -> World * Z.

(** [typedef void Opimpl(Chip8 *, Opcode)]; the [nat] bounds the number of
    polls of a key wait. *)
Definition Opimpl : Type :=
  nat -> World -> Chip8 -> Opcode -> outcome (World * Chip8).

Definition total (f : Chip8 -> Opcode -> Chip8) : Opimpl :=
  fun _ w c op => Ok (w, f c op).
Definition partial (f : Chip8 -> Opcode -> outcome Chip8) : Opimpl :=
  fun _ w c op => c' ← f c op; Ok (w, c').

(* Bad Instruction *)
Definition chip8_cpu_bdi : Opimpl :=
  fun _ _ _ op => Abort op.

Definition chip8_cpu_rnd : Opimpl :=
  fun _ w c op =>
    let '(w, r) := rand w in
    Ok (w, set_v c (X op) (Z.land (u8 r) (KK op))).

Fixpoint chip8_cpu_ldk (fuel : nat) (w : World) (c : Chip8) (op : Opcode)
    : outcome (World * Chip8) :=
  match fuel with
  | O => Blocked
  | S fuel =>
      let '(w, c) := key_handle w c in
      r ← scan_keys (keys c) 0 (Z.to_nat KEYPAD_SIZE);
      match r with
      | Some k => Ok (w, set_v c (X op) k)
      | None => chip8_cpu_ldk fuel w c op
      end
  end.

(* Jump Tables *)
Definition chip8_cpu_func : Opimpl :=
  fun fuel w c op =>
    if decide (KK op = 0xE0) then total chip8_cpu_cls fuel w c op
    else if decide (KK op = 0xEE) then partial chip8_cpu_ret fuel w c op
    else chip8_cpu_bdi fuel w c op.

(* Opcode Table - Arithmetic Operations *)
Definition chip8_op_arith : list Opimpl :=
  [ total chip8_cpu_ldr;   (* 8XY0 | LD Vx, Vy *)
    total chip8_cpu_or;    (* 8XY1 | OR Vx, Vy *)
    total chip8_cpu_and;   (* 8XY2 | AND Vx, Vy *)
    total chip8_cpu_xor;   (* 8XY3 | XOR Vx, Vy *)
    total chip8_cpu_addr;  (* 8XY4 | ADD Vx, Vy *)
    total chip8_cpu_sub;   (* 8XY5 | SUB Vx, Vy *)
    total chip8_cpu_shr;   (* 8XY6 | SHR Vx *)
    total chip8_cpu_subn;  (* 8XY7 | SUBN Vx, Vy *)
    chip8_cpu_bdi;         (* 8XY8 | BDI *)
    chip8_cpu_bdi;         (* 8XY9 | BDI *)
    chip8_cpu_bdi;         (* 8XYA | BDI *)
    chip8_cpu_bdi;         (* 8XYB | BDI *)
    chip8_cpu_bdi;         (* 8XYC | BDI *)
    chip8_cpu_bdi;         (* 8XYD | BDI *)
    total chip8_cpu_shl;   (* 8XYE | SHL Vx *)
    chip8_cpu_bdi ].       (* 8XYF | BDI *)

(** A call through entry [k] of a table of handlers. *)
Definition call_entry (table : list Opimpl) (k : Z) : Opimpl :=
  fun fuel w c op =>
    if decide (0 <= k) then
      match table !! Z.to_nat k with
      | Some f => f fuel w c op
      | None => Undefined
      end
    else Undefined.

Definition chip8_cpu_arith : Opimpl :=
  fun fuel w c op => call_entry chip8_op_arith (N op) fuel w c op.

Definition chip8_cpu_key : Opimpl :=
  fun fuel w c op =>
    if decide (KK op = 0x9E) then partial chip8_cpu_skp fuel w c op
    else if decide (KK op = 0xA1) then partial chip8_cpu_sknp fuel w c op
    else chip8_cpu_bdi fuel w c op.

Definition chip8_cpu_vx : Opimpl :=
  fun fuel w c op =>
    if decide (KK op = 0x07) then total chip8_cpu_ldrdt fuel w c op
    else if decide (KK op = 0x0A) then chip8_cpu_ldk fuel w c op
    else if decide (KK op = 0x15) then total chip8_cpu_lddtr fuel w c op
    else if decide (KK op = 0x18) then total chip8_cpu_ldstr fuel w c op
    else if decide (KK op = 0x1E) then total chip8_cpu_addi fuel w c op
    else if decide (KK op = 0x29) then total chip8_cpu_ldf fuel w c op
    else if decide (KK op = 0x33) then partial chip8_cpu_bcd fuel w c op
    else if decide (KK op = 0x55) then partial chip8_cpu_ldir fuel w c op
    else if decide (KK op = 0x65) then partial chip8_cpu_ldri fuel w c op
    else chip8_cpu_bdi fuel w c op.

(* Opcode Table - General Operations *)
Definition chip8_op_all : list Opimpl :=
  [ chip8_cpu_func;          (* 00-- *)
    total chip8_cpu_jmp;     (* 1NNN | JMP addr *)
    partial chip8_cpu_call;  (* 2NNN | CALL addr *)
    total chip8_cpu_se;      (* 3XNN | SE Vx, byte *)
    total chip8_cpu_sne;     (* 4XNN | SNE Vx, byte *)
    total chip8_cpu_ser;     (* 5XY0 | SE Vx, Vy *)
    total chip8_cpu_ld;      (* 6XKK | LD Vx, byte *)
    total chip8_cpu_add;     (* 7XKK | ADD Vx, byte *)
    chip8_cpu_arith;         (* 8XY- *)
    total chip8_cpu_sner;    (* 9XY0 | SNE Vx, Vy *)
    total chip8_cpu_ldi;     (* ANNN | LD I, addr *)
    total chip8_cpu_jmpv0;   (* BNNN | JMP V0, addr *)
    chip8_cpu_rnd;           (* CXKK | RND Vx, byte *)
    partial chip8_cpu_drw;   (* DXYN | DRW Vx, Vy, nibble *)
    chip8_cpu_key;           (* EX-- *)
    chip8_cpu_vx ].          (* FX-- *)

Definition chip8_cycle (fuel : nat) (w : World) (c : Chip8)
    : outcome (World * Chip8) :=
  let '(w, c) := key_handle w c in
  hi ← load (ram c) (pc c);
  lo ← load (ram c) (pc c + 1);
  let op := u16 (Z.lor (Z.shiftl hi 8) lo) in
  let c := with_pc c (u16 (pc c + 2)) in
  call_entry chip8_op_all (Z.shiftr (Z.land op 0xF000) (3 * 4)) fuel w c op.

End Interpreter.

(** ** main.c: the key handler handed to [chip8_create] *)

Module Host.

Inductive SDL_Event : Type :=
| SDL_QUIT
| SDL_KEYDOWN (sym : Z)
| SDL_KEYUP (sym : Z)
| SDL_OTHER.

Definition SDLK_y : Z := 121.

(** [keypad]: the key codes of x 1 2 3 q w e a s d z c 4 r f v. *)
Definition keypad : list Z :=
  [ 120; 49; 50; 51;
    113; 119; 101; 97;
    115; 100; 122; 99;
    52; 114; 102; 118 ].

(** What the interpreter's surroundings hold: the batches of events the
    successive calls of the handler will find queued, [running], and the
    values [rand()] is going to return. *)
Record World : Type := mkWorld {
  pending : list (list SDL_Event);
  running : bool;
  random : list Z
}.

(** [for (i = 0; i < KEYPAD_SIZE; i++) if (sym == keypad[i]) keys[i] = val]. *)
Definition set_keys (sym val : Z) (ks : list Z) : list Z :=
  foldl (fun ks k => if decide (keypad !! k = Some sym) then <[k := val]> ks else ks)
        ks (seq 0 (Z.to_nat KEYPAD_SIZE)).

Definition handle_event (rc : bool * Chip8) (e : SDL_Event) : bool * Chip8 :=
  let '(r, c) := rc in
  match e with
  | SDL_QUIT => (false, c)
  | SDL_KEYDOWN sym =>
      let c := if decide (sym = SDLK_y) then chip8_reset c else c in
      (r, with_keys c (set_keys sym 1 (keys c)))
  | SDL_KEYUP sym => (r, with_keys c (set_keys sym 0 (keys c)))
  | SDL_OTHER => (r, c)
  end.

Definition key_handle (w : World) (c : Chip8) : World * Chip8 :=
  match pending w with
  | [] => (w, c)
  | batch :: rest =>
      let '(r, c) := foldl handle_event (running w, c) batch in
      (mkWorld rest r (random w), c)
  end.

Definition rand (w : World) : World * Z :=
  match random w with
  | [] => (w, 0)
  | r :: rest => (mkWorld (pending w) (running w) rest, r)
  end.

(** A world in which nothing happens. *)
Definition idle : World := mkWorld [] true [].

End Host.

(** ** Statements of the flag and shift properties *)

(** What ADD Vx,Vy is to leave behind, from the state [c] before it. *)
Definition add_carry_post (c : Chip8) (op : Opcode) (c' : Chip8) : Prop :=
  V c' 0xF = (if decide (V c (X op) + V c (Y op) > 255) then 1 else 0) ∧
  V c' (X op) = (V c (X op) + V c (Y op)) mod 256.

(** What SUB Vx,Vy is to leave behind. *)
Definition sub_borrow_post (c : Chip8) (op : Opcode) (c' : Chip8) : Prop :=
  V c' 0xF = (if decide (V c (X op) >= V c (Y op)) then 1 else 0) ∧
  V c' (X op) = (V c (X op) - V c (Y op)) mod 256.

(** What SHR Vx and SHL Vx are to leave behind. *)
Definition shr_post (c : Chip8) (op : Opcode) (c' : Chip8) : Prop :=
  V c' 0xF = Z.b2z (Z.testbit (V c (X op)) 0) ∧
  V c' (X op) = V c (X op) / 2.

Definition shl_post (c : Chip8) (op : Opcode) (c' : Chip8) : Prop :=
  V c' 0xF = Z.b2z (Z.testbit (V c (X op)) 7) ∧
  V c' (X op) = (V c (X op) * 2) mod 256.

(** A freshly created machine with the registers given. *)
Definition with_regs (regs : list Z) : Chip8 := with_v chip8_create regs.

(** ** Statements about the dispatch table of group 8 *)

(** The values of the low nibble whose entry in [chip8_op_arith] is
    [chip8_cpu_bdi]. *)
Definition arith_bad_slots : list Z := [8; 9; 10; 11; 12; 13; 15].

(** "Exactly [n] slots of the table route to the bad-instruction handler":
    [n] distinct nibbles, and an opcode of group 8 aborts just when its
    nibble is one of them. *)
Definition arith_bad_slot_count (World : Type) (n : nat) : Prop :=
  ∃ slots : list Z, NoDup slots ∧ length slots = n ∧
    ∀ (fuel : nat) (w : World) (c : Chip8) (op : Opcode),
      chip8_cpu_arith fuel w c op = Abort op ↔ N op ∈ slots.

(** ** Statements about the bulk store and load *)

(** LD [I],Vx and then LD Vx,[I], one right after the other. *)
Definition ldir_then_ldri (c : Chip8) (op : Opcode) : outcome Chip8 :=
  c1 ← chip8_cpu_ldir c op; chip8_cpu_ldri c1 op.

(** LD [I],Vx, then LD I,nnn with [nnn] the index register of before the
    store, then LD Vx,[I]. *)
Definition ldir_ldi_ldri (c : Chip8) (op : Opcode) : outcome Chip8 :=
  c1 ← chip8_cpu_ldir c op;
  chip8_cpu_ldri (chip8_cpu_ldi c1 (0xA000 + i c)) op.

(** A decidable form of [wf], for running it on a given state. *)
Definition wf_check (c : Chip8) : bool :=
  bool_decide (length (ram c) = 4096%nat) && forallb (fun b => bool_decide (0 <= b < 256)) (ram c)
  && bool_decide (length (screen c) = 2048%nat) && forallb (fun b => bool_decide (0 <= b < 256)) (screen c)
  && bool_decide (length (stack c) = 16%nat) && forallb (fun b => bool_decide (0 <= b < 65536)) (stack c)
  && bool_decide (length (v c) = 16%nat) && forallb (fun b => bool_decide (0 <= b < 256)) (v c)
  && bool_decide (0 <= i c < 65536) && bool_decide (0 <= dt c < 256)
  && bool_decide (0 <= st c < 256) && bool_decide (0 <= sp c < 256)
  && bool_decide (0 <= pc c < 65536) && bool_decide (length (keys c) = 16%nat).

(** ** Statements about the key wait *)

(** The world and the machine after [n + 1] calls of the key handler. *)
Fixpoint polls {World : Type} (key_handle : World -> Chip8 -> World * Chip8)
    (n : nat) (w : World) (c : Chip8) : World * Chip8 :=
  match n with
  | O => key_handle w c
  | S n => let '(w, c) := key_handle w c in polls key_handle n w c
  end.

Definition pressed (ks : list Z) (k : Z) : Prop :=
  ∃ b, ks !! Z.to_nat k = Some b ∧ b ≠ 0.

Definition released (ks : list Z) (k : Z) : Prop :=
  ks !! Z.to_nat k = Some 0.

(** [k] is the smallest index of a pressed key. *)
Definition least_pressed (ks : list Z) (k : Z) : Prop :=
  0 <= k < 16 ∧ pressed ks k ∧ ∀ j, 0 <= j < k -> released ks j.

Definition none_pressed (ks : list Z) : Prop :=
  ∀ j, 0 <= j < 16 -> released ks j.

(** Poll number [n] (from 0) is the first to report a pressed key, and [k]
    is the smallest index pressed there. *)
Definition first_press {World : Type} (key_handle : World -> Chip8 -> World * Chip8)
    (n : nat) (w : World) (c : Chip8) (k : Z) : Prop :=
  (∀ m, (m < n)%nat -> none_pressed (keys (polls key_handle m w c).2)) ∧
  least_pressed (keys (polls key_handle n w c).2) k.

(** ** Statements about the display *)

(** A display buffer: 2048 cells, each 0 or 1. *)
Definition boolean_cells (a : list Z) : Prop :=
  length a = 2048%nat ∧ Forall (fun b => b = 0 ∨ b = 1) a.

Definition screen_ok (c : Chip8) : Prop := boolean_cells (screen c).

(** What can happen to a machine once created: the host loads a ROM, ticks
    the timers, runs a cycle or resets, and any entry of the opcode table is
    run on any opcode; a step is there only when the code has an outcome. *)
Inductive machine_step {World : Type}
    (key_handle : World -> Chip8 -> World * Chip8) (rand : World -> World * Z)
    : World * Chip8 -> World * Chip8 -> Prop :=
| step_load_rom w c file :
    machine_step key_handle rand (w, c) (w, (chip8_load_rom c file).1)
| step_tick w c :
    machine_step key_handle rand (w, c) (w, chip8_tick c)
| step_reset w c :
    machine_step key_handle rand (w, c) (w, chip8_reset c)
| step_cycle fuel w c s' :
    chip8_cycle key_handle rand fuel w c = Ok s' ->
    machine_step key_handle rand (w, c) s'
| step_exec k fuel w c op s' :
    call_entry (chip8_op_all key_handle rand) k fuel w c op = Ok s' ->
    machine_step key_handle rand (w, c) s'.

(** A handler keeps the display boolean. *)
Definition keeps_screen {World : Type} (f : Opimpl (World := World)) : Prop :=
  ∀ fuel w c op w' c', screen_ok c -> f fuel w c op = Ok (w', c') -> screen_ok c'.

(** The machines a host can get to from the one [chip8_create] returns. *)
Definition reachable {World : Type}
    (key_handle : World -> Chip8 -> World * Chip8) (rand : World -> World * Z)
    (w0 : World) (s : World * Chip8) : Prop :=
  rtc (machine_step key_handle rand) (w0, chip8_create) s.

(** The machine after the host has loaded a ROM made of the one instruction
    DRW V0,V0,5 (the glyph of 0 at the top left corner) and run one cycle. *)
Definition glyph_drawn : Host.World * Chip8 :=
  match chip8_cycle Host.key_handle Host.rand 0 Host.idle
          (chip8_load_rom chip8_create (Some [0xD0; 0x05])).1 with
  | Ok s => s
  | _ => (Host.idle, chip8_create)
  end.

(** ** The display behind the memory *)

(** [struct Chip8] (chip8.h) declares [uint8_t screen[SCREEN_SIZE]] right
    after [uint8_t ram[RAM_SIZE]]: the byte after the last one of [ram] is
    [screen[0]].  [store] has no outcome for an index past the end of its
    array; [store_ram] places the byte of [chip->ram[k] = b] in the struct,
    as far as [ram] and [screen] reach. *)
Definition store_ram (c : Chip8) (k b : Z) : outcome Chip8 :=
  if decide (k < RAM_SIZE) then
    a ← store (ram c) k b; Ok (with_ram c a)
  else
    a ← store (screen c) (k - RAM_SIZE) b; Ok (with_screen c a).

(** [chip8_cpu_bcd], its three stores placed in the struct. *)
Definition chip8_cpu_bcd_in_struct (c : Chip8) (op : Opcode) : outcome Chip8 :=
  c ← store_ram c (i c) (u8 (Z.quot (Z.rem (V c (X op)) 1000) 100));
  c ← store_ram c (i c + 1) (u8 (Z.quot (Z.rem (V c (X op)) 100) 10));
  store_ram c (i c + 2) (u8 (Z.rem (V c (X op)) 10)).

(** The machine after the host has loaded the ROM
    LD I,0xFFE; LD V4,234; BCD V4 and run the first two instructions: the
    next cycle is the BCD, with I two bytes before the end of the memory. *)
Definition bcd_at_end_of_memory : Host.World * Chip8 :=
  match
    s ← chip8_cycle Host.key_handle Host.rand 0 Host.idle
          (chip8_load_rom chip8_create (Some [0xAF; 0xFE; 0x64; 0xEA; 0xF4; 0x33])).1;
    chip8_cycle Host.key_handle Host.rand 0 s.1 s.2
  with
  | Ok s => s
  | _ => (Host.idle, chip8_create)
  end.

(** ** Statements about drawing *)

(** CLS, then DRW Vx,Vy,n, then the same DRW again. *)
Definition cls_drw (c : Chip8) (op : Opcode) : outcome Chip8 :=
  chip8_cpu_drw (chip8_cpu_cls c 0x00E0) op.

Definition cls_drw_drw (c : Chip8) (op : Opcode) : outcome Chip8 :=
  c1 ← cls_drw c op; chip8_cpu_drw c1 op.

(** The display cell of row [row], column [col] of a sprite drawn at
    ([vx], [vy]), as the source indexes it. *)
Definition cell (vx vy row col : Z) : Z := vx + col + (vy + row) * SCREEN_W.

(** Every cell the draw touches lies in the display: the cells of the set
    bits of the [N op] sprite rows at [ram[i ..]]. *)
Definition touched_in_bounds (c : Chip8) (op : Opcode) : Prop :=
  ∀ row col, 0 <= row < N op -> 0 <= col < 8 ->
    Z.land (ram c !!! Z.to_nat (i c + row)) (Z.shiftr 0x80 col) ≠ 0 ->
    0 <= cell (V c (X op)) (V c (Y op)) row col < SCREEN_SIZE.

(** The cells a row and a sprite touch, in the order of the loops. *)
Fixpoint row_cells (b vx vy row col : Z) (count : nat) : list Z :=
  match count with
  | O => []
  | S n =>
      (if decide (Z.land b (Z.shiftr 0x80 col) ≠ 0) then [cell vx vy row col] else [])
      ++ row_cells b vx vy row (col + 1) n
  end.

Fixpoint sprite_cells (mem : list Z) (I vx vy row : Z) (count : nat) : list Z :=
  match count with
  | O => []
  | S n =>
      row_cells (mem !!! Z.to_nat (I + row)) vx vy row 0 8
      ++ sprite_cells mem I vx vy (row + 1) n
  end.

(** What the inner loop body does to the display and to the flag at one
    touched cell. *)
Definition toggle (sf : list Z * Z) (k : Z) : list Z * Z :=
  (<[Z.to_nat k := u8 (Z.lxor (sf.1 !!! Z.to_nat k) 0x1)]> sf.1,
   if decide (sf.1 !!! Z.to_nat k ≠ 0) then 0x1 else sf.2).

(** A machine in the middle of a draw: [c] but for the display and VF. *)
Definition drawing (c : Chip8) (sf : list Z * Z) : Chip8 :=
  with_screen (set_v c 0xF sf.2) sf.1.

(** The cells DRW touches from the machine [c]. *)
Definition drw_cells (c : Chip8) (op : Opcode) : list Z :=
  sprite_cells (ram c) (i c) (V c (X op)) (V c (Y op)) 0 (Z.to_nat (N op)).

(** CLS, DRW, DRW leaves the display cleared. *)
Definition double_draw_clears (c : Chip8) (op : Opcode) : Prop :=
  ∃ c2, cls_drw_drw c op = Ok c2 ∧ screen c2 = replicate 2048 0.

(** A world for the key wait: the first batch of events presses no key of
    the pad, the second presses w (key 5) and then 1 (key 1). *)
Definition two_batches : Host.World :=
  Host.mkWorld
    [ [Host.SDL_OTHER; Host.SDL_KEYDOWN 33];
      [Host.SDL_KEYDOWN 119; Host.SDL_KEYDOWN 49] ] true [].

(** ** Statements about decoding and dispatch *)

(** The index [chip8_cycle] computes into [chip8_op_all]. *)
Definition top (op : Opcode) : Z := Z.shiftr (Z.land op 0xF000) (3 * 4).

(** The call that ends [chip8_cycle]: through the entry of the top nibble. *)
Definition dispatch {World : Type}
    (key_handle : World -> Chip8 -> World * Chip8) (rand : World -> World * Z)
    : Opimpl (World := World) :=
  fun fuel w c op => call_entry (chip8_op_all key_handle rand) (top op) fuel w c op.

(** The opcodes no handler implements. *)
Definition bad_opcode (op : Opcode) : Prop :=
  (top op = 0x0 ∧ KK op ∉ [0xE0; 0xEE]) ∨
  (top op = 0x8 ∧ N op ∈ [0x8; 0x9; 0xA; 0xB; 0xC; 0xD; 0xF]) ∨
  (top op = 0xE ∧ KK op ∉ [0x9E; 0xA1]) ∨
  (top op = 0xF ∧ KK op ∉ [0x07; 0x0A; 0x15; 0x18; 0x1E; 0x29; 0x33; 0x55; 0x65]).

(** A handler that never ends in [abort()]. *)
Definition never_aborts {World : Type} (f : Opimpl (World := World)) : Prop :=
  ∀ fuel w c op o, f fuel w c op ≠ Abort o.

(** A machine to run statements on: fresh, with V0..V4 = 7, 8, 9, 10, 234,
    VF = 1 and I = 0x300. *)
Definition demo : Chip8 :=
  with_i (with_regs [7; 8; 9; 10; 234; 0; 0; 0; 0; 0; 0; 0; 0; 0; 0; 1]) 0x300.

(** ** Statements about the call stack *)

(** The CALL instructions [ops], one after the other. *)
Fixpoint calls (ops : list Opcode) (c : Chip8) : outcome Chip8 :=
  match ops with
  | [] => Ok c
  | op :: ops => c' ← chip8_cpu_call c op; calls ops c'
  end.

(** [k] times RET; with the machine, the addresses returned to, in order. *)
Fixpoint rets (k : nat) (c : Chip8) : outcome (list Z * Chip8) :=
  match k with
  | O => Ok ([], c)
  | S k =>
      c' ← chip8_cpu_ret c 0x00EE;
      r ← rets k c';
      Ok (pc c' :: r.1, r.2)
  end.

(** ** Statements about the font *)

(** The font table sits at the bottom of the memory. *)
Definition font_installed (c : Chip8) : Prop :=
  take (Z.to_nat FONT_SIZE) (ram c) = font.

(** A handler keeps the machine within the ranges of the struct's types. *)
Definition keeps_wf {World : Type} (f : Opimpl (World := World)) : Prop :=
  ∀ fuel w c op w' c', wf c -> f fuel w c op = Ok (w', c') -> wf c'.

(** * Properties *)

(** ** Opcode fields and registers *)

Lemma land_ones_4 (z : Z) : Z.land z 0xF = z mod 16.
Proof. exact (Z.land_ones z 4 ltac:(lia)). Qed.

Lemma X_eq (op : Opcode) : X op = (op / 256) mod 16.
Proof.
  unfold X. rewrite Z.shiftr_land. change (Z.shiftr 0x0F00 8) with (Z.ones 4).
  rewrite Z.land_ones by lia. rewrite Z.shiftr_div_pow2 by lia. reflexivity.
Qed.

Lemma Y_eq (op : Opcode) : Y op = (op / 16) mod 16.
Proof.
  unfold Y. rewrite Z.shiftr_land. change (Z.shiftr 0x00F0 4) with (Z.ones 4).
  rewrite Z.land_ones by lia. rewrite Z.shiftr_div_pow2 by lia. reflexivity.
Qed.

Lemma N_eq (op : Opcode) : N op = op mod 16.
Proof. apply land_ones_4. Qed.

Lemma KK_eq (op : Opcode) : KK op = op mod 256.
Proof. exact (Z.land_ones op 8 ltac:(lia)). Qed.

Lemma NNN_eq (op : Opcode) : NNN op = op mod 4096.
Proof. exact (Z.land_ones op 12 ltac:(lia)). Qed.

Lemma X_range (op : Opcode) : 0 <= X op < 16.
Proof. rewrite X_eq. apply Z.mod_pos_bound. lia. Qed.

Lemma Y_range (op : Opcode) : 0 <= Y op < 16.
Proof. rewrite Y_eq. apply Z.mod_pos_bound. lia. Qed.

Lemma N_range (op : Opcode) : 0 <= N op < 16.
Proof. rewrite N_eq. apply Z.mod_pos_bound. lia. Qed.

Lemma V_set_v_eq (c : Chip8) (k b : Z) :
  (Z.to_nat k < length (v c))%nat -> V (set_v c k b) k = b.
Proof. intros H. unfold V, set_v; simpl. by rewrite list_lookup_total_insert_eq. Qed.

Lemma V_set_v_ne (c : Chip8) (k j b : Z) :
  0 <= k -> 0 <= j -> k <> j -> V (set_v c k b) j = V c j.
Proof.
  intros Hk Hj Hne. unfold V, set_v; simpl.
  rewrite list_lookup_total_insert_ne; [done | lia].
Qed.

Lemma length_set_v (c : Chip8) (k b : Z) : length (v (set_v c k b)) = length (v c).
Proof. unfold set_v; simpl. apply length_insert. Qed.

(** ** Flags of the arithmetic and shift instructions *)

(** C1, at the inputs where the code departs from it: SHR V0 with V0 = 1
    clears VF although the bit shifted out is 1 (the code tests bit 3), and
    SHL V0 with V0 = 0x80 clears VF although bit 7 is set (the code tests
    bit 15 of a byte).  Both halve and double the register as claimed. *)
Theorem C1_shift_flags_at_failing_inputs :
  let c1 := with_regs [1; 0; 0; 0; 0; 0; 0; 0; 0; 0; 0; 0; 0; 0; 0; 0] in
  let c2 := with_regs [0x80; 0; 0; 0; 0; 0; 0; 0; 0; 0; 0; 0; 0; 0; 0; 0] in
  (V (chip8_cpu_shr c1 0x8006) 0xF = 0 ∧ V (chip8_cpu_shr c1 0x8006) 0 = 0 ∧
   ¬ shr_post c1 0x8006 (chip8_cpu_shr c1 0x8006)) ∧
  (V (chip8_cpu_shl c2 0x800E) 0xF = 0 ∧ V (chip8_cpu_shl c2 0x800E) 0 = 0 ∧
   ¬ shl_post c2 0x800E (chip8_cpu_shl c2 0x800E)).
Proof.
  cbv zeta. repeat split; try reflexivity.
  - intros [H _]. vm_compute in H. discriminate.
  - intros [H _]. vm_compute in H. discriminate.
Qed.

(** The flag SHR computes is bit 3 of Vx, and the flag SHL computes is 0 for
    every byte. *)
Lemma shr_flag_is_bit_3 (c : Chip8) (op : Opcode) :
  length (v c) = 16%nat -> X op <> 0xF ->
  V (chip8_cpu_shr c op) 0xF = Z.b2z (Z.testbit (V c (X op) mod 16) 3).
Proof.
  intros Hlen Hx. pose proof (X_range op) as Hr. unfold chip8_cpu_shr.
  rewrite V_set_v_ne by lia. rewrite V_set_v_eq by (rewrite Hlen; lia).
  rewrite land_ones_4.
  pose proof (Z.mod_pos_bound (V c (X op)) 16 ltac:(lia)) as Hb.
  generalize dependent (V c (X op) mod 16). intros m Hb.
  assert (Hm: m = 0 ∨ m = 1 ∨ m = 2 ∨ m = 3 ∨ m = 4 ∨ m = 5 ∨ m = 6 ∨ m = 7 ∨
              m = 8 ∨ m = 9 ∨ m = 10 ∨ m = 11 ∨ m = 12 ∨ m = 13 ∨ m = 14 ∨ m = 15) by lia.
  decompose [or] Hm; subst m; reflexivity.
Qed.

Lemma shl_flag_is_zero (c : Chip8) (op : Opcode) :
  length (v c) = 16%nat -> X op <> 0xF -> byte (V c (X op)) ->
  V (chip8_cpu_shl c op) 0xF = 0.
Proof.
  intros Hlen Hx Hb. pose proof (X_range op) as Hr. unfold chip8_cpu_shl.
  rewrite V_set_v_ne by lia. rewrite V_set_v_eq by (rewrite Hlen; lia).
  rewrite Z.shiftr_div_pow2 by lia. unfold byte in Hb.
  rewrite Z.div_small by lia. reflexivity.
Qed.

(** C2, as the code has it: for x other than 0xF, ADD Vx,Vy leaves in VF
    the carry of the original Vx + Vy, and, when y is not 0xF either, leaves
    in Vx the sum mod 256. *)
Theorem C2_add_carry (c : Chip8) (op : Opcode) :
  length (v c) = 16%nat -> X op <> 0xF ->
  V (chip8_cpu_addr c op) 0xF
    = (if decide (V c (X op) + V c (Y op) > 255) then 1 else 0) ∧
  (Y op <> 0xF ->
   V (chip8_cpu_addr c op) (X op) = (V c (X op) + V c (Y op)) mod 256).
Proof.
  intros Hlen Hx.
  pose proof (X_range op) as Hxr. pose proof (Y_range op) as Hyr.
  unfold chip8_cpu_addr. split.
  - rewrite V_set_v_ne by lia. apply V_set_v_eq. rewrite Hlen. lia.
  - intros Hy. rewrite V_set_v_eq by (rewrite length_set_v, Hlen; lia).
    rewrite !V_set_v_ne by lia. reflexivity.
Qed.

Lemma C2_add_carry_witness :
  let c := with_regs [200; 100; 0; 0; 0; 0; 0; 0; 0; 0; 0; 0; 0; 0; 0; 7] in
  (length (v c) = 16%nat ∧ X 0x8014 <> 0xF) ∧
  V (chip8_cpu_addr c 0x8014) 0xF = 1 ∧
  (Y 0x8014 <> 0xF -> V (chip8_cpu_addr c 0x8014) 0 = 44).
Proof.
  cbv zeta. split.
  - split; [reflexivity | discriminate].
  - apply (C2_add_carry
             (with_regs [200; 100; 0; 0; 0; 0; 0; 0; 0; 0; 0; 0; 0; 0; 0; 7]) 0x8014);
      [reflexivity | discriminate].
Defined.

(** C2 as stated fails when x is 0xF (the sum is added onto the flag just
    written) and when y is 0xF (the flag just written is what gets added). *)
Lemma C2_add_carry_fails_on_VF :
  let c1 := with_regs [4; 0; 0; 0; 0; 0; 0; 0; 0; 0; 0; 0; 0; 0; 0; 3] in
  let c2 := with_regs [200; 0; 0; 0; 0; 0; 0; 0; 0; 0; 0; 0; 0; 0; 0; 100] in
  ¬ add_carry_post c1 0x8F04 (chip8_cpu_addr c1 0x8F04) ∧
  ¬ add_carry_post c2 0x80F4 (chip8_cpu_addr c2 0x80F4).
Proof.
  cbv zeta. split.
  - intros [H _]. vm_compute in H. discriminate.
  - intros [_ H]. vm_compute in H. discriminate.
Qed.

(** C4, at an input where the code departs from it: SUB V0,V1 with V0 = 5,
    V1 = 3 and VF = 0 leaves VF at 0 although V0 >= V1; the difference is as
    claimed. *)
Theorem C4_sub_leaves_flag_at_failing_input :
  let c := with_regs [5; 3; 0; 0; 0; 0; 0; 0; 0; 0; 0; 0; 0; 0; 0; 0] in
  V (chip8_cpu_sub c 0x8015) 0xF = 0 ∧
  V (chip8_cpu_sub c 0x8015) 0 = 2 ∧
  ¬ sub_borrow_post c 0x8015 (chip8_cpu_sub c 0x8015).
Proof.
  cbv zeta. repeat split; try reflexivity.
  intros [H _]. vm_compute in H. discriminate.
Qed.

(** SUB never writes VF: for x other than 0xF the flag keeps its old value,
    while SUBN, next to it, sets the flag. *)
Lemma sub_keeps_flag (c : Chip8) (op : Opcode) :
  X op <> 0xF -> V (chip8_cpu_sub c op) 0xF = V c 0xF.
Proof.
  intros Hx. pose proof (X_range op). unfold chip8_cpu_sub.
  apply V_set_v_ne; lia.
Qed.

Lemma subn_sets_flag (c : Chip8) (op : Opcode) :
  length (v c) = 16%nat -> X op <> 0xF ->
  V (chip8_cpu_subn c op) 0xF = (if decide (V c (Y op) > V c (X op)) then 1 else 0).
Proof.
  intros Hlen Hx. pose proof (X_range op). unfold chip8_cpu_subn.
  rewrite V_set_v_ne by lia. apply V_set_v_eq. rewrite Hlen. lia.
Qed.

(** ** Reset *)

Lemma reset_arrays (c : Chip8) :
  v (chip8_reset c) = replicate 16 0 ∧
  stack (chip8_reset c) = replicate 16 0 ∧
  screen (chip8_reset c) = replicate 2048 0.
Proof. repeat split. Qed.

(** C7: after a reset the registers, the stack, the stack pointer, the
    timers, the index register and the display are zero, the program counter
    is 0x200, and the memory is what it was. *)
Theorem C7_reset (c : Chip8) :
  v (chip8_reset c) = replicate 16 0 ∧
  stack (chip8_reset c) = replicate 16 0 ∧
  sp (chip8_reset c) = 0 ∧
  dt (chip8_reset c) = 0 ∧
  st (chip8_reset c) = 0 ∧
  i (chip8_reset c) = 0 ∧
  screen (chip8_reset c) = replicate 2048 0 ∧
  pc (chip8_reset c) = 0x200 ∧
  ram (chip8_reset c) = ram c.
Proof. repeat split. Qed.

Lemma reset_cells_zero (c : Chip8) :
  (∀ k, (k < 16)%nat -> v (chip8_reset c) !! k = Some 0) ∧
  (∀ k, (k < 16)%nat -> stack (chip8_reset c) !! k = Some 0) ∧
  (∀ k, (k < 2048)%nat -> screen (chip8_reset c) !! k = Some 0).
Proof.
  destruct (reset_arrays c) as (Hv & Hs & Hd).
  rewrite Hv, Hs, Hd. repeat split; intros k Hk; by apply lookup_replicate_2.
Qed.

(** ** Dispatch of group 8 and the bad-instruction handler *)

Ltac solve_elem := rewrite ?elem_of_cons, ?elem_of_nil in *; lia.
Ltac solve_NoDup :=
  repeat (apply NoDup_cons; split; [solve_elem|]); apply NoDup_nil_2.

Lemma nibble_cases (k : Z) :
  0 <= k < 16 ->
  k = 0 ∨ k = 1 ∨ k = 2 ∨ k = 3 ∨ k = 4 ∨ k = 5 ∨ k = 6 ∨ k = 7 ∨
  k = 8 ∨ k = 9 ∨ k = 10 ∨ k = 11 ∨ k = 12 ∨ k = 13 ∨ k = 14 ∨ k = 15.
Proof. lia. Qed.

Lemma arith_dispatch {World : Type} (fuel : nat) (w : World) (c : Chip8) (op : Opcode) :
  ((N op ∈ arith_bad_slots) ∧ chip8_cpu_arith fuel w c op = Abort op) ∨
  ((N op ∉ arith_bad_slots) ∧ ∃ c', chip8_cpu_arith fuel w c op = Ok (w, c')).
Proof.
  unfold chip8_cpu_arith, call_entry, arith_bad_slots.
  destruct (nibble_cases (N op) (N_range op)) as
    [H|[H|[H|[H|[H|[H|[H|[H|[H|[H|[H|[H|[H|[H|[H|H]]]]]]]]]]]]]]];
    rewrite H; simpl;
    first [ left; split; [ solve_elem | reflexivity ]
          | right; split; [ solve_elem | eexists; reflexivity ] ].
Qed.

(** C8, as the code has it: the table of group 8 holds nine operations, and
    the seven remaining slots (low nibble 8 to D, and F) route to the
    bad-instruction handler; an opcode dispatched there yields the abort
    carrying that opcode and no state, and every other opcode of the group
    runs its operation. *)
Theorem C8_arith_bad_slots {World : Type} (fuel : nat) (w : World) (c : Chip8)
    (op : Opcode) :
  (chip8_cpu_arith fuel w c op = Abort op ↔ N op ∈ [8; 9; 10; 11; 12; 13; 15]) ∧
  ((∃ c', chip8_cpu_arith fuel w c op = Ok (w, c')) ↔ N op ∈ [0; 1; 2; 3; 4; 5; 6; 7; 14]) ∧
  chip8_cpu_bdi fuel w c op = Abort op ∧
  arith_bad_slot_count World 7.
Proof.
  assert (Hcases: ∀ fuel (w : World) c op,
             chip8_cpu_arith fuel w c op = Abort op ↔ N op ∈ arith_bad_slots).
  { intros f w0 c0 o. destruct (arith_dispatch f w0 c0 o) as [[Hin He]|[Hni [c' He]]].
    - split; auto.
    - split; [rewrite He; discriminate | contradiction]. }
  split; [apply Hcases|]. split; [|split; [reflexivity|]].
  - pose proof (N_range op) as Hr.
    destruct (arith_dispatch fuel w c op) as [[Hin He]|[Hni [c' He]]].
    + split.
      * intros [c' Hc]. rewrite He in Hc. discriminate.
      * unfold arith_bad_slots in Hin. solve_elem.
    + split; [|eauto]. intros _. unfold arith_bad_slots in Hni. solve_elem.
  - exists arith_bad_slots. split; [|split; [reflexivity | apply Hcases]].
    unfold arith_bad_slots. solve_NoDup.
Qed.

(** C8 as stated fails: the slots that route to the bad-instruction handler
    are not six. *)
Lemma C8_bad_slots_are_not_six : ¬ arith_bad_slot_count Host.World 6.
Proof.
  intros (slots & Hnd & Hlen & Hiff).
  assert (Hsub: arith_bad_slots ⊆+ slots).
  { apply NoDup_submseteq.
    - unfold arith_bad_slots. solve_NoDup.
    - intros k Hk.
      assert (Hop: ∃ op, N op = k).
      { unfold arith_bad_slots in Hk. rewrite !elem_of_cons, elem_of_nil in Hk.
        exists (0x8000 + k).
        destruct Hk as [->|[->|[->|[->|[->|[->|[->|[]]]]]]]]; reflexivity. }
      destruct Hop as (op & <-).
      apply (Hiff O Host.idle chip8_create op).
      destruct (arith_dispatch O Host.idle chip8_create op) as [[_ He]|[Hni _]];
        [exact He | contradiction]. }
  apply submseteq_length in Hsub. rewrite Hlen in Hsub. simpl in Hsub. lia.
Qed.

(** ** Array accesses and loops *)

Lemma load_Some (a : list Z) (k b : Z) :
  0 <= k -> a !! Z.to_nat k = Some b -> load a k = Ok b.
Proof. intros Hk Hb. unfold load. rewrite decide_True by done. by rewrite Hb. Qed.

Lemma load_total (a : list Z) (k : Z) :
  0 <= k < Z.of_nat (length a) -> load a k = Ok (a !!! Z.to_nat k).
Proof.
  intros Hk. apply load_Some; [lia|].
  apply list_lookup_lookup_total_lt. lia.
Qed.

Lemma load_Ok_inv (a : list Z) (k b : Z) :
  load a k = Ok b -> 0 <= k < Z.of_nat (length a) ∧ a !! Z.to_nat k = Some b.
Proof.
  unfold load. destruct (decide (0 <= k)); [|discriminate].
  destruct (a !! Z.to_nat k) eqn:E; [|discriminate].
  intros [= ->]. apply lookup_lt_Some in E as Hlt. split; [lia | done].
Qed.

Lemma store_Ok (a : list Z) (k b : Z) :
  0 <= k < Z.of_nat (length a) -> store a k b = Ok (<[Z.to_nat k := b]> a).
Proof. intros Hk. unfold store. by rewrite decide_True. Qed.

Lemma store_Ok_inv (a a' : list Z) (k b : Z) :
  store a k b = Ok a' -> 0 <= k < Z.of_nat (length a) ∧ a' = <[Z.to_nat k := b]> a.
Proof.
  unfold store. destruct (decide (0 <= k < Z.of_nat (length a))); [|discriminate].
  intros [= <-]. done.
Qed.

Lemma bind_Ok {A B : Type} (a : A) (f : A -> outcome B) : Ok a ≫= f = f a.
Proof. reflexivity. Qed.

Lemma bind_Ok_inv {A B : Type} (m : outcome A) (f : A -> outcome B) (b : B) :
  m ≫= f = Ok b -> ∃ a, m = Ok a ∧ f a = Ok b.
Proof. destruct m; simpl; try discriminate. eauto. Qed.

(** The loop rule: an invariant that every iteration re-establishes, each
    iteration having an outcome, holds when the loop is over, and the loop
    has an outcome. *)
Lemma for_loop_inv {T : Type} (P : Z -> T -> Prop) (body : Z -> T -> outcome T)
    (count : nat) (from : Z) (s : T) :
  P from s ->
  (∀ k t, from <= k < from + Z.of_nat count -> P k t ->
          ∃ t', body k t = Ok t' ∧ P (k + 1) t') ->
  ∃ s', for_loop from count body s = Ok s' ∧ P (from + Z.of_nat count) s'.
Proof.
  revert from s. induction count as [|n IH]; intros from s H0 Hstep.
  - exists s. split; [reflexivity|]. by replace (from + Z.of_nat 0) with from by lia.
  - destruct (Hstep from s ltac:(lia) H0) as (t & Hb & Ht).
    destruct (IH (from + 1) t Ht) as (s' & Hl & Hs').
    { intros k u Hk. apply Hstep. lia. }
    exists s'. split.
    + simpl. rewrite Hb. exact Hl.
    + by replace (from + Z.of_nat (S n)) with (from + 1 + Z.of_nat n) by lia.
Qed.

(** The same for what a loop that has an outcome preserves. *)
Lemma for_loop_preserves {T : Type} (P : T -> Prop) (body : Z -> T -> outcome T)
    (count : nat) (from : Z) (s s' : T) :
  (∀ k t t', P t -> body k t = Ok t' -> P t') ->
  P s -> for_loop from count body s = Ok s' -> P s'.
Proof.
  intros Hstep. revert from s. induction count as [|n IH]; intros from s H0; simpl.
  - by intros [= <-].
  - intros H. apply bind_Ok_inv in H as (t & Hb & Hl). eauto.
Qed.

(** ** CALL and RET *)

Lemma fetch_word (hi lo : Z) :
  byte lo -> Z.lor (Z.shiftl hi 8) lo = hi * 256 + lo.
Proof.
  intros Hlo. unfold byte in Hlo. rewrite Z.shiftl_mul_pow2 by lia.
  symmetry. apply Z.add_nocarry_lor. apply Z.bits_inj'. intros n Hn.
  rewrite Z.land_spec, Z.bits_0.
  destruct (Z.lt_ge_cases n 8) as [Hlt|Hge].
  - rewrite Z.mul_pow2_bits_low by lia. reflexivity.
  - rewrite <- (Z.mod_small lo (2 ^ 8)) by lia.
    rewrite Z.mod_pow2_bits_high by lia. apply andb_false_r.
Qed.

Lemma top_nibble (op : Z) : Z.shiftr (Z.land op 0xF000) (3 * 4) = (op / 4096) mod 16.
Proof.
  rewrite Z.shiftr_land. change (Z.shiftr 0xF000 (3 * 4)) with (Z.ones 4).
  rewrite Z.land_ones by lia. rewrite Z.shiftr_div_pow2 by lia. reflexivity.
Qed.

Lemma lookup_byte (a : list Z) (k : nat) (b : Z) :
  Forall byte a -> a !! k = Some b -> byte b.
Proof. intros Ha Hb. eapply Forall_lookup_1; eauto. Qed.

(** C6: when the instruction the cycle fetches is CALL nnn and the stack
    pointer is below 16, the cycle pushes the address after the instruction
    and jumps to nnn, and a RET executed next returns to the address after
    the CALL with the stack pointer as it was.  The state the cycle works on
    is the one the key handler hands back. *)
Theorem C6_call_then_ret {World : Type}
    (key_handle : World -> Chip8 -> World * Chip8) (rand : World -> World * Z)
    (fuel : nat) (w : World) (c : Chip8) (hi lo op' : Z) :
  let c1 := (key_handle w c).2 in
  wf c1 ->
  sp c1 < 16 ->
  ram c1 !! Z.to_nat (pc c1) = Some hi ->
  ram c1 !! Z.to_nat (pc c1 + 1) = Some lo ->
  Z.shiftr hi 4 = 2 ->
  ∃ c2 c3,
    chip8_cycle key_handle rand fuel w c = Ok ((key_handle w c).1, c2) ∧
    pc c2 = (hi * 256 + lo) mod 4096 ∧
    chip8_cpu_ret c2 op' = Ok c3 ∧
    pc c3 = pc c1 + 2 ∧
    sp c3 = sp c1.
Proof.
  intros c1 Hwf Hsp Hhi Hlo Hcall. subst c1.
  unfold chip8_cycle. destruct (key_handle w c) as [w1 c1]. simpl in *.
  destruct Hwf as [Hram Hrb _ _ Hstk _ _ _ _ _ _ Hspb Hpc _].
  unfold byte, word in *.
  apply lookup_lt_Some in Hlo as Hlt.
  pose proof (lookup_byte _ _ _ Hrb Hhi) as Hhb.
  pose proof (lookup_byte _ _ _ Hrb Hlo) as Hlb. unfold byte in *.
  rewrite (load_Some (ram c1) (pc c1) hi) by (done || lia).
  rewrite (load_Some (ram c1) (pc c1 + 1) lo) by (done || lia). simpl.
  rewrite fetch_word by done.
  rewrite Z.shiftr_div_pow2 in Hcall by lia. change (2 ^ 4) with 16 in Hcall.
  assert (Hop: u16 (hi * 256 + lo) = hi * 256 + lo).
  { unfold u16. apply Z.mod_small. lia. }
  rewrite Hop. rewrite top_nibble.
  assert (Htop: ((hi * 256 + lo) / 4096) mod 16 = 2).
  { Z.div_mod_to_equations. lia. }
  rewrite Htop. unfold call_entry. simpl.
  unfold partial, chip8_cpu_call. simpl.
  assert (Hpc2: u16 (pc c1 + 2) = pc c1 + 2).
  { unfold u16. apply Z.mod_small. lia. }
  rewrite store_Ok by (rewrite Hstk; lia). simpl.
  eexists _, _. split; [reflexivity|]. simpl.
  split; [apply NNN_eq|].
  unfold chip8_cpu_ret. simpl.
  assert (Hsp1: u8 (u8 (sp c1 + 1) - 1) = sp c1).
  { unfold u8. rewrite (Z.mod_small (sp c1 + 1)) by lia.
    replace (sp c1 + 1 - 1) with (sp c1) by lia. apply Z.mod_small. lia. }
  rewrite Hsp1.
  rewrite (load_Some _ _ (pc c1 + 2)).
  - simpl. split; [reflexivity|]. simpl. done.
  - lia.
  - rewrite !Hpc2.
    apply list_lookup_insert_eq. lia.
Qed.

Lemma forallb_range (lo hi : Z) (l : list Z) :
  forallb (fun b => bool_decide (lo <= b < hi)) l = true ->
  Forall (fun b => lo <= b < hi) l.
Proof.
  induction l as [|b l IH]; simpl; [constructor|].
  rewrite andb_true_iff, bool_decide_eq_true. intros [Hb Hl]. constructor; auto.
Qed.

Lemma wf_check_wf (c : Chip8) : wf_check c = true -> wf c.
Proof.
  unfold wf_check. intros H.
  repeat match type of H with
         | _ && _ = true => let H' := fresh "H" in apply andb_prop in H as [H H']
         end.
  repeat match goal with
         | H : bool_decide _ = true |- _ => apply bool_decide_eq_true_1 in H
         | H : forallb _ _ = true |- _ => apply forallb_range in H
         end.
  split; assumption.
Qed.

Lemma C6_call_then_ret_witness :
  let c := (chip8_load_rom chip8_create (Some [0x23; 0x45])).1 in
  let c1 := (Host.key_handle Host.idle c).2 in
  (wf c1 ∧ sp c1 < 16 ∧
   ram c1 !! Z.to_nat (pc c1) = Some 0x23 ∧
   ram c1 !! Z.to_nat (pc c1 + 1) = Some 0x45 ∧
   Z.shiftr 0x23 4 = 2) ∧
  ∃ c2 c3,
    chip8_cycle Host.key_handle Host.rand 0 Host.idle c
      = Ok ((Host.key_handle Host.idle c).1, c2) ∧
    pc c2 = (0x23 * 256 + 0x45) mod 4096 ∧
    chip8_cpu_ret c2 0x00EE = Ok c3 ∧
    pc c3 = pc c1 + 2 ∧
    sp c3 = sp c1.
Proof.
  cbv zeta.
  assert (H1: wf (Host.key_handle Host.idle
                    (chip8_load_rom chip8_create (Some [0x23; 0x45])).1).2).
  { apply wf_check_wf. vm_compute. reflexivity. }
  split.
  - split; [exact H1 | repeat split; reflexivity].
  - apply (C6_call_then_ret Host.key_handle Host.rand 0 Host.idle
             (chip8_load_rom chip8_create (Some [0x23; 0x45])).1 0x23 0x45 0x00EE);
      [exact H1 | reflexivity ..].
Defined.

(** ** Bulk store and load *)

Lemma set_v_same (c : Chip8) (k : Z) : set_v c k (V c k) = c.
Proof.
  unfold set_v, V. rewrite list_insert_id'.
  - by destruct c.
  - intros Hk. by apply list_lookup_lookup_total_lt.
Qed.

(** The store loop writes V0..Vx at [I], [I+1], ... and nothing else changes. *)
Lemma ldir_loop (c : Chip8) (n : nat) :
  0 <= i c -> i c + Z.of_nat n <= Z.of_nat (length (ram c)) ->
  ∃ c1,
    for_loop 0 n
      (fun k c => a ← store (ram c) (i c + k) (V c k); Ok (with_ram c a)) c = Ok c1 ∧
    v c1 = v c ∧ i c1 = i c ∧ length (ram c1) = length (ram c) ∧
    ∀ j, 0 <= j < Z.of_nat n -> ram c1 !! Z.to_nat (i c + j) = Some (V c j).
Proof.
  intros Hi Hlen.
  destruct (for_loop_inv
    (fun k s => v s = v c ∧ i s = i c ∧ length (ram s) = length (ram c) ∧
                ∀ j, 0 <= j < k -> ram s !! Z.to_nat (i c + j) = Some (V c j))
    (fun k c => a ← store (ram c) (i c + k) (V c k); Ok (with_ram c a))
    n 0 c) as (c1 & Hrun & Hv & Hi1 & Hl1 & Hmem).
  - repeat split. intros j Hj. lia.
  - intros k t Hk (Hv & Hit & Hlt & Hmem).
    rewrite store_Ok by (rewrite Hit, Hlt; lia). simpl.
    eexists. split; [reflexivity|]. simpl. repeat split; try assumption.
    + rewrite length_insert. exact Hlt.
    + intros j Hj. destruct (decide (j = k)) as [->|Hne].
      * rewrite Hit, list_lookup_insert_eq by lia. unfold V. by rewrite Hv.
      * rewrite Hit, list_lookup_insert_ne by lia. apply Hmem. lia.
  - exists c1. repeat split; assumption.
Qed.

(** The load loop leaves alone a state whose memory at [I], [I+1], ... already
    holds the registers. *)
Lemma ldri_loop_id (c : Chip8) (n : nat) :
  0 <= i c ->
  (∀ j, 0 <= j < Z.of_nat n -> ram c !! Z.to_nat (i c + j) = Some (V c j)) ->
  for_loop 0 n (fun k c => b ← load (ram c) (i c + k); Ok (set_v c k b)) c = Ok c.
Proof.
  intros Hi Hmem.
  destruct (for_loop_inv (fun _ s => s = c)
    (fun k c => b ← load (ram c) (i c + k); Ok (set_v c k b)) n 0 c)
    as (c1 & Hrun & ->); [reflexivity | | exact Hrun].
  intros k t Hk ->. exists c. split; [|reflexivity].
  rewrite (load_Some (ram c) (i c + k) (V c k)) by (try apply Hmem; lia).
  simpl. by rewrite set_v_same.
Qed.

(** C3, as the code has it: the store advances I by x+1, so the load that
    follows reads the bytes after those just stored; once I is set back to
    its value of before the store (LD I,nnn), the load restores the
    registers, V0..Vx among them. *)
Theorem C3_store_load_round_trip (c : Chip8) (op : Opcode) :
  wf c -> i c + X op < 4096 ->
  ∃ c2, ldir_ldi_ldri c op = Ok c2 ∧
        v c2 = v c ∧
        ∀ k, 0 <= k <= X op -> V c2 k = V c k.
Proof.
  intros Hwf Hin. pose proof (X_range op) as Hx.
  destruct Hwf as [Hram _ _ _ _ _ _ _ Hi _ _ _ _ _]. unfold word in Hi.
  unfold ldir_ldi_ldri, chip8_cpu_ldir.
  destruct (ldir_loop c (Z.to_nat (X op + 1))) as (c1 & Hrun & Hv & Hi1 & Hl & Hmem);
    [lia | rewrite Hram; lia |].
  rewrite Hrun. simpl. unfold chip8_cpu_ldri.
  set (d := chip8_cpu_ldi _ _).
  assert (Hid: i d = i c).
  { subst d. simpl. rewrite NNN_eq. Z.div_mod_to_equations. lia. }
  rewrite ldri_loop_id.
  - simpl. eexists. split; [reflexivity|]. subst d. simpl.
    split; [exact Hv|]. intros k _. unfold V. simpl. by rewrite Hv.
  - lia.
  - intros j Hj. rewrite Hid. unfold V. subst d. simpl. rewrite Hv. apply Hmem. exact Hj.
Qed.

Lemma C3_store_load_round_trip_witness :
  let c := with_i (with_regs [7; 8; 9; 0; 0; 0; 0; 0; 0; 0; 0; 0; 0; 0; 0; 0]) 0x300 in
  (wf c ∧ i c + X 0xF255 < 4096) ∧
  ∃ c2, ldir_ldi_ldri c 0xF255 = Ok c2 ∧
        v c2 = v c ∧
        ∀ k, 0 <= k <= X 0xF255 -> V c2 k = V c k.
Proof.
  cbv zeta.
  assert (H1: wf (with_i (with_regs [7; 8; 9; 0; 0; 0; 0; 0; 0; 0; 0; 0; 0; 0; 0; 0]) 0x300)).
  { apply wf_check_wf. vm_compute. reflexivity. }
  split.
  - split; [exact H1 | reflexivity].
  - apply (C3_store_load_round_trip
             (with_i (with_regs [7; 8; 9; 0; 0; 0; 0; 0; 0; 0; 0; 0; 0; 0; 0; 0]) 0x300)
             0xF255); [exact H1 | reflexivity].
Defined.

(** C3 as stated fails: with I = 0x300, V0 = 7 and zeros in memory from
    0x300 on, LD [I],V0 followed at once by LD V0,[I] leaves 0 in V0. *)
Lemma C3_round_trip_fails_back_to_back :
  let c := with_i (with_regs [7; 0; 0; 0; 0; 0; 0; 0; 0; 0; 0; 0; 0; 0; 0; 0]) 0x300 in
  V c 0 = 7 ∧
  (c2 ← ldir_then_ldri c 0xF055; Ok (V c2 0, i c2)) = Ok (0, 0x302).
Proof. cbv zeta. split; vm_compute; reflexivity. Qed.

(** ** The key wait *)

Lemma scan_keys_Some (ks : list Z) (count : nat) (from k : Z) :
  0 <= from ->
  scan_keys ks from count = Ok (Some k) ↔
  from <= k < from + Z.of_nat count ∧ pressed ks k ∧
  ∀ j, from <= j < k -> released ks j.
Proof.
  revert from. induction count as [|n IH]; intros from Hfrom; simpl.
  - split; [discriminate | lia].
  - unfold load. rewrite decide_True by done.
    destruct (ks !! Z.to_nat from) as [b|] eqn:Hb; simpl.
    + destruct (decide (b ≠ 0)) as [Hne|Heq].
      * split.
        -- intros [= <-]. split; [lia|]. split; [by exists b | intros j Hj; lia].
        -- intros (Hr & _ & Hrel). destruct (decide (k = from)) as [->|Hk]; [done|].
           specialize (Hrel from ltac:(lia)). unfold released in Hrel. congruence.
      * assert (b = 0) as -> by (destruct (decide (b = 0)); [done | contradiction]).
        rewrite IH by lia. split.
        -- intros (Hr & Hp & Hrel). split; [lia|]. split; [done|].
           intros j Hj. destruct (decide (j = from)) as [->|Hne]; [done|]. apply Hrel. lia.
        -- intros (Hr & Hp & Hrel).
           assert (k ≠ from).
           { intros ->. destruct Hp as (b & Hb' & Hnz). congruence. }
           split; [lia|]. split; [done|]. intros j Hj. apply Hrel. lia.
    + split; [discriminate|]. intros (Hr & Hp & Hrel).
      destruct (decide (k = from)) as [->|Hk].
      * destruct Hp as (b & Hb' & _). congruence.
      * specialize (Hrel from ltac:(lia)). unfold released in Hrel. congruence.
Qed.

Lemma scan_keys_None (ks : list Z) (count : nat) (from : Z) :
  0 <= from ->
  scan_keys ks from count = Ok None ↔
  ∀ j, from <= j < from + Z.of_nat count -> released ks j.
Proof.
  revert from. induction count as [|n IH]; intros from Hfrom; simpl.
  - split; [intros _ j Hj; lia | done].
  - unfold load. rewrite decide_True by done.
    destruct (ks !! Z.to_nat from) as [b|] eqn:Hb; simpl.
    + destruct (decide (b ≠ 0)) as [Hne|Heq].
      * split; [discriminate|]. intros Hrel.
        specialize (Hrel from ltac:(lia)). unfold released in Hrel. congruence.
      * assert (b = 0) as -> by (destruct (decide (b = 0)); [done | contradiction]).
        rewrite IH by lia. split.
        -- intros Hrel j Hj. destruct (decide (j = from)) as [->|Hne]; [done|].
           apply Hrel. lia.
        -- intros Hrel j Hj. apply Hrel. lia.
    + split; [discriminate|]. intros Hrel.
      specialize (Hrel from ltac:(lia)). unfold released in Hrel. congruence.
Qed.

Section KeyWait.

Context {World : Type}.
Variable key_handle : World -> Chip8 -> World * Chip8.

Lemma ldk_step (fuel : nat) (w : World) (c : Chip8) (op : Opcode) :
  chip8_cpu_ldk key_handle (S fuel) w c op =
  (r ← scan_keys (keys (key_handle w c).2) 0 (Z.to_nat KEYPAD_SIZE);
   match r with
   | Some k => Ok ((key_handle w c).1, set_v (key_handle w c).2 (X op) k)
   | None => chip8_cpu_ldk key_handle fuel (key_handle w c).1 (key_handle w c).2 op
   end).
Proof. cbn [chip8_cpu_ldk]. by destruct (key_handle w c). Qed.

Lemma ldk_sound (fuel : nat) (w w' : World) (c c' : Chip8) (op : Opcode) :
  chip8_cpu_ldk key_handle fuel w c op = Ok (w', c') ->
  ∃ n k, (n < fuel)%nat ∧ first_press key_handle n w c k ∧
         w' = (polls key_handle n w c).1 ∧
         c' = set_v (polls key_handle n w c).2 (X op) k.
Proof.
  revert w c. induction fuel as [|f IH]; intros w c; [discriminate|].
  rewrite ldk_step.
  destruct (key_handle w c) as [w1 c1] eqn:Hkh. cbn [fst snd].
  destruct (scan_keys (keys c1) 0 (Z.to_nat KEYPAD_SIZE)) as [[k|]| | |] eqn:Hscan;
    simpl; try discriminate.
  - intros Heq. injection Heq as Hw Hc. subst w' c'. exists O, k. simpl. rewrite Hkh. simpl.
    apply scan_keys_Some in Hscan as (Hr & Hp & Hrel); [|lia].
    split; [lia|]. split; [|done]. split; [intros m Hm; lia|]. simpl. rewrite Hkh.
    split; [exact Hr|]. split; [exact Hp|]. intros j Hj. apply Hrel. lia.
  - intros H. apply IH in H as (n & k & Hn & [Hnone Hleast] & -> & ->).
    exists (S n), k. simpl. rewrite Hkh.
    split; [lia|]. split; [|done].
    split; [|simpl; rewrite Hkh; exact Hleast].
    intros [|m] Hm; simpl; rewrite Hkh; simpl.
    + pose proof (proj1 (scan_keys_None _ _ 0 ltac:(lia)) Hscan) as Hs.
      intros j Hj. apply Hs. exact Hj.
    + apply Hnone. lia.
Qed.

Lemma ldk_complete (fuel n : nat) (w : World) (c : Chip8) (op : Opcode) (k : Z) :
  (n < fuel)%nat -> first_press key_handle n w c k ->
  chip8_cpu_ldk key_handle fuel w c op
    = Ok ((polls key_handle n w c).1, set_v (polls key_handle n w c).2 (X op) k).
Proof.
  revert n w c. induction fuel as [|f IH]; intros n w c Hn [Hnone Hleast]; [lia|].
  rewrite ldk_step. destruct n as [|n].
  - cbn [polls] in *. destruct (key_handle w c) as [w1 c1] eqn:Hkh. cbn [fst snd] in *.
    destruct Hleast as (Hr & Hp & Hrel).
    assert (Hscan: scan_keys (keys c1) 0 (Z.to_nat KEYPAD_SIZE) = Ok (Some k)).
    { apply scan_keys_Some; [lia|]. split; [exact Hr|]. split; [exact Hp|].
      intros j Hj. apply Hrel. lia. }
    rewrite Hscan. reflexivity.
  - pose proof (Hnone O ltac:(lia)) as H0.
    cbn [polls] in *. destruct (key_handle w c) as [w1 c1] eqn:Hkh. cbn [fst snd] in *.
    assert (Hscan: scan_keys (keys c1) 0 (Z.to_nat KEYPAD_SIZE) = Ok None).
    { apply scan_keys_None; [lia|]. intros j Hj. apply H0. exact Hj. }
    rewrite Hscan. simpl. apply IH; [lia|]. split; [|exact Hleast].
    intros m Hm. specialize (Hnone (S m) ltac:(lia)). cbn [polls] in Hnone.
    rewrite Hkh in Hnone. exact Hnone.
Qed.

(** C10: the key wait completes exactly when some poll reports a pressed
    key within the polls allowed; the machine it leaves is the one the key
    handler handed back at that poll, the first to report a pressed key,
    with Vx set to the smallest index pressed there and nothing else
    changed. *)
Theorem C10_key_wait (fuel : nat) (w w' : World) (c c' : Chip8) (op : Opcode) :
  chip8_cpu_ldk key_handle fuel w c op = Ok (w', c') ↔
  ∃ n k, (n < fuel)%nat ∧ first_press key_handle n w c k ∧
         w' = (polls key_handle n w c).1 ∧
         c' = set_v (polls key_handle n w c).2 (X op) k ∧
         (length (v (polls key_handle n w c).2) = 16%nat -> V c' (X op) = k) ∧
         (∀ j, 0 <= j -> j ≠ X op -> V c' j = V (polls key_handle n w c).2 j) ∧
         ram c' = ram (polls key_handle n w c).2 ∧
         screen c' = screen (polls key_handle n w c).2 ∧
         stack c' = stack (polls key_handle n w c).2 ∧
         i c' = i (polls key_handle n w c).2 ∧
         dt c' = dt (polls key_handle n w c).2 ∧
         st c' = st (polls key_handle n w c).2 ∧
         sp c' = sp (polls key_handle n w c).2 ∧
         pc c' = pc (polls key_handle n w c).2 ∧
         keys c' = keys (polls key_handle n w c).2.
Proof.
  pose proof (X_range op) as Hx. split.
  - intros H. apply ldk_sound in H as (n & k & Hn & Hfp & -> & ->).
    exists n, k. split; [exact Hn|]. split; [exact Hfp|].
    split; [reflexivity|]. split; [reflexivity|].
    split; [intros Hlen; apply V_set_v_eq; rewrite Hlen; lia|].
    split; [intros j Hj Hne; apply V_set_v_ne; lia || congruence|].
    repeat split.
  - intros (n & k & Hn & Hfp & -> & -> & _).
    by apply ldk_complete.
Qed.

End KeyWait.

(** A run of the key wait with the handler of main.c: the first batch of
    events presses no key of the pad, the second presses w (key 5) and then
    1 (key 1); LD V3,K returns at the second poll with 1 in V3. *)
Lemma ldk_with_host_handler :
  let w := Host.mkWorld
             [ [Host.SDL_OTHER; Host.SDL_KEYDOWN 33];
               [Host.SDL_KEYDOWN 119; Host.SDL_KEYDOWN 49] ] true [] in
  (r ← chip8_cpu_ldk Host.key_handle 5 w chip8_create 0xF30A;
   Ok (V r.2 3, keys r.2)) = Ok (1, [0; 1; 0; 0; 0; 1; 0; 0; 0; 0; 0; 0; 0; 0; 0; 0]) ∧
  chip8_cpu_ldk Host.key_handle 1 w chip8_create 0xF30A = Blocked.
Proof. cbv zeta. split; vm_compute; reflexivity. Qed.

(** ** The display holds only 0 and 1 *)

Lemma boolean_cells_zero : boolean_cells (replicate (Z.to_nat SCREEN_SIZE) 0).
Proof. split; [reflexivity|]. apply Forall_replicate. by left. Qed.

Lemma screen_ok_same (c c' : Chip8) : screen c' = screen c -> screen_ok c -> screen_ok c'.
Proof. unfold screen_ok. by intros ->. Qed.

Lemma lxor_boolean (b : Z) : b = 0 ∨ b = 1 -> u8 (Z.lxor b 0x1) = 0 ∨ u8 (Z.lxor b 0x1) = 1.
Proof. intros [->| ->]; [right | left]; reflexivity. Qed.

Lemma drw_pixel_screen_ok (op : Opcode) (row col : Z) (c c' : Chip8) :
  screen_ok c -> drw_pixel op row col c = Ok c' -> screen_ok c'.
Proof.
  intros Hok. unfold drw_pixel. intros H.
  apply bind_Ok_inv in H as (px & _ & H).
  set (d := if decide (px ≠ 0) then set_v c 0xF 0x1 else c) in H.
  assert (Hd: screen d = screen c) by (subst d; by destruct (decide (px ≠ 0))).
  clearbody d.
  apply bind_Ok_inv in H as (px' & Hpx & H).
  apply bind_Ok_inv in H as (a & Ha & H). injection H as <-.
  apply load_Ok_inv in Hpx as [_ Hpx]. apply store_Ok_inv in Ha as [_ ->].
  unfold screen_ok in *. simpl. rewrite Hd in *. destruct Hok as [Hlen Hall].
  split; [by rewrite length_insert|].
  apply Forall_insert; [exact Hall|]. apply lxor_boolean.
  eapply Forall_lookup_1 in Hall; [|exact Hpx]. exact Hall.
Qed.

Lemma drw_row_screen_ok (op : Opcode) (row : Z) (c c' : Chip8) :
  screen_ok c -> drw_row op row c = Ok c' -> screen_ok c'.
Proof.
  intros Hok. unfold drw_row. intros H. apply bind_Ok_inv in H as (b & _ & H).
  eapply (for_loop_preserves screen_ok); [|exact Hok|exact H].
  intros col t t' Ht. simpl.
  destruct (decide (Z.land b (Z.shiftr 0x80 col) ≠ 0)).
  - by apply drw_pixel_screen_ok.
  - by intros [= <-].
Qed.

Lemma drw_screen_ok (c c' : Chip8) (op : Opcode) :
  screen_ok c -> chip8_cpu_drw c op = Ok c' -> screen_ok c'.
Proof.
  intros Hok. unfold chip8_cpu_drw.
  apply (for_loop_preserves screen_ok); [|exact Hok].
  intros row t t' Ht. by apply drw_row_screen_ok.
Qed.

Lemma ldir_screen (c c' : Chip8) (op : Opcode) :
  chip8_cpu_ldir c op = Ok c' -> screen c' = screen c.
Proof.
  unfold chip8_cpu_ldir. intros H. apply bind_Ok_inv in H as (c1 & Hloop & H).
  injection H as <-. simpl.
  eapply (for_loop_preserves (fun s => screen s = screen c)); [|reflexivity|exact Hloop].
  intros k t t' Ht Hb. simpl in Hb. apply bind_Ok_inv in Hb as (a & _ & Hb).
  injection Hb as <-. exact Ht.
Qed.

Lemma ldri_screen (c c' : Chip8) (op : Opcode) :
  chip8_cpu_ldri c op = Ok c' -> screen c' = screen c.
Proof.
  unfold chip8_cpu_ldri. intros H. apply bind_Ok_inv in H as (c1 & Hloop & H).
  injection H as <-. simpl.
  eapply (for_loop_preserves (fun s => screen s = screen c)); [|reflexivity|exact Hloop].
  intros k t t' Ht Hb. simpl in Hb. apply bind_Ok_inv in Hb as (a & _ & Hb).
  injection Hb as <-. exact Ht.
Qed.

Lemma call_screen (c c' : Chip8) (op : Opcode) :
  chip8_cpu_call c op = Ok c' -> screen c' = screen c.
Proof.
  unfold chip8_cpu_call. intros H. apply bind_Ok_inv in H as (a & _ & H).
  by injection H as <-.
Qed.

Lemma ret_screen (c c' : Chip8) (op : Opcode) :
  chip8_cpu_ret c op = Ok c' -> screen c' = screen c.
Proof.
  unfold chip8_cpu_ret. intros H. apply bind_Ok_inv in H as (a & _ & H).
  by injection H as <-.
Qed.

Lemma skp_screen (c c' : Chip8) (op : Opcode) :
  chip8_cpu_skp c op = Ok c' -> screen c' = screen c.
Proof.
  unfold chip8_cpu_skp. intros H. apply bind_Ok_inv in H as (a & _ & H).
  injection H as <-. by destruct (decide (a ≠ 0)).
Qed.

Lemma sknp_screen (c c' : Chip8) (op : Opcode) :
  chip8_cpu_sknp c op = Ok c' -> screen c' = screen c.
Proof.
  unfold chip8_cpu_sknp. intros H. apply bind_Ok_inv in H as (a & _ & H).
  injection H as <-. by destruct (decide (a = 0)).
Qed.

Lemma bcd_screen (c c' : Chip8) (op : Opcode) :
  chip8_cpu_bcd c op = Ok c' -> screen c' = screen c.
Proof.
  unfold chip8_cpu_bcd. intros H.
  apply bind_Ok_inv in H as (a1 & _ & H).
  apply bind_Ok_inv in H as (a2 & _ & H).
  apply bind_Ok_inv in H as (a3 & _ & H).
  by injection H as <-.
Qed.

Lemma tick_screen (c : Chip8) : screen (chip8_tick c) = screen c.
Proof.
  unfold chip8_tick.
  destruct (decide (dt c ≠ 0)); simpl;
    match goal with |- context [decide (?P)] => destruct (decide P) end; reflexivity.
Qed.

Lemma load_rom_screen (c : Chip8) (file : option (list Z)) :
  screen (chip8_load_rom c file).1 = screen c.
Proof. by destruct file. Qed.

Lemma create_screen_ok : screen_ok chip8_create.
Proof. exact boolean_cells_zero. Qed.

Lemma reset_screen_ok (c : Chip8) : screen_ok (chip8_reset c).
Proof. exact boolean_cells_zero. Qed.

Lemma keeps_screen_total {World : Type} (f : Chip8 -> Opcode -> Chip8) :
  (∀ c op, screen (f c op) = screen c) -> keeps_screen (World := World) (total f).
Proof.
  intros Hf fuel w c op w' c' Hok H. unfold total in H. injection H as _ <-.
  eapply screen_ok_same; [apply Hf | exact Hok].
Qed.

Lemma keeps_screen_partial {World : Type} (f : Chip8 -> Opcode -> outcome Chip8) :
  (∀ c op c', screen_ok c -> f c op = Ok c' -> screen_ok c') ->
  keeps_screen (World := World) (partial f).
Proof.
  intros Hf fuel w c op w' c' Hok H. unfold partial in H.
  apply bind_Ok_inv in H as (c1 & Hc1 & H). injection H as _ <-. eauto.
Qed.

Lemma keeps_screen_bdi {World : Type} : keeps_screen (World := World) chip8_cpu_bdi.
Proof. intros fuel w c op w' c' _ H. discriminate. Qed.

Lemma keeps_screen_entry {World : Type} (table : list (Opimpl (World := World))) (k : Z) :
  Forall keeps_screen table -> keeps_screen (call_entry table k).
Proof.
  intros Hall fuel w c op w' c' Hok. unfold call_entry.
  destruct (decide (0 <= k)); [|discriminate].
  destruct (table !! Z.to_nat k) as [f|] eqn:Hf; [|discriminate].
  eapply Forall_lookup_1 in Hall; [|exact Hf]. by apply Hall.
Qed.

Lemma keeps_screen_partial_same {World : Type} (f : Chip8 -> Opcode -> outcome Chip8) :
  (∀ c c' op, f c op = Ok c' -> screen c' = screen c) ->
  keeps_screen (World := World) (partial f).
Proof.
  intros Hf. apply keeps_screen_partial. intros c op c' Hok H.
  eapply screen_ok_same; [eapply Hf; exact H | exact Hok].
Qed.

Lemma keeps_screen_arith_table {World : Type} :
  Forall keeps_screen (chip8_op_arith (World := World)).
Proof.
  unfold chip8_op_arith.
  repeat (apply Forall_cons; split;
          [first [ apply keeps_screen_bdi
                 | apply keeps_screen_total; intros; reflexivity ] |]).
  apply Forall_nil_2.
Qed.

Lemma keeps_screen_arith {World : Type} : keeps_screen (World := World) chip8_cpu_arith.
Proof.
  intros fuel w c op w' c' Hok H. unfold chip8_cpu_arith in H.
  eapply (keeps_screen_entry _ _ keeps_screen_arith_table); eassumption.
Qed.

Section DisplayInvariant.

Context {World : Type}.
Variable key_handle : World -> Chip8 -> World * Chip8.
Variable rand : World -> World * Z.
(** The key handler is the host's; what it does to the display is its own
    affair, and the invariant is the interpreter's only if the handler
    keeps it. *)
Hypothesis key_handle_screen : ∀ w c, screen_ok c -> screen_ok (key_handle w c).2.

Lemma keeps_screen_ldk : keeps_screen (chip8_cpu_ldk key_handle).
Proof.
  intros fuel. induction fuel as [|f IH]; intros w c op w' c' Hok; [discriminate|].
  rewrite ldk_step. pose proof (key_handle_screen w c Hok) as Hok1.
  destruct (scan_keys _ _ _) as [[k|]| | |]; simpl; try discriminate.
  - intros H. injection H as _ <-. exact Hok1.
  - by apply IH.
Qed.

Lemma keeps_screen_rnd : keeps_screen (chip8_cpu_rnd rand).
Proof.
  intros fuel w c op w' c' Hok. unfold chip8_cpu_rnd.
  destruct (rand w) as [w1 r]. intros H. injection H as _ <-. exact Hok.
Qed.

Lemma keeps_screen_func : keeps_screen (World := World) chip8_cpu_func.
Proof.
  intros fuel w c op w' c' Hok. unfold chip8_cpu_func.
  destruct (decide (KK op = 0xE0)); [|destruct (decide (KK op = 0xEE))].
  - intros H. injection H as _ <-. exact boolean_cells_zero.
  - intros H. eapply (keeps_screen_partial_same _ ret_screen); eassumption.
  - discriminate.
Qed.

Lemma keeps_screen_key : keeps_screen (World := World) chip8_cpu_key.
Proof.
  intros fuel w c op w' c' Hok. unfold chip8_cpu_key.
  destruct (decide (KK op = 0x9E)); [|destruct (decide (KK op = 0xA1))].
  - intros H. eapply (keeps_screen_partial_same _ skp_screen); eassumption.
  - intros H. eapply (keeps_screen_partial_same _ sknp_screen); eassumption.
  - discriminate.
Qed.

Lemma keeps_screen_vx : keeps_screen (chip8_cpu_vx key_handle).
Proof.
  intros fuel w c op w' c' Hok. unfold chip8_cpu_vx.
  repeat match goal with
         | |- (if decide ?P then _ else _) = _ -> _ => destruct (decide P)
         end;
    try discriminate; intros H;
    first [ eapply keeps_screen_ldk; eassumption
          | eapply (keeps_screen_partial_same _ bcd_screen); eassumption
          | eapply (keeps_screen_partial_same _ ldir_screen); eassumption
          | eapply (keeps_screen_partial_same _ ldri_screen); eassumption
          | eapply keeps_screen_total; [|exact Hok|exact H]; intros; reflexivity ].
Qed.

Lemma keeps_screen_table : Forall keeps_screen (chip8_op_all key_handle rand).
Proof.
  unfold chip8_op_all.
  repeat (apply Forall_cons; split;
          [first [ apply keeps_screen_func
                 | apply keeps_screen_key
                 | apply keeps_screen_vx
                 | apply keeps_screen_rnd
                 | apply keeps_screen_arith
                 | apply keeps_screen_total; intros; reflexivity
                 | apply (keeps_screen_partial_same _ call_screen)
                 | apply keeps_screen_partial; intros c op c' Hok H;
                   eapply drw_screen_ok; eassumption ] |]).
  apply Forall_nil_2.
Qed.

Lemma cycle_screen_ok (fuel : nat) (w w' : World) (c c' : Chip8) :
  screen_ok c -> chip8_cycle key_handle rand fuel w c = Ok (w', c') -> screen_ok c'.
Proof.
  intros Hok. unfold chip8_cycle.
  pose proof (key_handle_screen w c Hok) as Hok1.
  destruct (key_handle w c) as [w1 c1]. simpl in Hok1. intros H.
  apply bind_Ok_inv in H as (hi & _ & H). apply bind_Ok_inv in H as (lo & _ & H).
  eapply (keeps_screen_entry _ _ keeps_screen_table); [|exact H]. exact Hok1.
Qed.

Lemma machine_step_screen_ok (s s' : World * Chip8) :
  machine_step key_handle rand s s' -> screen_ok s.2 -> screen_ok s'.2.
Proof.
  intros Hstep. destruct Hstep as [w c file|w c|w c|fuel w c [w' c'] H|k fuel w c op [w' c'] H];
    simpl; intros Hok.
  - eapply screen_ok_same; [apply load_rom_screen | exact Hok].
  - eapply screen_ok_same; [apply tick_screen | exact Hok].
  - apply reset_screen_ok.
  - eapply cycle_screen_ok; eassumption.
  - eapply (keeps_screen_entry _ _ keeps_screen_table); eassumption.
Qed.

(** C9, restricted to the operations that stay inside their arrays: every
    cell of the display is 0 or 1 in every machine the host can get to from
    creation, whichever of the machine's operations it runs (ROM load,
    tick, reset, cycle, any instruction), as long as each operation has an
    outcome, that is, it reads and writes no array outside its bounds, does
    not abort on a bad opcode and returns from its key wait, and the key
    handler keeps the cells so.  The code checks no index, and a store past
    the end of the memory is not covered: it can reach the display. *)
Theorem C9_display_cells_boolean (w0 : World) (s : World * Chip8) :
  reachable key_handle rand w0 s ->
  length (screen s.2) = 2048%nat ∧
  ∀ k b, screen s.2 !! k = Some b -> b = 0 ∨ b = 1.
Proof.
  intros Hrun.
  assert (Hok: screen_ok s.2).
  { unfold reachable in Hrun.
    remember (w0, chip8_create) as s0 eqn:Hs0.
    assert (H0: screen_ok s0.2) by (subst s0; exact create_screen_ok).
    clear Hs0. induction Hrun as [|s1 s2 s3 Hstep _ IH]; [exact H0|].
    apply IH. eapply machine_step_screen_ok; eassumption. }
  destruct Hok as [Hlen Hall]. split; [exact Hlen|].
  intros k b Hb. eapply Forall_lookup_1 in Hall; [|exact Hb]. exact Hall.
Qed.

End DisplayInvariant.

(** The key handler of main.c only resets the machine and writes [keys]. *)
Lemma host_event_screen_ok (e : Host.SDL_Event) (r : bool) (c : Chip8) :
  screen_ok c -> screen_ok (Host.handle_event (r, c) e).2.
Proof.
  intros Hok. unfold Host.handle_event. destruct e as [|sym|sym|]; cbn [snd].
  - exact Hok.
  - apply (screen_ok_same (if decide (sym = Host.SDLK_y) then chip8_reset c else c));
      [reflexivity|].
    destruct (decide (sym = Host.SDLK_y)); [apply reset_screen_ok | exact Hok].
  - apply (screen_ok_same c); [reflexivity | exact Hok].
  - exact Hok.
Qed.

Lemma host_events_screen_ok (batch : list Host.SDL_Event) (r : bool) (c : Chip8) :
  screen_ok c -> screen_ok (foldl Host.handle_event (r, c) batch).2.
Proof.
  revert r c. induction batch as [|e batch IH]; intros r c Hok; [exact Hok|].
  cbn [foldl]. pose proof (host_event_screen_ok e r c Hok) as H.
  destruct (Host.handle_event (r, c) e) as [r1 c1]. by apply IH.
Qed.

Lemma host_key_handle_screen (w : Host.World) (c : Chip8) :
  screen_ok c -> screen_ok (Host.key_handle w c).2.
Proof.
  intros Hok. unfold Host.key_handle. destruct (Host.pending w) as [|batch rest]; [exact Hok|].
  pose proof (host_events_screen_ok batch (Host.running w) c Hok) as H.
  by destruct (foldl Host.handle_event (Host.running w, c) batch).
Qed.

Lemma glyph_drawn_reachable :
  reachable Host.key_handle Host.rand Host.idle glyph_drawn.
Proof.
  unfold reachable.
  eapply rtc_l; [apply (step_load_rom _ _ _ _ (Some [0xD0; 0x05]))|].
  eapply rtc_l; [|apply rtc_refl].
  apply (step_cycle _ _ O). vm_compute. reflexivity.
Qed.

(** The glyph's top row is lit, the cell after it is not. *)
Lemma glyph_drawn_pixels :
  take 8 (screen glyph_drawn.2) = [1; 1; 1; 1; 0; 0; 0; 0] ∧ V glyph_drawn.2 0xF = 0.
Proof. split; vm_compute; reflexivity. Qed.

Lemma C9_display_cells_boolean_witness :
  ((∀ w c, screen_ok c -> screen_ok (Host.key_handle w c).2) ∧
   reachable Host.key_handle Host.rand Host.idle glyph_drawn) ∧
  length (screen glyph_drawn.2) = 2048%nat ∧
  ∀ k b, screen glyph_drawn.2 !! k = Some b -> b = 0 ∨ b = 1.
Proof.
  split.
  - split; [exact host_key_handle_screen | exact glyph_drawn_reachable].
  - apply (C9_display_cells_boolean Host.key_handle Host.rand host_key_handle_screen
             Host.idle glyph_drawn glyph_drawn_reachable).
Defined.

(** Where [chip8_cpu_bcd] stays inside the memory, placing its stores in
    the struct changes nothing. *)
Lemma store_ram_inside (c : Chip8) (k b : Z) (a : list Z) :
  length (ram c) = Z.to_nat RAM_SIZE ->
  store (ram c) k b = Ok a -> store_ram c k b = Ok (with_ram c a).
Proof.
  intros Hlen H. unfold store_ram. unfold store in H.
  destruct (decide (0 <= k < Z.of_nat (length (ram c)))) as [Hk|]; [|discriminate].
  rewrite Hlen, Z2Nat.id in Hk by (unfold RAM_SIZE; lia).
  rewrite decide_True by lia. unfold store.
  rewrite decide_True by (rewrite Hlen, Z2Nat.id by (unfold RAM_SIZE; lia); lia).
  injection H as <-. reflexivity.
Qed.

Lemma bcd_in_struct_inside (c c' : Chip8) (op : Opcode) :
  length (ram c) = Z.to_nat RAM_SIZE ->
  chip8_cpu_bcd c op = Ok c' -> chip8_cpu_bcd_in_struct c op = Ok c'.
Proof.
  intros Hlen H. unfold chip8_cpu_bcd in H. unfold chip8_cpu_bcd_in_struct.
  destruct (store (ram c) (i c) _) as [a1| | |] eqn:E1; try discriminate.
  rewrite bind_Ok in H. rewrite (store_ram_inside _ _ _ _ Hlen E1), bind_Ok.
  assert (Hlen1: length (ram (with_ram c a1)) = Z.to_nat RAM_SIZE).
  { unfold store in E1. destruct (decide _); [|discriminate]. injection E1 as <-.
    cbn [ram with_ram]. by rewrite length_insert. }
  destruct (store (ram (with_ram c a1)) _ _) as [a2| | |] eqn:E2; try discriminate.
  rewrite bind_Ok in H. rewrite (store_ram_inside _ _ _ _ Hlen1 E2), bind_Ok.
  assert (Hlen2: length (ram (with_ram (with_ram c a1) a2)) = Z.to_nat RAM_SIZE).
  { unfold store in E2. destruct (decide _); [|discriminate]. injection E2 as <-.
    cbn [ram with_ram]. by rewrite length_insert. }
  destruct (store (ram (with_ram (with_ram c a1) a2)) _ _) as [a3| | |] eqn:E3;
    try discriminate.
  rewrite bind_Ok in H. rewrite (store_ram_inside _ _ _ _ Hlen2 E3). exact H.
Qed.

Lemma bcd_at_end_of_memory_reachable :
  reachable Host.key_handle Host.rand Host.idle bcd_at_end_of_memory.
Proof.
  unfold reachable.
  eapply rtc_l;
    [apply (step_load_rom _ _ _ _ (Some [0xAF; 0xFE; 0x64; 0xEA; 0xF4; 0x33]))|].
  eapply rtc_l; [apply (step_cycle _ _ O); vm_compute; reflexivity|].
  eapply rtc_l; [|apply rtc_refl].
  apply (step_cycle _ _ O). vm_compute. reflexivity.
Qed.

(** The third store of the BCD goes to index 0x1000 of the memory, which
    is cell 0 of the display. *)
Lemma bcd_at_end_of_memory_display :
  (c' ← chip8_cpu_bcd_in_struct (with_pc bcd_at_end_of_memory.2 0x206) 0xF433;
   Ok (take 2 (screen c'))) = Ok [4; 0].
Proof. vm_compute. reflexivity. Qed.

(** C9 as stated fails, for the code checks no index: after LD I,0xFFE and
    LD V4,234, which leave the display all zero, the cycle that runs BCD V4
    stores the digits 2, 3, 4 at memory indices 0xFFE, 0xFFF and 0x1000.
    The last one is outside [ram] (no outcome in terms of the array), and
    in the struct it is cell 0 of the display, which then holds 4. *)
Lemma C9_bcd_at_end_of_memory_writes_display :
  let c := bcd_at_end_of_memory.2 in
  reachable Host.key_handle Host.rand Host.idle bcd_at_end_of_memory ∧
  screen_ok c ∧
  (i c = 0xFFE ∧ V c 4 = 234 ∧ pc c = 0x204) ∧
  chip8_cycle Host.key_handle Host.rand 0 Host.idle c = Undefined ∧
  chip8_cpu_bcd (with_pc c 0x206) 0xF433 = Undefined ∧
  (c' ← chip8_cpu_bcd_in_struct (with_pc c 0x206) 0xF433; Ok (take 2 (screen c')))
    = Ok [4; 0] ∧
  ¬ ∃ c', chip8_cpu_bcd_in_struct (with_pc c 0x206) 0xF433 = Ok c' ∧ screen_ok c'.
Proof.
  cbv zeta. split; [exact bcd_at_end_of_memory_reachable|].
  split.
  { unfold screen_ok.
    replace (screen bcd_at_end_of_memory.2) with (replicate (Z.to_nat SCREEN_SIZE) 0)
      by (vm_compute; reflexivity).
    exact boolean_cells_zero. }
  split; [repeat split; vm_compute; reflexivity|].
  split; [vm_compute; reflexivity|].
  split; [vm_compute; reflexivity|].
  split; [exact bcd_at_end_of_memory_display|].
  intros (c' & Hrun & [_ Hall]). pose proof bcd_at_end_of_memory_display as E.
  rewrite Hrun, bind_Ok in E. injection E as E.
  apply (f_equal (fun a => a !! 0%nat)) in E.
  rewrite lookup_take_lt in E by lia. cbn [lookup list_lookup] in E.
  eapply Forall_lookup_1 in Hall; [|exact E]. lia.
Qed.

(** ** Drawing *)

Lemma toggle_length (sf : list Z * Z) (k : Z) : length (toggle sf k).1 = length sf.1.
Proof. apply length_insert. Qed.

Lemma toggles_length (l : list Z) (sf : list Z * Z) :
  length (foldl toggle sf l).1 = length sf.1.
Proof.
  revert sf. induction l as [|a l IH]; intros sf; [reflexivity|].
  simpl. rewrite IH. apply toggle_length.
Qed.

(** Toggling distinct cells: each is flipped once, the others stay, and the
    flag is raised just when one of them was set. *)
Lemma toggles_spec (l : list Z) (scr : list Z) (f : Z) :
  NoDup l -> (∀ k, k ∈ l -> 0 <= k < Z.of_nat (length scr)) ->
  (∀ j, j ∈ l -> (foldl toggle (scr, f) l).1 !!! Z.to_nat j
                 = u8 (Z.lxor (scr !!! Z.to_nat j) 0x1)) ∧
  (∀ j, 0 <= j -> j ∉ l -> (foldl toggle (scr, f) l).1 !!! Z.to_nat j
                           = scr !!! Z.to_nat j) ∧
  ((∀ k, k ∈ l -> scr !!! Z.to_nat k = 0) -> (foldl toggle (scr, f) l).2 = f) ∧
  ((∃ k, k ∈ l ∧ scr !!! Z.to_nat k ≠ 0) -> (foldl toggle (scr, f) l).2 = 1).
Proof.
  revert scr f. induction l as [|a l IH]; intros scr f Hnd Hin.
  - simpl. repeat split; try done.
    + intros j Hj. by apply elem_of_nil in Hj.
    + intros (k & Hk & _). by apply elem_of_nil in Hk.
  - apply NoDup_cons in Hnd as [Ha Hnd].
    pose proof (Hin a ltac:(left)) as Hab.
    assert (Hother: ∀ k, 0 <= k -> k ≠ a ->
              (toggle (scr, f) a).1 !!! Z.to_nat k = scr !!! Z.to_nat k).
    { intros k Hk Hne. unfold toggle. cbn [fst].
      apply list_lookup_total_insert_ne. lia. }
    assert (Hself: (toggle (scr, f) a).1 !!! Z.to_nat a
                   = u8 (Z.lxor (scr !!! Z.to_nat a) 0x1)).
    { unfold toggle. cbn [fst]. apply list_lookup_total_insert_eq. lia. }
    assert (Hl: ∀ k, k ∈ l -> 0 <= k ∧ k ≠ a).
    { intros k Hk. split; [apply Hin; by right | by intros ->]. }
    destruct (IH (toggle (scr, f) a).1 (toggle (scr, f) a).2 Hnd) as (IHa & IHb & IHc & IHd).
    { intros k Hk. rewrite toggle_length. apply Hin. by right. }
    cbn [foldl]. rewrite (surjective_pairing (toggle (scr, f) a)).
    split; [|split; [|split]].
    + intros j Hj. apply elem_of_cons in Hj as [->|Hj].
      * rewrite IHb by (done || lia). exact Hself.
      * rewrite IHa by done. destruct (Hl j Hj). by rewrite Hother.
    + intros j Hj Hni. apply not_elem_of_cons in Hni as [Hne Hni].
      rewrite IHb by done. by apply Hother.
    + intros Hz. rewrite IHc.
      * unfold toggle. cbn [fst snd]. rewrite decide_False; [done|].
        intros Hnz. apply Hnz. apply Hz. by left.
      * intros k Hk. destruct (Hl k Hk). rewrite Hother by done. apply Hz. by right.
    + intros (k & Hk & Hnz).
      destruct (decide (Forall (fun k => scr !!! Z.to_nat k = 0) l)) as [Hall|Hex].
      * rewrite Forall_forall in Hall.
        apply elem_of_cons in Hk as [->|Hk]; [|by specialize (Hall k Hk)].
        rewrite IHc.
        -- unfold toggle. cbn [fst snd]. by rewrite decide_True.
        -- intros k Hk. destruct (Hl k Hk). rewrite Hother by done. by apply Hall.
      * apply not_Forall_Exists in Hex; [|intros ?; apply _].
        apply Exists_exists in Hex as (k' & Hk' & Hnz').
        apply IHd. exists k'. split; [done|]. destruct (Hl k' Hk').
        by rewrite Hother.
Qed.

Lemma row_cells_elem (b vx vy row : Z) (count : nat) (col k : Z) :
  k ∈ row_cells b vx vy row col count ->
  ∃ col', col <= col' < col + Z.of_nat count ∧
          Z.land b (Z.shiftr 0x80 col') ≠ 0 ∧ k = cell vx vy row col'.
Proof.
  revert col. induction count as [|n IH]; intros col; simpl.
  - intros H. by apply elem_of_nil in H.
  - intros H. apply elem_of_app in H as [H|H].
    + destruct (decide (Z.land b (Z.shiftr 0x80 col) ≠ 0)) as [Hb|Hb].
      * apply list_elem_of_singleton in H as ->. exists col. split; [lia | done].
      * by apply elem_of_nil in H.
    + apply IH in H as (col' & Hr & Hb & ->). exists col'. split; [lia | done].
Qed.

Lemma row_cells_NoDup (b vx vy row : Z) (count : nat) (col : Z) :
  NoDup (row_cells b vx vy row col count).
Proof.
  revert col. induction count as [|n IH]; intros col; simpl; [apply NoDup_nil_2|].
  apply NoDup_app. split; [|split; [|apply IH]].
  - destruct (decide _); [apply NoDup_singleton | apply NoDup_nil_2].
  - intros k Hk Hk'. apply row_cells_elem in Hk' as (col' & Hr & _ & ->).
    destruct (decide _); [|by apply elem_of_nil in Hk].
    apply list_elem_of_singleton in Hk. unfold cell in Hk. lia.
Qed.

Lemma sprite_cells_elem (mem : list Z) (I vx vy : Z) (count : nat) (row k : Z) :
  k ∈ sprite_cells mem I vx vy row count ->
  ∃ row' col', row <= row' < row + Z.of_nat count ∧ 0 <= col' < 8 ∧
    Z.land (mem !!! Z.to_nat (I + row')) (Z.shiftr 0x80 col') ≠ 0 ∧
    k = cell vx vy row' col'.
Proof.
  revert row. induction count as [|n IH]; intros row; cbn [sprite_cells].
  - intros H. by apply elem_of_nil in H.
  - intros H. apply elem_of_app in H as [H|H].
    + apply row_cells_elem in H as (col' & Hr & Hb & ->).
      exists row, col'. split; [lia|]. split; [lia | done].
    + apply IH in H as (row' & col' & Hr & Hc & Hb & ->).
      exists row', col'. split; [lia | done].
Qed.

Lemma sprite_cells_NoDup (mem : list Z) (I vx vy : Z) (count : nat) (row : Z) :
  NoDup (sprite_cells mem I vx vy row count).
Proof.
  revert row. induction count as [|n IH]; intros row; cbn [sprite_cells];
    [apply NoDup_nil_2|].
  apply NoDup_app. split; [apply row_cells_NoDup|]. split; [|apply IH].
  intros k Hk Hk'. apply row_cells_elem in Hk as (col & Hc & _ & ->).
  apply sprite_cells_elem in Hk' as (row' & col' & Hr & Hc' & _ & Heq).
  unfold cell, SCREEN_W in Heq. lia.
Qed.

Lemma drawing_screen_id (c : Chip8) (f : Z) :
  set_v c 0xF f = drawing c (screen c, f).
Proof. by destruct c. Qed.

Lemma drawing_drawing (c : Chip8) (sf sf' : list Z * Z) :
  drawing (drawing c sf) sf' = drawing c sf'.
Proof.
  unfold drawing, set_v, with_screen, with_v. simpl.
  by rewrite list_insert_insert_eq.
Qed.

Lemma V_drawing (c : Chip8) (sf : list Z * Z) (k : Z) :
  0 <= k -> k ≠ 0xF -> V (drawing c sf) k = V c k.
Proof.
  intros Hk Hne. unfold drawing.
  change (V (with_screen (set_v c 0xF sf.2) sf.1) k) with (V (set_v c 0xF sf.2) k).
  apply V_set_v_ne; lia.
Qed.

Lemma V_drawing_flag (c : Chip8) (sf : list Z * Z) :
  length (v c) = 16%nat -> V (drawing c sf) 0xF = sf.2.
Proof.
  intros Hlen. unfold drawing.
  change (V (with_screen (set_v c 0xF sf.2) sf.1) 0xF) with (V (set_v c 0xF sf.2) 0xF).
  apply V_set_v_eq. rewrite Hlen. lia.
Qed.

(** One touched cell: the machine steps as [toggle] says. *)
Lemma drw_pixel_drawing (c : Chip8) (op : Opcode) (row col : Z) (sf : list Z * Z) :
  X op ≠ 0xF -> Y op ≠ 0xF ->
  0 <= cell (V c (X op)) (V c (Y op)) row col < Z.of_nat (length sf.1) ->
  drw_pixel op row col (drawing c sf)
  = Ok (drawing c (toggle sf (cell (V c (X op)) (V c (Y op)) row col))).
Proof.
  intros Hx Hy Hk. pose proof (X_range op). pose proof (Y_range op).
  unfold drw_pixel.
  rewrite !V_drawing by lia. fold (cell (V c (X op)) (V c (Y op)) row col).
  set (k := cell (V c (X op)) (V c (Y op)) row col) in *.
  change (screen (drawing c sf)) with sf.1.
  rewrite load_total by done. simpl.
  assert (Hd: (if decide (sf.1 !!! Z.to_nat k ≠ 0) then set_v (drawing c sf) 0xF 0x1
               else drawing c sf)
              = drawing c (sf.1, if decide (sf.1 !!! Z.to_nat k ≠ 0) then 0x1 else sf.2)).
  { destruct (decide (sf.1 !!! Z.to_nat k ≠ 0)).
    - rewrite drawing_screen_id. apply drawing_drawing.
    - by destruct sf. }
  rewrite Hd. rewrite !V_drawing by lia.
  fold (cell (V c (X op)) (V c (Y op)) row col). fold k.
  change (screen (drawing c (sf.1, if decide (sf.1 !!! Z.to_nat k ≠ 0) then 0x1 else sf.2)))
    with sf.1.
  rewrite load_total by done. simpl.
  rewrite store_Ok by done. simpl. reflexivity.
Qed.

(** The inner loop. *)
Lemma drw_cols_drawing (c : Chip8) (op : Opcode) (row b : Z) (count : nat) :
  X op ≠ 0xF -> Y op ≠ 0xF ->
  ∀ (col : Z) (sf : list Z * Z),
    (∀ k, k ∈ row_cells b (V c (X op)) (V c (Y op)) row col count ->
          0 <= k < Z.of_nat (length sf.1)) ->
    for_loop col count
      (fun col c =>
         if decide (Z.land b (Z.shiftr 0x80 col) ≠ 0) then drw_pixel op row col c
         else Ok c) (drawing c sf)
    = Ok (drawing c (foldl toggle sf (row_cells b (V c (X op)) (V c (Y op)) row col count))).
Proof.
  intros Hx Hy. induction count as [|n IH]; intros col sf Hin; [reflexivity|].
  cbn [for_loop row_cells]. cbn [row_cells] in Hin.
  destruct (decide (Z.land b (Z.shiftr 0x80 col) ≠ 0)) as [Hb|Hb].
  - rewrite drw_pixel_drawing; [|done|done|apply Hin; apply elem_of_app; left; by left].
    simpl. apply IH. intros k Hk. rewrite toggle_length. apply Hin.
    apply elem_of_app. by right.
  - simpl. apply IH. intros k Hk. apply Hin. apply elem_of_app. by right.
Qed.

(** One row. *)
Lemma drw_row_drawing (c : Chip8) (op : Opcode) (row : Z) (sf : list Z * Z) :
  X op ≠ 0xF -> Y op ≠ 0xF ->
  0 <= i c + row < Z.of_nat (length (ram c)) ->
  (∀ k, k ∈ row_cells (ram c !!! Z.to_nat (i c + row)) (V c (X op)) (V c (Y op)) row 0 8 ->
        0 <= k < Z.of_nat (length sf.1)) ->
  drw_row op row (drawing c sf)
  = Ok (drawing c (foldl toggle sf
          (row_cells (ram c !!! Z.to_nat (i c + row)) (V c (X op)) (V c (Y op)) row 0 8))).
Proof.
  intros Hx Hy Hr Hin. unfold drw_row.
  change (ram (drawing c sf)) with (ram c). change (i (drawing c sf)) with (i c).
  rewrite load_total by lia. rewrite bind_Ok.
  by apply drw_cols_drawing.
Qed.

(** The outer loop. *)
Lemma drw_rows_drawing (c : Chip8) (op : Opcode) (count : nat) :
  X op ≠ 0xF -> Y op ≠ 0xF ->
  ∀ (row : Z) (sf : list Z * Z),
    0 <= i c + row -> i c + row + Z.of_nat count <= Z.of_nat (length (ram c)) ->
    (∀ k, k ∈ sprite_cells (ram c) (i c) (V c (X op)) (V c (Y op)) row count ->
          0 <= k < Z.of_nat (length sf.1)) ->
    for_loop row count (drw_row op) (drawing c sf)
    = Ok (drawing c (foldl toggle sf
            (sprite_cells (ram c) (i c) (V c (X op)) (V c (Y op)) row count))).
Proof.
  intros Hx Hy. induction count as [|n IH]; intros row sf Hlo Hhi Hin; [reflexivity|].
  cbn [for_loop sprite_cells]. cbn [sprite_cells] in Hin.
  rewrite drw_row_drawing; [|done|done|lia|].
  - rewrite bind_Ok, foldl_app. apply IH; [lia|lia|].
    intros k Hk. rewrite toggles_length. apply Hin. apply elem_of_app. by right.
  - intros k Hk. apply Hin. apply elem_of_app. by left.
Qed.

(** DRW on a machine whose touched cells are all in the display. *)
Lemma drw_drawing (c : Chip8) (op : Opcode) :
  X op ≠ 0xF -> Y op ≠ 0xF ->
  0 <= i c -> i c + N op <= Z.of_nat (length (ram c)) ->
  (∀ k, k ∈ drw_cells c op -> 0 <= k < Z.of_nat (length (screen c))) ->
  chip8_cpu_drw c op = Ok (drawing c (foldl toggle (screen c, 0) (drw_cells c op))).
Proof.
  intros Hx Hy Hi Hn Hin. pose proof (N_range op). unfold chip8_cpu_drw.
  rewrite drawing_screen_id. apply drw_rows_drawing; try done; lia.
Qed.

Lemma drw_cells_in_bounds (c : Chip8) (op : Opcode) :
  touched_in_bounds c op ->
  ∀ k, k ∈ drw_cells c op -> 0 <= k < 2048.
Proof.
  intros Hin k Hk. pose proof (N_range op) as Hn.
  apply sprite_cells_elem in Hk as (row & col & Hr & Hc & Hb & ->).
  apply (Hin row col); [lia | lia | exact Hb].
Qed.

(** Drawing twice on a cleared display, seen on the display and the flag:
    the cells come back to 0, and the second pass raises the flag just when
    there is a cell to touch. *)
Lemma toggles_twice (l : list Z) :
  NoDup l -> (∀ k, k ∈ l -> 0 <= k < 2048) ->
  let zero := replicate 2048 0 in
  let sf1 := foldl toggle (zero, 0) l in
  let sf2 := foldl toggle (sf1.1, 0) l in
  sf1.2 = 0 ∧
  (∀ k, k ∈ l -> sf1.1 !!! Z.to_nat k = 1) ∧
  (∀ k, 0 <= k < 2048 -> k ∉ l -> sf1.1 !!! Z.to_nat k = 0) ∧
  sf2.1 = zero ∧
  (sf2.2 = 1 ↔ l ≠ []) .
Proof.
  intros Hnd Hin zero sf1 sf2.
  assert (Hz: ∀ k, 0 <= k < 2048 -> zero !!! Z.to_nat k = 0).
  { intros k Hk. apply lookup_total_replicate_2. lia. }
  assert (Hlz: length zero = 2048%nat) by apply length_replicate.
  destruct (toggles_spec l zero 0 Hnd) as (H1a & H1b & H1c & _).
  { intros k Hk. rewrite Hlz. specialize (Hin k Hk). lia. }
  fold sf1 in H1a, H1b, H1c.
  assert (Hl1: length sf1.1 = 2048%nat) by (unfold sf1; by rewrite toggles_length).
  destruct (toggles_spec l sf1.1 0 Hnd) as (H2a & H2b & H2c & H2d).
  { intros k Hk. rewrite Hl1. specialize (Hin k Hk). lia. }
  fold sf2 in H2a, H2b, H2c, H2d.
  assert (Hone: ∀ k, k ∈ l -> sf1.1 !!! Z.to_nat k = 1).
  { intros k Hk. rewrite H1a by done. rewrite Hz by auto. reflexivity. }
  assert (Hnone: ∀ k, 0 <= k < 2048 -> k ∉ l -> sf1.1 !!! Z.to_nat k = 0).
  { intros k Hk Hni. rewrite H1b by (done || lia). by apply Hz. }
  split; [apply H1c; intros k Hk; apply Hz; auto|].
  split; [exact Hone|]. split; [exact Hnone|]. split.
  - apply (list_eq_same_length _ _ 2048%nat); [exact Hlz | |].
    + unfold sf2. by rewrite toggles_length.
    + intros j x y Hj Hx Hy.
      apply list_lookup_total_correct in Hx. apply list_lookup_total_correct in Hy.
      rewrite <- (Nat2Z.id j) in Hx, Hy. rewrite Hz in Hy by lia. subst y.
      destruct (decide (Z.of_nat j ∈ l)) as [Hjl|Hjl].
      * rewrite H2a, Hone in Hx by done. by subst x.
      * rewrite H2b, Hnone in Hx by (done || lia). by subst x.
  - split.
    + intros Hf ->. unfold sf2 in Hf. cbn [foldl snd] in Hf. discriminate.
    + intros Hne. destruct l as [|a l]; [done|]. apply H2d.
      exists a. split; [by left|]. rewrite Hone by (by left). discriminate.
Qed.

(** C5, as the code has it: for register indices x and y other than 0xF, a
    sprite inside the memory and touched cells inside the display, CLS, then
    DRW Vx,Vy,n, then the same DRW leaves the display all zero, and the
    second draw ends with VF = 1 exactly when the first draw set a pixel. *)
Theorem C5_draw_twice_clears (c : Chip8) (op : Opcode) :
  wf c -> X op ≠ 0xF -> Y op ≠ 0xF ->
  i c + N op <= 4096 ->
  touched_in_bounds c op ->
  ∃ c1 c2,
    cls_drw c op = Ok c1 ∧
    chip8_cpu_drw c1 op = Ok c2 ∧
    cls_drw_drw c op = Ok c2 ∧
    screen c2 = replicate 2048 0 ∧
    ((∃ k b, screen c1 !! k = Some b ∧ b ≠ 0) ↔ V c2 0xF = 1).
Proof.
  intros Hwf Hx Hy Hmem Htouch.
  destruct Hwf as [Hram _ _ _ _ _ Hv _ Hi _ _ _ _ _]. unfold word in Hi.
  pose proof (drw_cells_in_bounds c op Htouch) as Hin.
  pose proof (sprite_cells_NoDup (ram c) (i c) (V c (X op)) (V c (Y op))
                (Z.to_nat (N op)) 0) as Hnd.
  fold (drw_cells c op) in Hnd.
  pose proof (X_range op) as Hxr. pose proof (Y_range op) as Hyr.
  set (c0 := chip8_cpu_cls c 0x00E0).
  destruct (toggles_twice (drw_cells c op) Hnd Hin) as (Hf1 & Hone & Hnone & Hs2 & Hf2).
  set (sf1 := foldl toggle (replicate 2048 0, 0) (drw_cells c op)) in *.
  set (sf2 := foldl toggle (sf1.1, 0) (drw_cells c op)) in *.
  assert (Hl1: length sf1.1 = 2048%nat).
  { unfold sf1. rewrite toggles_length. apply length_replicate. }
  assert (H1: cls_drw c op = Ok (drawing c0 sf1)).
  { unfold cls_drw. fold c0. rewrite drw_drawing; [reflexivity|done|done| | |].
    - change (i c0) with (i c). lia.
    - change (ram c0) with (ram c). change (i c0) with (i c). rewrite Hram. lia.
    - intros k Hk. change (drw_cells c0 op) with (drw_cells c op) in Hk.
      change (screen c0) with (replicate 2048 0). rewrite length_replicate.
      specialize (Hin k Hk). lia. }
  assert (Hcells: drw_cells (drawing c0 sf1) op = drw_cells c op).
  { unfold drw_cells.
    change (ram (drawing c0 sf1)) with (ram c). change (i (drawing c0 sf1)) with (i c).
    rewrite !V_drawing by lia. reflexivity. }
  assert (H2: chip8_cpu_drw (drawing c0 sf1) op = Ok (drawing c0 sf2)).
  { rewrite drw_drawing; [|done|done| | |].
    - rewrite Hcells, drawing_drawing. reflexivity.
    - change (i (drawing c0 sf1)) with (i c). lia.
    - change (ram (drawing c0 sf1)) with (ram c). change (i (drawing c0 sf1)) with (i c).
      rewrite Hram. lia.
    - intros k Hk. rewrite Hcells in Hk.
      change (screen (drawing c0 sf1)) with sf1.1. rewrite Hl1.
      specialize (Hin k Hk). lia. }
  exists (drawing c0 sf1), (drawing c0 sf2).
  split; [exact H1|]. split; [exact H2|].
  split; [unfold cls_drw_drw; rewrite H1; exact H2|].
  split; [exact Hs2|].
  rewrite V_drawing_flag by exact Hv.
  change (screen (drawing c0 sf1)) with sf1.1. split.
  - intros (k & b & Hb & Hnz). apply Hf2. intros Hnil.
    unfold sf1 in Hb. rewrite Hnil in Hb. cbn [foldl fst] in Hb.
    apply lookup_replicate in Hb as [-> _]. done.
  - intros Hf. apply Hf2 in Hf.
    assert (Hex: ∀ l : list Z, l ≠ [] -> ∃ a, a ∈ l).
    { intros [|a l] Hl; [done|]. exists a. by left. }
    destruct (Hex _ Hf) as (a & Ha).
    exists (Z.to_nat a), 1. split; [|discriminate].
    rewrite <- (Hone a Ha). apply list_lookup_lookup_total_lt.
    rewrite Hl1. specialize (Hin a Ha). lia.
Qed.

(** The glyph of 0 (five rows from address 0) at (V0, V1) = (10, 3). *)
Lemma C5_draw_twice_clears_witness :
  let c := with_regs [10; 3; 0; 0; 0; 0; 0; 0; 0; 0; 0; 0; 0; 0; 0; 0] in
  (wf c ∧ X 0xD015 ≠ 0xF ∧ Y 0xD015 ≠ 0xF ∧ i c + N 0xD015 <= 4096 ∧
   touched_in_bounds c 0xD015) ∧
  ∃ c1 c2,
    cls_drw c 0xD015 = Ok c1 ∧
    chip8_cpu_drw c1 0xD015 = Ok c2 ∧
    cls_drw_drw c 0xD015 = Ok c2 ∧
    screen c2 = replicate 2048 0 ∧
    ((∃ k b, screen c1 !! k = Some b ∧ b ≠ 0) ↔ V c2 0xF = 1).
Proof.
  cbv zeta.
  assert (H1: wf (with_regs [10; 3; 0; 0; 0; 0; 0; 0; 0; 0; 0; 0; 0; 0; 0; 0])).
  { apply wf_check_wf. vm_compute. reflexivity. }
  assert (H2: touched_in_bounds
                (with_regs [10; 3; 0; 0; 0; 0; 0; 0; 0; 0; 0; 0; 0; 0; 0; 0]) 0xD015).
  { intros row col Hr Hc _.
    change (N 0xD015) with 5 in Hr.
    change (V (with_regs [10; 3; 0; 0; 0; 0; 0; 0; 0; 0; 0; 0; 0; 0; 0; 0]) (X 0xD015))
      with 10.
    change (V (with_regs [10; 3; 0; 0; 0; 0; 0; 0; 0; 0; 0; 0; 0; 0; 0; 0]) (Y 0xD015))
      with 3.
    unfold cell, SCREEN_SIZE, SCREEN_H, SCREEN_W. lia. }
  split.
  - split; [exact H1|]. split; [discriminate|]. split; [discriminate|].
    split; [discriminate | exact H2].
  - apply (C5_draw_twice_clears
             (with_regs [10; 3; 0; 0; 0; 0; 0; 0; 0; 0; 0; 0; 0; 0; 0; 0]) 0xD015);
      [exact H1 | discriminate | discriminate | discriminate | exact H2].
Defined.

(** The glyph at (10, 3), drawn once: four lit cells in its top row, the
    flag down; drawn twice: the flag up. *)
Lemma draw_glyph_example :
  let c := with_regs [10; 3; 0; 0; 0; 0; 0; 0; 0; 0; 0; 0; 0; 0; 0; 0] in
  (c1 ← cls_drw c 0xD015; Ok (take 6 (drop (3 * 64 + 9) (screen c1)), V c1 0xF))
    = Ok ([0; 1; 1; 1; 1; 0], 0) ∧
  (c2 ← cls_drw_drw c 0xD015; Ok (V c2 0xF)) = Ok 1.
Proof. cbv zeta. split; vm_compute; reflexivity. Qed.

Lemma draw_twice_on_VF :
  (c2 ← cls_drw_drw chip8_create 0xDF01; Ok (take 8 (screen c2)))
    = Ok [1; 0; 0; 0; 1; 0; 0; 0].
Proof. vm_compute. reflexivity. Qed.

(** C5 as stated fails when the x of the instruction is 0xF: DRW VF,V0,1
    with the top row of the glyph of 0 (four pixels).  In the second draw the
    first collision writes 1 into VF, which is the x coordinate of the
    cells after it: cell 0 stays lit and cell 4 is lit anew. *)
Lemma C5_draw_twice_fails_on_VF :
  touched_in_bounds chip8_create 0xDF01 ∧
  (c2 ← cls_drw_drw chip8_create 0xDF01; Ok (take 8 (screen c2)))
    = Ok [1; 0; 0; 0; 1; 0; 0; 0] ∧
  ¬ double_draw_clears chip8_create 0xDF01.
Proof.
  split; [|split; [exact draw_twice_on_VF|]].
  - intros row col Hr Hc _. change (N 0xDF01) with 1 in Hr.
    change (V chip8_create (X 0xDF01)) with 0. change (V chip8_create (Y 0xDF01)) with 0.
    unfold cell, SCREEN_SIZE, SCREEN_H, SCREEN_W. lia.
  - intros (c2 & Hrun & Hz). pose proof draw_twice_on_VF as E.
    rewrite Hrun, bind_Ok in E. injection E as E.
    apply (f_equal (fun a => a !! 0%nat)) in E. rewrite Hz in E.
    rewrite lookup_take_lt in E by lia.
    rewrite lookup_replicate_2 in E by lia. discriminate.
Qed.

(** LD V3,K in the world [two_batches]: the wait returns at the second poll
    with V3 = 1, the smaller of the two pressed indices. *)
Lemma C10_key_wait_witness :
  let s := polls Host.key_handle 1 two_batches chip8_create in
  chip8_cpu_ldk Host.key_handle 5 two_batches chip8_create 0xF30A
    = Ok (s.1, set_v s.2 (X 0xF30A) 1) ∧
  ∃ n k, (n < 5)%nat ∧ first_press Host.key_handle n two_batches chip8_create k ∧
         s.1 = (polls Host.key_handle n two_batches chip8_create).1 ∧
         set_v s.2 (X 0xF30A) 1
           = set_v (polls Host.key_handle n two_batches chip8_create).2 (X 0xF30A) k.
Proof.
  cbv zeta.
  assert (H: chip8_cpu_ldk Host.key_handle 5 two_batches chip8_create 0xF30A
             = Ok ((polls Host.key_handle 1 two_batches chip8_create).1,
                   set_v (polls Host.key_handle 1 two_batches chip8_create).2
                         (X 0xF30A) 1)).
  { vm_compute. reflexivity. }
  split; [exact H|].
  destruct (proj1 (C10_key_wait Host.key_handle 5 two_batches _ chip8_create _ 0xF30A) H)
    as (n & k & Hn & Hfp & Hw & Hc & _).
  exists n, k. split; [exact Hn|]. split; [exact Hfp|]. split; [exact Hw | exact Hc].
Defined.

(** * Further properties of the interpreter *)

(** ** Opcode fields *)

Lemma top_eq (op : Opcode) : top op = (op / 4096) mod 16.
Proof. apply top_nibble. Qed.

Lemma top_range (op : Opcode) : 0 <= top op < 16.
Proof. rewrite top_eq. apply Z.mod_pos_bound. lia. Qed.

(** The five field macros and the dispatch index cut a 16-bit opcode into
    its four nibbles: the opcode is top, x, y, n from the high nibble down,
    kk is y and n, nnn is x and kk. *)
Theorem opcode_fields_partition (op : Opcode) :
  u16 op = top op * 4096 + X op * 256 + Y op * 16 + N op ∧
  KK op = Y op * 16 + N op ∧
  NNN op = X op * 256 + KK op ∧
  0 <= top op < 16 ∧ 0 <= X op < 16 ∧ 0 <= Y op < 16 ∧ 0 <= N op < 16.
Proof.
  rewrite top_eq, X_eq, Y_eq, N_eq, KK_eq, NNN_eq. unfold u16.
  repeat split; Z.div_mod_to_equations; lia.
Qed.

(** An opcode put together from four nibbles decodes to those nibbles. *)
Theorem opcode_fields_of_nibbles (t x y n : Z) :
  0 <= t < 16 -> 0 <= x < 16 -> 0 <= y < 16 -> 0 <= n < 16 ->
  top (t * 4096 + x * 256 + y * 16 + n) = t ∧
  X (t * 4096 + x * 256 + y * 16 + n) = x ∧
  Y (t * 4096 + x * 256 + y * 16 + n) = y ∧
  N (t * 4096 + x * 256 + y * 16 + n) = n ∧
  KK (t * 4096 + x * 256 + y * 16 + n) = y * 16 + n ∧
  NNN (t * 4096 + x * 256 + y * 16 + n) = x * 256 + y * 16 + n.
Proof.
  intros Ht Hx Hy Hn.
  rewrite top_eq, X_eq, Y_eq, N_eq, KK_eq, NNN_eq.
  repeat split; Z.div_mod_to_equations; lia.
Qed.

Lemma opcode_fields_of_nibbles_witness :
  (0 <= 0xD < 16 ∧ 0 <= 0x1 < 16 ∧ 0 <= 0x2 < 16 ∧ 0 <= 0x5 < 16) ∧
  top (0xD * 4096 + 0x1 * 256 + 0x2 * 16 + 0x5) = 0xD ∧
  X (0xD * 4096 + 0x1 * 256 + 0x2 * 16 + 0x5) = 0x1 ∧
  Y (0xD * 4096 + 0x1 * 256 + 0x2 * 16 + 0x5) = 0x2 ∧
  N (0xD * 4096 + 0x1 * 256 + 0x2 * 16 + 0x5) = 0x5 ∧
  KK (0xD * 4096 + 0x1 * 256 + 0x2 * 16 + 0x5) = 0x2 * 16 + 0x5 ∧
  NNN (0xD * 4096 + 0x1 * 256 + 0x2 * 16 + 0x5) = 0x1 * 256 + 0x2 * 16 + 0x5.
Proof.
  split; [lia|]. apply (opcode_fields_of_nibbles 0xD 0x1 0x2 0x5); lia.
Defined.

(** ** Fetch and decode *)

Lemma load_Undefined (a : list Z) (k : Z) :
  ¬ (0 <= k < Z.of_nat (length a)) -> load a k = Undefined.
Proof.
  intros Hk. unfold load. destruct (decide (0 <= k)); [|reflexivity].
  rewrite lookup_ge_None_2; [reflexivity | lia].
Qed.

Lemma load_outcome (a : list Z) (k : Z) :
  (∃ b, load a k = Ok b) ∨ load a k = Undefined.
Proof.
  unfold load. destruct (decide (0 <= k)); [|by right].
  destruct (a !! Z.to_nat k); [left; eauto | by right].
Qed.

Lemma cycle_dispatch {World : Type}
    (key_handle : World -> Chip8 -> World * Chip8) (rand : World -> World * Z)
    (fuel : nat) (w : World) (c : Chip8) (hi lo : Z) :
  0 <= pc (key_handle w c).2 ->
  ram (key_handle w c).2 !! Z.to_nat (pc (key_handle w c).2) = Some hi ->
  ram (key_handle w c).2 !! Z.to_nat (pc (key_handle w c).2 + 1) = Some lo ->
  byte hi -> byte lo ->
  chip8_cycle key_handle rand fuel w c
  = dispatch key_handle rand fuel (key_handle w c).1
      (with_pc (key_handle w c).2 (u16 (pc (key_handle w c).2 + 2)))
      (hi * 256 + lo) ∧
  top (hi * 256 + lo) = hi / 16.
Proof.
  intros Hpc Hhi Hlo Hhb Hlb. unfold chip8_cycle, dispatch, top.
  destruct (key_handle w c) as [w1 c1]. cbn [fst snd] in *. unfold byte in *.
  rewrite (load_Some (ram c1) (pc c1) hi) by (done || lia).
  rewrite (load_Some (ram c1) (pc c1 + 1) lo) by (done || lia).
  rewrite !bind_Ok. rewrite fetch_word by done.
  assert (Hop: u16 (hi * 256 + lo) = hi * 256 + lo).
  { unfold u16. apply Z.mod_small. lia. }
  rewrite Hop. split; [reflexivity|].
  rewrite top_nibble. Z.div_mod_to_equations. lia.
Qed.

(** One cycle: the key handler runs first; the opcode is the two bytes at
    [pc], high byte first; [pc] is past them when the handler runs; the
    handler is the entry of the high nibble of the first byte. *)
Theorem cycle_fetch_decode {World : Type}
    (key_handle : World -> Chip8 -> World * Chip8) (rand : World -> World * Z)
    (fuel : nat) (w : World) (c : Chip8) (hi lo : Z) :
  0 <= pc (key_handle w c).2 ->
  ram (key_handle w c).2 !! Z.to_nat (pc (key_handle w c).2) = Some hi ->
  ram (key_handle w c).2 !! Z.to_nat (pc (key_handle w c).2 + 1) = Some lo ->
  byte hi -> byte lo ->
  chip8_cycle key_handle rand fuel w c
  = dispatch key_handle rand fuel (key_handle w c).1
      (with_pc (key_handle w c).2 (u16 (pc (key_handle w c).2 + 2)))
      (hi * 256 + lo) ∧
  top (hi * 256 + lo) = hi / 16.
Proof. apply cycle_dispatch. Qed.

Lemma cycle_fetch_decode_witness :
  let c := (chip8_load_rom chip8_create (Some [0x61; 0x2A])).1 in
  (0 <= pc (Host.key_handle Host.idle c).2 ∧
   ram (Host.key_handle Host.idle c).2 !! Z.to_nat (pc (Host.key_handle Host.idle c).2)
     = Some 0x61 ∧
   ram (Host.key_handle Host.idle c).2 !! Z.to_nat (pc (Host.key_handle Host.idle c).2 + 1)
     = Some 0x2A ∧
   byte 0x61 ∧ byte 0x2A) ∧
  chip8_cycle Host.key_handle Host.rand 0 Host.idle c
  = dispatch Host.key_handle Host.rand O (Host.key_handle Host.idle c).1
      (with_pc (Host.key_handle Host.idle c).2
         (u16 (pc (Host.key_handle Host.idle c).2 + 2)))
      (0x61 * 256 + 0x2A) ∧
  top (0x61 * 256 + 0x2A) = 0x61 / 16.
Proof.
  cbv zeta. split.
  - split; [discriminate|]. split; [reflexivity|]. split; [reflexivity|].
    unfold byte. split; lia.
  - apply (cycle_fetch_decode Host.key_handle Host.rand 0 Host.idle
             (chip8_load_rom chip8_create (Some [0x61; 0x2A])).1 0x61 0x2A);
      [discriminate | reflexivity | reflexivity | unfold byte; lia | unfold byte; lia].
Defined.

(** A fetch that is not inside the memory, both bytes, has no outcome: the
    program counter is not checked against the memory size. *)
Theorem cycle_fetch_out_of_memory {World : Type}
    (key_handle : World -> Chip8 -> World * Chip8) (rand : World -> World * Z)
    (fuel : nat) (w : World) (c : Chip8) :
  ¬ (0 <= pc (key_handle w c).2 ∧
     pc (key_handle w c).2 + 1 < Z.of_nat (length (ram (key_handle w c).2))) ->
  chip8_cycle key_handle rand fuel w c = Undefined.
Proof.
  intros Hout. unfold chip8_cycle. destruct (key_handle w c) as [w1 c1]. cbn [snd] in Hout.
  destruct (decide (0 <= pc c1 < Z.of_nat (length (ram c1)))) as [Hin|Hin].
  - rewrite (load_total (ram c1) (pc c1)) by exact Hin. rewrite bind_Ok.
    rewrite (load_Undefined (ram c1) (pc c1 + 1)) by lia. reflexivity.
  - rewrite (load_Undefined (ram c1) (pc c1)) by exact Hin. reflexivity.
Qed.

Lemma cycle_fetch_out_of_memory_witness :
  let c := with_pc chip8_create 0xFFF in
  ¬ (0 <= pc (Host.key_handle Host.idle c).2 ∧
     pc (Host.key_handle Host.idle c).2 + 1
       < Z.of_nat (length (ram (Host.key_handle Host.idle c).2))) ∧
  chip8_cycle Host.key_handle Host.rand 0 Host.idle c = Undefined.
Proof.
  cbv zeta.
  assert (H: ¬ (0 <= pc (Host.key_handle Host.idle (with_pc chip8_create 0xFFF)).2 ∧
                pc (Host.key_handle Host.idle (with_pc chip8_create 0xFFF)).2 + 1
                < Z.of_nat (length (ram (Host.key_handle Host.idle
                                           (with_pc chip8_create 0xFFF)).2)))).
  { intros [_ H]. vm_compute in H. discriminate. }
  split; [exact H|].
  apply (cycle_fetch_out_of_memory Host.key_handle Host.rand 0 Host.idle
           (with_pc chip8_create 0xFFF) H).
Defined.

(** ** Which opcodes abort *)

Lemma bind_Abort_inv {A B : Type} (m : outcome A) (f : A -> outcome B) (o : Z) :
  m ≫= f = Abort o -> m = Abort o ∨ ∃ a, m = Ok a ∧ f a = Abort o.
Proof.
  destruct m; simpl; intros H; try discriminate; [right; eauto | left; congruence].
Qed.

Lemma load_not_Abort (a : list Z) (k o : Z) : load a k ≠ Abort o.
Proof. destruct (load_outcome a k) as [[b ->]| ->]; discriminate. Qed.

Lemma store_not_Abort (a : list Z) (k b o : Z) : store a k b ≠ Abort o.
Proof. unfold store. destruct (decide _); discriminate. Qed.

Lemma for_loop_not_Abort {T : Type} (body : Z -> T -> outcome T) (count : nat)
    (from : Z) (s : T) (o : Z) :
  (∀ k t, body k t ≠ Abort o) -> for_loop from count body s ≠ Abort o.
Proof.
  intros Hbody. revert from s. induction count as [|n IH]; intros from s; simpl.
  - discriminate.
  - intros H. apply bind_Abort_inv in H as [H|(t & _ & H)].
    + by apply Hbody in H.
    + by apply IH in H.
Qed.

Ltac no_abort :=
  repeat match goal with
         | H : _ ≫= _ = Abort _ |- _ =>
             apply bind_Abort_inv in H as [H|(? & _ & H)]
         | H : load _ _ = Abort _ |- _ => by apply load_not_Abort in H
         | H : store _ _ _ = Abort _ |- _ => by apply store_not_Abort in H
         | H : Ok _ = Abort _ |- _ => discriminate H
         | H : (if ?b then _ else _) = Abort _ |- _ => destruct b
         end.

Lemma call_not_Abort (c : Chip8) (op : Opcode) (o : Z) : chip8_cpu_call c op ≠ Abort o.
Proof. unfold chip8_cpu_call. intros H. no_abort. Qed.

Lemma ret_not_Abort (c : Chip8) (op : Opcode) (o : Z) : chip8_cpu_ret c op ≠ Abort o.
Proof. unfold chip8_cpu_ret. intros H. no_abort. Qed.

Lemma skp_not_Abort (c : Chip8) (op : Opcode) (o : Z) : chip8_cpu_skp c op ≠ Abort o.
Proof. unfold chip8_cpu_skp. intros H. no_abort. Qed.

Lemma sknp_not_Abort (c : Chip8) (op : Opcode) (o : Z) : chip8_cpu_sknp c op ≠ Abort o.
Proof. unfold chip8_cpu_sknp. intros H. no_abort. Qed.

Lemma bcd_not_Abort (c : Chip8) (op : Opcode) (o : Z) : chip8_cpu_bcd c op ≠ Abort o.
Proof. unfold chip8_cpu_bcd. intros H. no_abort. Qed.

Lemma ldir_not_Abort (c : Chip8) (op : Opcode) (o : Z) : chip8_cpu_ldir c op ≠ Abort o.
Proof.
  unfold chip8_cpu_ldir. intros H. apply bind_Abort_inv in H as [H|(? & _ & H)]; [|done].
  revert H. apply for_loop_not_Abort. intros k t H. no_abort.
Qed.

Lemma ldri_not_Abort (c : Chip8) (op : Opcode) (o : Z) : chip8_cpu_ldri c op ≠ Abort o.
Proof.
  unfold chip8_cpu_ldri. intros H. apply bind_Abort_inv in H as [H|(? & _ & H)]; [|done].
  revert H. apply for_loop_not_Abort. intros k t H. no_abort.
Qed.

Lemma drw_pixel_not_Abort (op : Opcode) (row col : Z) (c : Chip8) (o : Z) :
  drw_pixel op row col c ≠ Abort o.
Proof. unfold drw_pixel. intros H. no_abort. Qed.

Lemma drw_not_Abort (c : Chip8) (op : Opcode) (o : Z) : chip8_cpu_drw c op ≠ Abort o.
Proof.
  unfold chip8_cpu_drw. apply for_loop_not_Abort. intros row t H. unfold drw_row in H.
  apply bind_Abort_inv in H as [H|(b & _ & H)]; [by apply load_not_Abort in H|].
  revert H. apply for_loop_not_Abort. intros col u H.
  destruct (decide _); [by apply drw_pixel_not_Abort in H | discriminate].
Qed.

Lemma scan_keys_not_Abort (ks : list Z) (count : nat) (from o : Z) :
  scan_keys ks from count ≠ Abort o.
Proof.
  revert from. induction count as [|n IH]; intros from; simpl; [discriminate|].
  intros H. apply bind_Abort_inv in H as [H|(b & _ & H)]; [by apply load_not_Abort in H|].
  destruct (decide (b ≠ 0)); [discriminate | by apply IH in H].
Qed.

Lemma never_aborts_total {World : Type} (f : Chip8 -> Opcode -> Chip8) :
  never_aborts (World := World) (total f).
Proof. intros fuel w c op o. discriminate. Qed.

Lemma never_aborts_partial {World : Type} (f : Chip8 -> Opcode -> outcome Chip8) :
  (∀ c op o, f c op ≠ Abort o) -> never_aborts (World := World) (partial f).
Proof.
  intros Hf fuel w c op o H. unfold partial in H.
  apply bind_Abort_inv in H as [H|(? & _ & H)]; [by apply Hf in H | discriminate].
Qed.

Lemma never_aborts_rnd {World : Type} (rand : World -> World * Z) :
  never_aborts (chip8_cpu_rnd rand).
Proof. intros fuel w c op o. unfold chip8_cpu_rnd. by destruct (rand w). Qed.

Lemma never_aborts_ldk {World : Type} (key_handle : World -> Chip8 -> World * Chip8) :
  never_aborts (chip8_cpu_ldk key_handle).
Proof.
  intros fuel. induction fuel as [|n IH]; intros w c op o; [discriminate|].
  rewrite ldk_step. intros H.
  apply bind_Abort_inv in H as [H|([k|] & _ & H)].
  - by apply scan_keys_not_Abort in H.
  - discriminate.
  - by apply IH in H.
Qed.

Lemma func_abort_iff {World : Type} (fuel : nat) (w : World) (c : Chip8) (op : Opcode) (o : Z) :
  chip8_cpu_func fuel w c op = Abort o ↔ o = op ∧ KK op ∉ [0xE0; 0xEE].
Proof.
  unfold chip8_cpu_func.
  destruct (decide (KK op = 0xE0)) as [He|He]; [|destruct (decide (KK op = 0xEE)) as [Hr|Hr]].
  - split; [discriminate|]. intros [_ Hn]. exfalso. apply Hn. rewrite He. by left.
  - split.
    + intros H. by apply (never_aborts_partial _ ret_not_Abort) in H.
    + intros [_ Hn]. exfalso. apply Hn. rewrite Hr. right. by left.
  - unfold chip8_cpu_bdi. split.
    + intros [= ->]. split; [done|]. rewrite !not_elem_of_cons. split; [done|].
      split; [done | apply not_elem_of_nil].
    + by intros [-> _].
Qed.

Lemma key_abort_iff {World : Type} (fuel : nat) (w : World) (c : Chip8) (op : Opcode) (o : Z) :
  chip8_cpu_key fuel w c op = Abort o ↔ o = op ∧ KK op ∉ [0x9E; 0xA1].
Proof.
  unfold chip8_cpu_key.
  destruct (decide (KK op = 0x9E)) as [He|He]; [|destruct (decide (KK op = 0xA1)) as [Hr|Hr]].
  - split.
    + intros H. by apply (never_aborts_partial _ skp_not_Abort) in H.
    + intros [_ Hn]. exfalso. apply Hn. rewrite He. by left.
  - split.
    + intros H. by apply (never_aborts_partial _ sknp_not_Abort) in H.
    + intros [_ Hn]. exfalso. apply Hn. rewrite Hr. right. by left.
  - unfold chip8_cpu_bdi. split.
    + intros [= ->]. split; [done|]. rewrite !not_elem_of_cons. split; [done|].
      split; [done | apply not_elem_of_nil].
    + by intros [-> _].
Qed.

Lemma vx_abort_iff {World : Type} (key_handle : World -> Chip8 -> World * Chip8)
    (fuel : nat) (w : World) (c : Chip8) (op : Opcode) (o : Z) :
  chip8_cpu_vx key_handle fuel w c op = Abort o ↔
  o = op ∧ KK op ∉ [0x07; 0x0A; 0x15; 0x18; 0x1E; 0x29; 0x33; 0x55; 0x65].
Proof.
  unfold chip8_cpu_vx.
  repeat match goal with
         | |- context [decide (KK op = ?k)] =>
             destruct (decide (KK op = k)) as [He|?];
             [split;
              [intros H; exfalso;
               first [ discriminate H
                     | by apply never_aborts_ldk in H
                     | by apply (never_aborts_partial _ bcd_not_Abort) in H
                     | by apply (never_aborts_partial _ ldir_not_Abort) in H
                     | by apply (never_aborts_partial _ ldri_not_Abort) in H ]
              | intros [_ Hn]; exfalso; apply Hn; rewrite He; solve_elem] |]
         end.
  unfold chip8_cpu_bdi. split.
  - intros [= ->]. split; [done|]. solve_elem.
  - by intros [-> _].
Qed.

Lemma arith_abort_iff {World : Type} (fuel : nat) (w : World) (c : Chip8) (op : Opcode) (o : Z) :
  chip8_cpu_arith fuel w c op = Abort o ↔
  o = op ∧ N op ∈ [0x8; 0x9; 0xA; 0xB; 0xC; 0xD; 0xF].
Proof.
  destruct (arith_dispatch fuel w c op) as [[Hin He]|[Hni [c' He]]]; rewrite He.
  - split; [by intros [= ->] | by intros [-> _]].
  - split; [discriminate | by intros [_ ?]].
Qed.

Lemma bad_opcode_top (op : Opcode) (t : Z) :
  top op = t ->
  bad_opcode op ↔
  (t = 0x0 ∧ KK op ∉ [0xE0; 0xEE]) ∨
  (t = 0x8 ∧ N op ∈ [0x8; 0x9; 0xA; 0xB; 0xC; 0xD; 0xF]) ∨
  (t = 0xE ∧ KK op ∉ [0x9E; 0xA1]) ∨
  (t = 0xF ∧ KK op ∉ [0x07; 0x0A; 0x15; 0x18; 0x1E; 0x29; 0x33; 0x55; 0x65]).
Proof. intros <-. reflexivity. Qed.

(** The interpreter aborts on exactly the opcodes no handler implements:
    in group 0 all but 00E0 and 00EE (whatever the second nibble), in group 8
    the low nibbles 8 to D and F, in group E all but Ex9E and ExA1, in group
    F all but the nine Fx operations; the abort reports the opcode itself.
    Groups 5 and 9 run for every low nibble. *)
Theorem dispatch_aborts_iff_bad_opcode {World : Type}
    (key_handle : World -> Chip8 -> World * Chip8) (rand : World -> World * Z)
    (fuel : nat) (w : World) (c : Chip8) (op : Opcode) (o : Z) :
  dispatch key_handle rand fuel w c op = Abort o ↔ o = op ∧ bad_opcode op.
Proof.
  unfold dispatch, call_entry.
  pose proof (top_range op) as Hr. rewrite decide_True by lia.
  destruct (nibble_cases (top op) Hr) as
    [H|[H|[H|[H|[H|[H|[H|[H|[H|[H|[H|[H|[H|[H|[H|H]]]]]]]]]]]]]]];
    rewrite (bad_opcode_top op _ H); rewrite H;
    match goal with
    | |- context [chip8_op_all _ _ !! Z.to_nat ?t] =>
        let n := eval vm_compute in (Z.to_nat t) in
        change (Z.to_nat t) with n; cbn [chip8_op_all lookup list_lookup]
    end.
  all: try (split;
            [ intros Ha; exfalso; revert Ha;
              first [ apply never_aborts_total
                    | apply never_aborts_rnd
                    | apply (never_aborts_partial _ call_not_Abort)
                    | apply (never_aborts_partial _ drw_not_Abort) ]
            | intros [_ Hb]; exfalso; intuition lia ]).
  - rewrite func_abort_iff. intuition lia.
  - rewrite arith_abort_iff. intuition lia.
  - rewrite key_abort_iff. intuition lia.
  - rewrite vx_abort_iff. intuition lia.
Qed.

(** ** BCD *)

(** BCD Vx writes the hundreds, tens and units digits of Vx at [I], [I+1]
    and [I+2] and changes nothing else, [I] included. *)
Theorem bcd_digits (c : Chip8) (op : Opcode) :
  byte (V c (X op)) -> 0 <= i c -> i c + 2 < Z.of_nat (length (ram c)) ->
  ∃ h t u,
    chip8_cpu_bcd c op
    = Ok (with_ram c (<[Z.to_nat (i c + 2) := u]>
                        (<[Z.to_nat (i c + 1) := t]>
                           (<[Z.to_nat (i c) := h]> (ram c))))) ∧
    V c (X op) = 100 * h + 10 * t + u ∧
    0 <= h <= 2 ∧ 0 <= t <= 9 ∧ 0 <= u <= 9.
Proof.
  intros Hb Hi Hlen. unfold byte in Hb. unfold chip8_cpu_bcd.
  rewrite store_Ok by lia. rewrite bind_Ok. cbn [ram i with_ram].
  rewrite store_Ok by (rewrite length_insert; lia). rewrite bind_Ok. cbn [ram i with_ram].
  rewrite store_Ok by (rewrite !length_insert; lia). rewrite bind_Ok.
  change (V (with_ram _ _) (X op)) with (V c (X op)).
  change (V (with_ram c _) (X op)) with (V c (X op)).
  set (x := V c (X op)) in *.
  rewrite !Z.rem_mod_nonneg by lia.
  rewrite !Z.quot_div_nonneg by (try apply Z.mod_pos_bound; lia).
  unfold u8.
  eexists _, _, _. split; [reflexivity|].
  repeat split; Z.div_mod_to_equations; lia.
Qed.

(** Closed comparisons of machine values, for running a statement on a
    given machine. *)
Ltac by_compute :=
  unfold byte, word; repeat split;
  vm_compute; first [reflexivity | discriminate].

Lemma bcd_digits_witness :
  let c := with_i (with_regs [0; 0; 0; 0; 234; 0; 0; 0; 0; 0; 0; 0; 0; 0; 0; 0]) 0x300 in
  (byte (V c (X 0xF433)) ∧ 0 <= i c ∧ i c + 2 < Z.of_nat (length (ram c))) ∧
  ∃ h t u,
    chip8_cpu_bcd c 0xF433
    = Ok (with_ram c (<[Z.to_nat (i c + 2) := u]>
                        (<[Z.to_nat (i c + 1) := t]>
                           (<[Z.to_nat (i c) := h]> (ram c))))) ∧
    V c (X 0xF433) = 100 * h + 10 * t + u ∧
    0 <= h <= 2 ∧ 0 <= t <= 9 ∧ 0 <= u <= 9.
Proof.
  cbv zeta. split.
  - by_compute.
  - apply (bcd_digits
             (with_i (with_regs [0; 0; 0; 0; 234; 0; 0; 0; 0; 0; 0; 0; 0; 0; 0; 0]) 0x300)
             0xF433); by_compute.
Defined.

Lemma bcd_234 :
  let c := with_i (with_regs [0; 0; 0; 0; 234; 0; 0; 0; 0; 0; 0; 0; 0; 0; 0; 0]) 0x300 in
  (c' ← chip8_cpu_bcd c 0xF433; Ok (take 3 (drop 0x300 (ram c')))) = Ok [2; 3; 4].
Proof. vm_compute. reflexivity. Qed.

(** ** Bulk store and load: what they write and when they are defined *)

Lemma for_loop_last {T : Type} (body : Z -> T -> outcome T) (n : nat) (from : Z) (s s' : T) :
  for_loop from (S n) body s = Ok s' ->
  ∃ t, for_loop from n body s = Ok t ∧ body (from + Z.of_nat n) t = Ok s'.
Proof.
  revert from s. induction n as [|n IH]; intros from s H.
  - cbn [for_loop] in H. apply bind_Ok_inv in H as (t & Hb & H). injection H as <-.
    exists s. split; [reflexivity|]. by replace (from + Z.of_nat 0) with from by lia.
  - change (for_loop from (S (S n)) body s)
      with (body from s ≫= for_loop (from + 1) (S n) body) in H.
    apply bind_Ok_inv in H as (u & Hb & H). apply IH in H as (t & Hl & Hlast).
    exists t. split.
    + cbn [for_loop]. rewrite Hb. exact Hl.
    + by replace (from + Z.of_nat (S n)) with (from + 1 + Z.of_nat n) by lia.
Qed.

(** LD [I],Vx has an outcome exactly when the x+1 bytes from [I] on lie in
    the memory; it then holds V0..Vx there, leaves the rest of the memory and
    the registers alone, and has advanced [I] by x+1 (mod 65536). *)
Theorem ldir_spec (c : Chip8) (op : Opcode) :
  0 <= i c ->
  ((∃ c', chip8_cpu_ldir c op = Ok c') ↔ i c + X op < Z.of_nat (length (ram c))) ∧
  ∀ c', chip8_cpu_ldir c op = Ok c' ->
    c' = with_i (with_ram c (ram c')) (u16 (i c + (X op + 1))) ∧
    length (ram c') = length (ram c) ∧
    (∀ k, 0 <= k <= X op -> ram c' !! Z.to_nat (i c + k) = Some (V c k)) ∧
    (∀ j, ¬ (i c <= Z.of_nat j <= i c + X op) -> ram c' !! j = ram c !! j).
Proof.
  intros Hi. pose proof (X_range op) as Hx.
  set (body := fun (k : Z) (c : Chip8) =>
                 a ← store (ram c) (i c + k) (V c k); Ok (with_ram c a)).
  assert (Hstep: ∀ k t t', body k t = Ok t' ->
            0 <= i t + k < Z.of_nat (length (ram t)) ∧
            t' = with_ram t (<[Z.to_nat (i t + k) := V t k]> (ram t))).
  { intros k t t' H. unfold body in H. apply bind_Ok_inv in H as (a & Ha & H).
    injection H as <-. apply store_Ok_inv in Ha as [Hr ->]. done. }
  assert (Hinv: ∀ n s, for_loop 0 n body c = Ok s ->
            s = with_ram c (ram s) ∧ length (ram s) = length (ram c) ∧
            (∀ k, 0 <= k < Z.of_nat n -> ram s !! Z.to_nat (i c + k) = Some (V c k)) ∧
            (∀ j, ¬ (i c <= Z.of_nat j < i c + Z.of_nat n) -> ram s !! j = ram c !! j)).
  { induction n as [|n IH]; intros s H.
    - injection H as <-. split; [by destruct c|]. split; [done|].
      split; [intros k Hk; lia | done].
    - apply for_loop_last in H as (t & Hl & Hb).
      destruct (IH t Hl) as (Ht & Hlen & Hst & Hfr).
      apply Hstep in Hb as [Hr ->]. rewrite Ht in *. cbn [ram i with_ram V v] in *.
      split; [reflexivity|]. split; [by rewrite length_insert|]. split.
      + intros k Hk. destruct (decide (k = Z.of_nat n)) as [->|Hne].
        * rewrite Z.add_0_l. apply list_lookup_insert_eq. lia.
        * rewrite list_lookup_insert_ne by lia. apply Hst. lia.
      + intros j Hj. rewrite list_lookup_insert_ne by lia. apply Hfr. lia. }
  split; [split|].
  - intros [c' H]. unfold chip8_cpu_ldir in H. fold body in H.
    apply bind_Ok_inv in H as (s & Hl & _).
    replace (Z.to_nat (X op + 1)) with (S (Z.to_nat (X op))) in Hl by lia.
    apply for_loop_last in Hl as (t & Hl & Hb).
    destruct (Hinv _ _ Hl) as (Ht & Hlen & _). apply Hstep in Hb as [Hr _].
    rewrite Ht in Hr. cbn [ram i with_ram] in Hr. lia.
  - intros Hfit.
    destruct (ldir_loop c (Z.to_nat (X op + 1))) as (c1 & Hrun & _); [lia|lia|].
    unfold chip8_cpu_ldir. rewrite Hrun. rewrite bind_Ok. eauto.
  - intros c' H. unfold chip8_cpu_ldir in H. fold body in H.
    apply bind_Ok_inv in H as (s & Hl & H). injection H as <-.
    destruct (Hinv _ _ Hl) as (Hs & Hlen & Hst & Hfr).
    rewrite Hs. cbn [ram i with_ram with_i].
    split; [reflexivity|]. split; [exact Hlen|]. split.
    + intros k Hk. apply Hst. lia.
    + intros j Hj. apply Hfr. lia.
Qed.

(** LD Vx,[I] has an outcome exactly when the x+1 bytes from [I] on lie in
    the memory; it then holds them in V0..Vx, leaves the registers above Vx
    and the memory alone, and has advanced [I] by x+1 (mod 65536). *)
Theorem ldri_spec (c : Chip8) (op : Opcode) :
  0 <= i c -> length (v c) = 16%nat ->
  ((∃ c', chip8_cpu_ldri c op = Ok c') ↔ i c + X op < Z.of_nat (length (ram c))) ∧
  ∀ c', chip8_cpu_ldri c op = Ok c' ->
    c' = with_i (with_v c (v c')) (u16 (i c + (X op + 1))) ∧
    (∀ k, 0 <= k <= X op -> V c' k = ram c !!! Z.to_nat (i c + k)) ∧
    (∀ k, X op < k -> V c' k = V c k).
Proof.
  intros Hi Hv. pose proof (X_range op) as Hx.
  set (body := fun (k : Z) (c : Chip8) => b ← load (ram c) (i c + k); Ok (set_v c k b)).
  assert (Hstep: ∀ k t t', body k t = Ok t' ->
            0 <= i t + k < Z.of_nat (length (ram t)) ∧
            t' = set_v t k (ram t !!! Z.to_nat (i t + k))).
  { intros k t t' H. unfold body in H. apply bind_Ok_inv in H as (b & Hb & H).
    injection H as <-. apply load_Ok_inv in Hb as [Hr Hb].
    apply list_lookup_total_correct in Hb as <-. done. }
  assert (Hinv: ∀ n s, (n <= 16)%nat -> for_loop 0 n body c = Ok s ->
            s = with_v c (v s) ∧ length (v s) = 16%nat ∧
            (∀ k, 0 <= k < Z.of_nat n -> V s k = ram c !!! Z.to_nat (i c + k)) ∧
            (∀ k, Z.of_nat n <= k -> V s k = V c k)).
  { induction n as [|n IH]; intros s Hn H.
    - injection H as <-. split; [by destruct c|]. split; [done|].
      split; [intros k Hk; lia | done].
    - apply for_loop_last in H as (t & Hl & Hb).
      destruct (IH t ltac:(lia) Hl) as (Ht & Hlen & Hst & Hfr).
      apply Hstep in Hb as [Hr ->]. rewrite Z.add_0_l in *.
      assert (Hram: ram t = ram c) by (by rewrite Ht).
      assert (Hit: i t = i c) by (by rewrite Ht).
      rewrite Hram, Hit in *.
      split; [unfold set_v; rewrite Ht at 1; reflexivity|].
      split; [by rewrite length_set_v|]. split.
      + intros k Hk. destruct (decide (k = Z.of_nat n)) as [->|Hne].
        * apply V_set_v_eq. rewrite Hlen. lia.
        * rewrite V_set_v_ne by lia. apply Hst. lia.
      + intros k Hk. rewrite V_set_v_ne by lia. apply Hfr. lia. }
  split; [split|].
  - intros [c' H]. unfold chip8_cpu_ldri in H. fold body in H.
    apply bind_Ok_inv in H as (s & Hl & _).
    replace (Z.to_nat (X op + 1)) with (S (Z.to_nat (X op))) in Hl by lia.
    apply for_loop_last in Hl as (t & Hl & Hb).
    destruct (Hinv (Z.to_nat (X op)) t ltac:(lia) Hl) as (Ht & _).
    apply Hstep in Hb as [Hr _].
    rewrite Ht in Hr. cbn [ram i with_v] in Hr. lia.
  - intros Hfit. unfold chip8_cpu_ldri. fold body.
    destruct (for_loop_inv (fun _ s => ram s = ram c ∧ i s = i c) body
                (Z.to_nat (X op + 1)) 0 c) as (s & Hrun & _); [done| |].
    + intros k t Hk [Hr Hit]. unfold body.
      rewrite (load_total (ram t) (i t + k)) by (rewrite Hr, Hit; lia).
      rewrite bind_Ok. eexists. split; [reflexivity|]. done.
    + rewrite Hrun, bind_Ok. eauto.
  - intros c' H. unfold chip8_cpu_ldri in H. fold body in H.
    apply bind_Ok_inv in H as (s & Hl & H). injection H as <-.
    destruct (Hinv (Z.to_nat (X op + 1)) s ltac:(lia) Hl) as (Hs & Hlen & Hst & Hfr).
    assert (His: i s = i c) by (by rewrite Hs). rewrite His.
    split; [rewrite Hs at 1; reflexivity|]. split.
    + intros k Hk. change (V (with_i s _) k) with (V s k). apply Hst. lia.
    + intros k Hk. change (V (with_i s _) k) with (V s k). apply Hfr. lia.
Qed.

Lemma ldir_spec_witness :
  0 <= i demo ∧
  ((∃ c', chip8_cpu_ldir demo 0xF255 = Ok c')
     ↔ i demo + X 0xF255 < Z.of_nat (length (ram demo))) ∧
  ∀ c', chip8_cpu_ldir demo 0xF255 = Ok c' ->
    c' = with_i (with_ram demo (ram c')) (u16 (i demo + (X 0xF255 + 1))) ∧
    length (ram c') = length (ram demo) ∧
    (∀ k, 0 <= k <= X 0xF255 -> ram c' !! Z.to_nat (i demo + k) = Some (V demo k)) ∧
    (∀ j, ¬ (i demo <= Z.of_nat j <= i demo + X 0xF255) -> ram c' !! j = ram demo !! j).
Proof.
  split; [by_compute|]. apply (ldir_spec demo 0xF255). by_compute.
Defined.

Lemma ldri_spec_witness :
  (0 <= i demo ∧ length (v demo) = 16%nat) ∧
  ((∃ c', chip8_cpu_ldri demo 0xF265 = Ok c')
     ↔ i demo + X 0xF265 < Z.of_nat (length (ram demo))) ∧
  ∀ c', chip8_cpu_ldri demo 0xF265 = Ok c' ->
    c' = with_i (with_v demo (v c')) (u16 (i demo + (X 0xF265 + 1))) ∧
    (∀ k, 0 <= k <= X 0xF265 -> V c' k = ram demo !!! Z.to_nat (i demo + k)) ∧
    (∀ k, X 0xF265 < k -> V c' k = V demo k).
Proof.
  split; [by_compute|]. apply (ldri_spec demo 0xF265); by_compute.
Defined.

(** ** Timers *)

Lemma tick_dt (c : Chip8) : byte (dt c) -> dt (chip8_tick c) = Z.max 0 (dt c - 1).
Proof.
  intros Hb. unfold byte in Hb. unfold chip8_tick.
  destruct (decide (dt c ≠ 0)) as [Hd|Hd]; cbn [st dt with_dt];
    match goal with |- context [decide (?P)] => destruct (decide P) end;
    cbn [dt with_dt with_st]; unfold u8;
    try rewrite Z.mod_small by lia; lia.
Qed.

Lemma tick_st (c : Chip8) : byte (st c) -> st (chip8_tick c) = Z.max 0 (st c - 1).
Proof.
  intros Hb. unfold byte in Hb. unfold chip8_tick.
  destruct (decide (dt c ≠ 0)) as [Hd|Hd]; cbn [st dt with_dt];
    match goal with |- context [decide (?P)] => destruct (decide P) end;
    cbn [st with_dt with_st]; unfold u8;
    try rewrite Z.mod_small by lia; lia.
Qed.

Lemma tick_frame (c : Chip8) :
  chip8_tick c = with_st (with_dt c (dt (chip8_tick c))) (st (chip8_tick c)).
Proof.
  unfold chip8_tick.
  destruct (decide (dt c ≠ 0)) as [Hd|Hd]; cbn [st dt with_dt];
    match goal with |- context [decide (?P)] => destruct (decide P) end;
    by destruct c.
Qed.

Lemma ticks_spec (n : nat) (c : Chip8) :
  byte (dt c) -> byte (st c) ->
  dt (Nat.iter n chip8_tick c) = Z.max 0 (dt c - Z.of_nat n) ∧
  st (Nat.iter n chip8_tick c) = Z.max 0 (st c - Z.of_nat n) ∧
  Nat.iter n chip8_tick c
  = with_st (with_dt c (dt (Nat.iter n chip8_tick c))) (st (Nat.iter n chip8_tick c)).
Proof.
  intros Hd Hs. unfold byte in *. induction n as [|n (IHd & IHs & IHf)].
  - cbn [Nat.iter nat_rect]. split; [lia|]. split; [lia|]. by destruct c.
  - change (Nat.iter (S n) chip8_tick c) with (chip8_tick (Nat.iter n chip8_tick c)).
    set (m := Nat.iter n chip8_tick c) in *.
    split; [rewrite tick_dt by (unfold byte; lia); lia|].
    split; [rewrite tick_st by (unfold byte; lia); lia|].
    rewrite (tick_frame m) at 1.
    generalize (dt (chip8_tick m)) (st (chip8_tick m)). intros a b.
    rewrite IHf. reflexivity.
Qed.

(** [n] ticks take [n] off each timer, stopping at 0: a timer never wraps
    below zero; nothing but the two timers changes. *)
Theorem ticks_count_down (n : nat) (c : Chip8) :
  byte (dt c) -> byte (st c) ->
  dt (Nat.iter n chip8_tick c) = Z.max 0 (dt c - Z.of_nat n) ∧
  st (Nat.iter n chip8_tick c) = Z.max 0 (st c - Z.of_nat n) ∧
  Nat.iter n chip8_tick c
  = with_st (with_dt c (dt (Nat.iter n chip8_tick c))) (st (Nat.iter n chip8_tick c)).
Proof. apply ticks_spec. Qed.

Lemma ticks_count_down_witness :
  (byte (dt (with_st (with_dt demo 3) 200)) ∧ byte (st (with_st (with_dt demo 3) 200))) ∧
  dt (Nat.iter 5 chip8_tick (with_st (with_dt demo 3) 200))
    = Z.max 0 (dt (with_st (with_dt demo 3) 200) - Z.of_nat 5) ∧
  st (Nat.iter 5 chip8_tick (with_st (with_dt demo 3) 200))
    = Z.max 0 (st (with_st (with_dt demo 3) 200) - Z.of_nat 5) ∧
  Nat.iter 5 chip8_tick (with_st (with_dt demo 3) 200)
  = with_st (with_dt (with_st (with_dt demo 3) 200)
               (dt (Nat.iter 5 chip8_tick (with_st (with_dt demo 3) 200))))
            (st (Nat.iter 5 chip8_tick (with_st (with_dt demo 3) 200))).
Proof.
  split; [by_compute|]. apply (ticks_count_down 5 (with_st (with_dt demo 3) 200)); by_compute.
Defined.

(** The delay timer as a program sees it: LD DT,Vx, then [n] ticks, then
    LD Vy,DT leaves max(0, Vx - n) in Vy. *)
Theorem delay_timer_round_trip (n : nat) (c : Chip8) (op op' : Opcode) :
  length (v c) = 16%nat -> byte (V c (X op)) -> byte (st c) ->
  V (chip8_cpu_ldrdt (Nat.iter n chip8_tick (chip8_cpu_lddtr c op)) op') (X op')
  = Z.max 0 (V c (X op) - Z.of_nat n).
Proof.
  intros Hv Hb Hs. pose proof (X_range op').
  destruct (ticks_spec n (chip8_cpu_lddtr c op) Hb Hs) as (Hd & _ & Hf).
  unfold chip8_cpu_ldrdt. rewrite V_set_v_eq.
  - exact Hd.
  - rewrite Hf. cbn [v with_st with_dt chip8_cpu_lddtr]. rewrite Hv. lia.
Qed.

Lemma delay_timer_round_trip_witness :
  (length (v demo) = 16%nat ∧ byte (V demo (X 0xF315)) ∧ byte (st demo)) ∧
  V (chip8_cpu_ldrdt (Nat.iter 4 chip8_tick (chip8_cpu_lddtr demo 0xF315)) 0xF507) (X 0xF507)
  = Z.max 0 (V demo (X 0xF315) - Z.of_nat 4).
Proof.
  split; [by_compute|]. apply (delay_timer_round_trip 4 demo 0xF315 0xF507); by_compute.
Defined.

(** ** The call stack *)

Lemma call_Ok (c : Chip8) (op : Opcode) :
  0 <= sp c < 16 -> length (stack c) = 16%nat ->
  chip8_cpu_call c op
  = Ok (with_pc (with_sp (with_stack c (<[Z.to_nat (sp c) := u16 (pc c)]> (stack c)))
                   (sp c + 1)) (NNN op)).
Proof.
  intros Hsp Hlen. unfold chip8_cpu_call. rewrite store_Ok by (rewrite Hlen; lia).
  rewrite bind_Ok. cbn [sp with_stack]. unfold u8. rewrite Z.mod_small by lia. reflexivity.
Qed.

Lemma ret_Ok (c : Chip8) (op : Opcode) :
  1 <= sp c <= 16 -> length (stack c) = 16%nat ->
  chip8_cpu_ret c op
  = Ok (with_pc (with_sp c (sp c - 1)) (stack c !!! Z.to_nat (sp c - 1))).
Proof.
  intros Hsp Hlen. unfold chip8_cpu_ret. cbn [sp stack with_sp]. unfold u8.
  rewrite Z.mod_small by lia. rewrite load_total by (rewrite Hlen; lia). reflexivity.
Qed.

(** The stack pointer is not checked: CALL has an outcome exactly when
    fewer than 16 addresses are on the stack, RET exactly when at least one
    is (and the pointer is not past the array). *)
Theorem stack_limits (c : Chip8) (op : Opcode) :
  byte (sp c) -> length (stack c) = 16%nat ->
  ((∃ c', chip8_cpu_call c op = Ok c') ↔ sp c < 16) ∧
  ((∃ c', chip8_cpu_ret c op = Ok c') ↔ 1 <= sp c <= 16) ∧
  (sp c = 0 -> chip8_cpu_ret c op = Undefined) ∧
  (16 <= sp c -> chip8_cpu_call c op = Undefined).
Proof.
  intros Hb Hlen. unfold byte in Hb.
  assert (Hcall: 16 <= sp c -> chip8_cpu_call c op = Undefined).
  { intros Hsp. unfold chip8_cpu_call, store.
    rewrite decide_False by (rewrite Hlen; lia). reflexivity. }
  assert (Hret: ¬ (1 <= sp c <= 16) -> chip8_cpu_ret c op = Undefined).
  { intros Hsp. unfold chip8_cpu_ret. cbn [sp stack with_sp].
    rewrite load_Undefined; [reflexivity|]. rewrite Hlen. unfold u8.
    destruct (decide (sp c = 0)) as [->|Hne]; [vm_compute; intros [_ H]; discriminate|].
    rewrite Z.mod_small by lia. lia. }
  split; [|split; [|split]].
  - split.
    + intros [c' H]. destruct (decide (sp c < 16)); [done|].
      rewrite Hcall in H by lia. discriminate.
    + intros Hsp. rewrite call_Ok by (done || lia). eauto.
  - split.
    + intros [c' H]. destruct (decide (1 <= sp c <= 16)); [done|].
      rewrite Hret in H by done. discriminate.
    + intros Hsp. rewrite ret_Ok by done. eauto.
  - intros Hz. apply Hret. lia.
  - exact Hcall.
Qed.

Lemma stack_limits_witness :
  (byte (sp demo) ∧ length (stack demo) = 16%nat) ∧
  ((∃ c', chip8_cpu_call demo 0x2345 = Ok c') ↔ sp demo < 16) ∧
  ((∃ c', chip8_cpu_ret demo 0x2345 = Ok c') ↔ 1 <= sp demo <= 16) ∧
  (sp demo = 0 -> chip8_cpu_ret demo 0x2345 = Undefined) ∧
  (16 <= sp demo -> chip8_cpu_call demo 0x2345 = Undefined).
Proof.
  split; [by_compute|]. apply (stack_limits demo 0x2345); by_compute.
Defined.

Lemma NNN_word (op : Opcode) : word (NNN op).
Proof. rewrite NNN_eq. unfold word. Z.div_mod_to_equations. lia. Qed.

(** Nested calls push the return addresses upwards from the stack pointer. *)
Lemma calls_spec (ops : list Opcode) (c : Chip8) :
  0 <= sp c -> sp c + Z.of_nat (length ops) <= 16 ->
  length (stack c) = 16%nat -> word (pc c) ->
  ∃ c1, calls ops c = Ok c1 ∧
    c1 = with_pc (with_sp (with_stack c (stack c1)) (sp c + Z.of_nat (length ops))) (pc c1) ∧
    length (stack c1) = 16%nat ∧
    pc c1 = (pc c :: (NNN <$> ops)) !!! length ops ∧
    (∀ j, (j < Z.to_nat (sp c))%nat -> stack c1 !! j = stack c !! j) ∧
    (∀ j, (j < length ops)%nat ->
          stack c1 !! (Z.to_nat (sp c) + j)%nat = (pc c :: (NNN <$> ops)) !! j).
Proof.
  revert c. induction ops as [|op ops IH]; intros c Hsp Hfit Hlen Hpc.
  - exists c. cbn [calls length]. split; [reflexivity|].
    split; [rewrite Z.add_0_r; by destruct c|]. split; [done|].
    split; [reflexivity|]. split; [done|]. intros j Hj. cbn [length] in Hj. lia.
  - cbn [length] in Hfit. cbn [calls]. rewrite call_Ok by (done || lia). rewrite bind_Ok.
    set (c' := with_pc _ _).
    destruct (IH c') as (c1 & Hrun & Hc1 & Hl1 & Hpc1 & Hlow & Hnew).
    { cbn [sp c' with_pc with_sp]. lia. }
    { cbn [sp c' with_pc with_sp]. lia. }
    { cbn [stack c' with_pc with_sp with_stack]. by rewrite length_insert. }
    { apply NNN_word. }
    cbn [sp pc stack c' with_pc with_sp with_stack] in Hc1, Hpc1, Hlow, Hnew.
    exists c1. split; [exact Hrun|]. split.
    { rewrite Hc1 at 1. subst c'. unfold with_pc, with_sp, with_stack.
      cbn [ram screen stack v i dt st sp pc keys length]. f_equal. lia. }
    split; [exact Hl1|]. split; [exact Hpc1|]. split.
    + intros j Hj. rewrite Hlow by lia. apply list_lookup_insert_ne. lia.
    + intros [|j] Hj.
      * rewrite Nat.add_0_r. rewrite Hlow by lia.
        rewrite list_lookup_insert_eq by lia. cbn. f_equal.
        unfold u16. apply Z.mod_small. exact Hpc.
      * cbn [length] in Hj.
        replace (Z.to_nat (sp c) + S j)%nat with (Z.to_nat (sp c + 1) + j)%nat by lia.
        rewrite Hnew by lia. reflexivity.
Qed.

(** Returns pop them downwards. *)
Lemma rets_spec (k : nat) (d : Chip8) :
  0 <= sp d - Z.of_nat k -> sp d <= 16 -> length (stack d) = 16%nat ->
  ∃ tr d2, rets k d = Ok (tr, d2) ∧
    length tr = k ∧
    (∀ j, (j < k)%nat -> tr !! j = stack d !! (Z.to_nat (sp d) - 1 - j)%nat) ∧
    d2 = with_pc (with_sp d (sp d - Z.of_nat k)) (pc d2) ∧
    ((0 < k)%nat -> Some (pc d2) = stack d !! Z.to_nat (sp d - Z.of_nat k)).
Proof.
  revert d. induction k as [|k IH]; intros d Hsp Hmax Hlen.
  - exists [], d. cbn [rets]. split; [reflexivity|]. split; [reflexivity|].
    split; [intros j Hj; lia|]. split; [rewrite Z.sub_0_r; by destruct d | lia].
  - cbn [rets]. rewrite ret_Ok by (done || lia). rewrite bind_Ok.
    set (d' := with_pc _ _).
    destruct (IH d') as (tr & d2 & Hrun & Hltr & Htr & Hd2 & Hpc2).
    { cbn [sp d' with_pc with_sp]. lia. }
    { cbn [sp d' with_pc with_sp]. lia. }
    { exact Hlen. }
    cbn [sp stack d' with_pc with_sp] in Htr, Hd2, Hpc2.
    rewrite Hrun, bind_Ok. cbn [fst snd].
    exists (pc d' :: tr), d2. split; [reflexivity|]. split; [cbn; by rewrite Hltr|].
    split; [|split].
    + intros [|j] Hj.
      * cbn [d' pc with_pc]. cbn. symmetry. rewrite Nat.sub_0_r.
        replace (Z.to_nat (sp d) - 1)%nat with (Z.to_nat (sp d - 1)) by lia.
        apply list_lookup_lookup_total_lt. lia.
      * cbn. rewrite Htr by lia. f_equal. lia.
    + rewrite Hd2 at 1. subst d'. unfold with_pc, with_sp.
      cbn [ram screen stack v i dt st sp pc keys]. f_equal. lia.
    + intros _. destruct k as [|k].
      * cbn [rets] in Hrun. injection Hrun as _ <-. cbn [d' pc with_pc].
        replace (sp d - Z.of_nat 1) with (sp d - 1) by lia.
        symmetry. apply list_lookup_lookup_total_lt. lia.
      * rewrite Hpc2 by lia. f_equal. lia.
Qed.

(** The stack is last in, first out: after the CALLs [ops] (that fit on the
    stack), as many RETs return to the pushed addresses in reverse order --
    the targets of the earlier calls, latest first, and last the address the
    first CALL was made from -- and leave the stack pointer and everything
    but the dead stack slots as before the calls. *)
Theorem calls_then_rets (ops : list Opcode) (c : Chip8) :
  ops ≠ [] ->
  0 <= sp c -> sp c + Z.of_nat (length ops) <= 16 ->
  length (stack c) = 16%nat -> word (pc c) ->
  ∃ c1 c2,
    calls ops c = Ok c1 ∧
    sp c1 = sp c + Z.of_nat (length ops) ∧
    rets (length ops) c1
      = Ok (reverse (take (length ops) (pc c :: (NNN <$> ops))), c2) ∧
    c2 = with_stack c (stack c2) ∧
    (∀ j, (j < Z.to_nat (sp c))%nat -> stack c2 !! j = stack c !! j).
Proof.
  intros Hne Hsp Hfit Hlen Hpc.
  destruct (calls_spec ops c Hsp Hfit Hlen Hpc) as (c1 & Hrun & Hc1 & Hl1 & Hpc1 & Hlow & Hnew).
  assert (Hsp1: sp c1 = sp c + Z.of_nat (length ops)) by (by rewrite Hc1).
  destruct (rets_spec (length ops) c1) as (tr & c2 & Hrets & Hltr & Htr & Hc2 & Hpc2);
    [lia | lia | exact Hl1 |].
  assert (Hk: (0 < length ops)%nat) by (destruct ops; [done | cbn; lia]).
  exists c1, c2. split; [exact Hrun|]. split; [exact Hsp1|].
  assert (Htrace: tr = reverse (take (length ops) (pc c :: (NNN <$> ops)))).
  { apply (list_eq_same_length _ _ (length ops)).
    - rewrite length_reverse, length_take. cbn [length]. rewrite length_fmap. lia.
    - exact Hltr.
    - intros j x y Hj Hx Hy. rewrite Htr in Hx by done.
      rewrite reverse_lookup in Hy
        by (rewrite length_take; cbn [length]; rewrite length_fmap; lia).
      rewrite length_take in Hy. cbn [length] in Hy. rewrite length_fmap in Hy.
      rewrite lookup_take_lt in Hy by lia.
      replace (Z.to_nat (sp c1) - 1 - j)%nat
        with (Z.to_nat (sp c) + (length ops - S j))%nat in Hx by lia.
      rewrite Hnew in Hx by lia.
      replace (length ops `min` S (length ops) - S j)%nat
        with (length ops - S j)%nat in Hy by lia.
      congruence. }
  split; [by rewrite Hrets, Htrace|].
  specialize (Hpc2 Hk). rewrite Hsp1 in Hpc2, Hc2.
  replace (sp c + Z.of_nat (length ops) - Z.of_nat (length ops)) with (sp c) in * by lia.
  replace (Z.to_nat (sp c)) with (Z.to_nat (sp c) + 0)%nat in Hpc2 by lia.
  rewrite Hnew in Hpc2 by lia. cbn in Hpc2. injection Hpc2 as Hpc2.
  split.
  - assert (Hst: stack c2 = stack c1) by (by rewrite Hc2).
    rewrite Hst. rewrite Hc2 at 1. rewrite Hpc2. rewrite Hc1. by destruct c.
  - intros j Hj. rewrite Hc2. cbn [stack with_pc with_sp]. by apply Hlow.
Qed.

Lemma calls_then_rets_witness :
  ([0x2300; 0x2400; 0x2ABC] ≠ [] ∧ 0 <= sp demo ∧
   sp demo + Z.of_nat (length [0x2300; 0x2400; 0x2ABC]) <= 16 ∧
   length (stack demo) = 16%nat ∧ word (pc demo)) ∧
  ∃ c1 c2,
    calls [0x2300; 0x2400; 0x2ABC] demo = Ok c1 ∧
    sp c1 = sp demo + Z.of_nat (length [0x2300; 0x2400; 0x2ABC]) ∧
    rets (length [0x2300; 0x2400; 0x2ABC]) c1
      = Ok (reverse (take (length [0x2300; 0x2400; 0x2ABC])
                       (pc demo :: (NNN <$> [0x2300; 0x2400; 0x2ABC]))), c2) ∧
    c2 = with_stack demo (stack c2) ∧
    (∀ j, (j < Z.to_nat (sp demo))%nat -> stack c2 !! j = stack demo !! j).
Proof.
  split; [split; [discriminate | by_compute]|].
  apply (calls_then_rets [0x2300; 0x2400; 0x2ABC] demo); [discriminate | by_compute ..].
Defined.

(** The addresses that run returns to: 0x400, 0x300, and 0x200 where the
    first call was made from. *)
Lemma calls_then_rets_example :
  (c1 ← calls [0x2300; 0x2400; 0x2ABC] demo; r ← rets 3 c1; Ok (pc c1, r.1, sp r.2))
  = Ok (0xABC, [0x400; 0x300; 0x200], 0).
Proof. vm_compute. reflexivity. Qed.

(** ** Skips *)

(** Of SE and SNE on the same operands exactly one skips, with an
    immediate as with two registers; a skip is 2 added to the program
    counter (mod 65536) and nothing else. *)
Theorem skips_are_complementary (c : Chip8) (op : Opcode) :
  (chip8_cpu_se c op = with_pc c (u16 (pc c + 2)) ∧ chip8_cpu_sne c op = with_pc c (u16 (pc c))
   ∧ V c (X op) = KK op
   ∨ chip8_cpu_se c op = with_pc c (u16 (pc c)) ∧ chip8_cpu_sne c op = with_pc c (u16 (pc c + 2))
     ∧ V c (X op) ≠ KK op) ∧
  (chip8_cpu_ser c op = with_pc c (u16 (pc c + 2)) ∧ chip8_cpu_sner c op = with_pc c (u16 (pc c))
   ∧ V c (X op) = V c (Y op)
   ∨ chip8_cpu_ser c op = with_pc c (u16 (pc c)) ∧ chip8_cpu_sner c op = with_pc c (u16 (pc c + 2))
     ∧ V c (X op) ≠ V c (Y op)).
Proof.
  unfold chip8_cpu_se, chip8_cpu_sne, chip8_cpu_ser, chip8_cpu_sner. split.
  - destruct (decide (V c (X op) = KK op)) as [He|He].
    + left. rewrite decide_False by (intros H; by apply H). rewrite Z.add_0_r. done.
    + right. rewrite decide_True by done. rewrite Z.add_0_r. done.
  - destruct (decide (V c (X op) = V c (Y op))) as [He|He].
    + left. rewrite decide_False by (intros H; by apply H). rewrite Z.add_0_r. done.
    + right. rewrite decide_True by done. rewrite Z.add_0_r. done.
Qed.

(** SKP and SKNP index the keypad with Vx unchecked: for Vx from 16 on
    they have no outcome; below, exactly one of them skips, SKP when the key
    is held (any non-zero entry). *)
Theorem key_skips (c : Chip8) (op : Opcode) :
  length (keys c) = 16%nat -> 0 <= V c (X op) ->
  (16 <= V c (X op) ->
   chip8_cpu_skp c op = Undefined ∧ chip8_cpu_sknp c op = Undefined) ∧
  (V c (X op) < 16 ->
   (keys c !!! Z.to_nat (V c (X op)) ≠ 0 ∧
    chip8_cpu_skp c op = Ok (with_pc c (u16 (pc c + 2))) ∧ chip8_cpu_sknp c op = Ok c)
   ∨ (keys c !!! Z.to_nat (V c (X op)) = 0 ∧
      chip8_cpu_skp c op = Ok c ∧ chip8_cpu_sknp c op = Ok (with_pc c (u16 (pc c + 2))))).
Proof.
  intros Hlen Hv. unfold chip8_cpu_skp, chip8_cpu_sknp. split.
  - intros Hbig. rewrite load_Undefined by (rewrite Hlen; lia). done.
  - intros Hsmall. rewrite load_total by (rewrite Hlen; lia). rewrite !bind_Ok.
    destruct (decide (keys c !!! Z.to_nat (V c (X op)) = 0)) as [Hz|Hnz].
    + right. rewrite decide_False by (intros H; by apply H). done.
    + left. rewrite decide_True by done. done.
Qed.

Lemma key_skips_witness :
  (length (keys demo) = 16%nat ∧ 0 <= V demo (X 0xE19E)) ∧
  (16 <= V demo (X 0xE19E) ->
   chip8_cpu_skp demo 0xE19E = Undefined ∧ chip8_cpu_sknp demo 0xE19E = Undefined) ∧
  (V demo (X 0xE19E) < 16 ->
   (keys demo !!! Z.to_nat (V demo (X 0xE19E)) ≠ 0 ∧
    chip8_cpu_skp demo 0xE19E = Ok (with_pc demo (u16 (pc demo + 2))) ∧
    chip8_cpu_sknp demo 0xE19E = Ok demo)
   ∨ (keys demo !!! Z.to_nat (V demo (X 0xE19E)) = 0 ∧
      chip8_cpu_skp demo 0xE19E = Ok demo ∧
      chip8_cpu_sknp demo 0xE19E = Ok (with_pc demo (u16 (pc demo + 2))))).
Proof.
  split; [by_compute|]. apply (key_skips demo 0xE19E); by_compute.
Defined.

(** V4 = 234 is no key: SKP V4 has no outcome. *)
Lemma skp_out_of_keypad : chip8_cpu_skp demo 0xE49E = Undefined.
Proof. reflexivity. Qed.

(** ** ROM loading and the font *)

(** Loading a ROM copies the file to 0x200 on, at most 3584 bytes of it,
    and touches nothing else: the font and the rest of the memory below
    0x200 stay, as does the memory past the copied bytes and the rest of the
    machine; when the file cannot be opened the machine is left alone and
    the status is -1. *)
Theorem load_rom_spec (c : Chip8) (bytes : list Z) :
  length (ram c) = 4096%nat ->
  chip8_load_rom c None = (c, -1) ∧
  (chip8_load_rom c (Some bytes)).2 = 0 ∧
  (chip8_load_rom c (Some bytes)).1
    = with_ram c (ram (chip8_load_rom c (Some bytes)).1) ∧
  length (ram (chip8_load_rom c (Some bytes)).1) = 4096%nat ∧
  (∀ j, (j < 0x200)%nat -> ram (chip8_load_rom c (Some bytes)).1 !! j = ram c !! j) ∧
  (∀ j, (j < length bytes)%nat -> (j < 3584)%nat ->
        ram (chip8_load_rom c (Some bytes)).1 !! (0x200 + j)%nat = bytes !! j) ∧
  (∀ j, (0x200 + length bytes <= j)%nat ->
        ram (chip8_load_rom c (Some bytes)).1 !! j = ram c !! j).
Proof.
  intros Hlen. cbn [chip8_load_rom fst snd ram with_ram].
  change (Z.to_nat ROM_START) with 0x200%nat. change (Z.to_nat ROM_SIZE) with 3584%nat.
  split; [reflexivity|]. split; [reflexivity|]. split; [reflexivity|].
  split; [by rewrite length_inserts|]. split; [|split].
  - intros j Hj. apply list_lookup_inserts_lt. lia.
  - intros j Hj Hcap. rewrite list_lookup_inserts.
    + rewrite lookup_take_lt by lia. f_equal. lia.
    + rewrite length_take. lia.
    + rewrite Hlen. lia.
  - intros j Hj. apply list_lookup_inserts_ge. rewrite length_take. lia.
Qed.

Lemma load_rom_spec_witness :
  length (ram demo) = 4096%nat ∧
  chip8_load_rom demo None = (demo, -1) ∧
  (chip8_load_rom demo (Some [0x12; 0x00])).2 = 0 ∧
  (chip8_load_rom demo (Some [0x12; 0x00])).1
    = with_ram demo (ram (chip8_load_rom demo (Some [0x12; 0x00])).1) ∧
  length (ram (chip8_load_rom demo (Some [0x12; 0x00])).1) = 4096%nat ∧
  (∀ j, (j < 0x200)%nat ->
        ram (chip8_load_rom demo (Some [0x12; 0x00])).1 !! j = ram demo !! j) ∧
  (∀ j, (j < length [0x12; 0x00])%nat -> (j < 3584)%nat ->
        ram (chip8_load_rom demo (Some [0x12; 0x00])).1 !! (0x200 + j)%nat
        = [0x12; 0x00] !! j) ∧
  (∀ j, (0x200 + length [0x12; 0x00] <= j)%nat ->
        ram (chip8_load_rom demo (Some [0x12; 0x00])).1 !! j = ram demo !! j).
Proof.
  split; [by_compute|]. apply (load_rom_spec demo [0x12; 0x00]). by_compute.
Defined.

(** Creation installs the font, and ROM loading and reset keep it. *)
Theorem font_stays_installed (c : Chip8) (file : option (list Z)) :
  font_installed chip8_create ∧
  (font_installed c -> font_installed (chip8_load_rom c file).1) ∧
  (font_installed c -> font_installed (chip8_reset c)).
Proof.
  split; [reflexivity|]. split; [|done].
  unfold font_installed. intros Hf. destruct file as [bytes|]; [|exact Hf].
  cbn [chip8_load_rom fst ram with_ram].
  transitivity (take (Z.to_nat FONT_SIZE) (ram c)); [|exact Hf].
  apply list_eq. intros j. destruct (decide (j < Z.to_nat FONT_SIZE)%nat) as [Hj|Hj].
  - rewrite !lookup_take_lt by done. apply list_lookup_inserts_lt.
    change (Z.to_nat ROM_START) with 512%nat. change (Z.to_nat FONT_SIZE) with 80%nat in Hj.
    lia.
  - rewrite !lookup_take_ge by lia. reflexivity.
Qed.

(** LD F,Vx with the font installed and Vx a hexadecimal digit leaves in I
    the address of that digit's glyph: the five bytes from I on are the five
    rows of the glyph in the font table. *)
Theorem ldf_addresses_glyph (c : Chip8) (op : Opcode) (r : Z) :
  font_installed c -> 0 <= V c (X op) < 16 -> 0 <= r < 5 ->
  i (chip8_cpu_ldf c op) = 5 * V c (X op) ∧
  ram (chip8_cpu_ldf c op) !! Z.to_nat (i (chip8_cpu_ldf c op) + r)
  = font !! Z.to_nat (5 * V c (X op) + r).
Proof.
  intros Hf Hd Hr. unfold font_installed in Hf.
  assert (Hi: i (chip8_cpu_ldf c op) = 5 * V c (X op)).
  { unfold chip8_cpu_ldf. cbn [i with_i]. unfold u16, CHAR_SIZE.
    rewrite Z.mod_small by lia. lia. }
  split; [exact Hi|]. rewrite Hi. cbn [chip8_cpu_ldf ram with_i].
  rewrite <- Hf. symmetry. apply lookup_take_lt.
  change (Z.to_nat FONT_SIZE) with 80%nat. lia.
Qed.

Lemma ldf_addresses_glyph_witness :
  (font_installed demo ∧ 0 <= V demo (X 0xF029) < 16 ∧ 0 <= 4 < 5) ∧
  i (chip8_cpu_ldf demo 0xF029) = 5 * V demo (X 0xF029) ∧
  ram (chip8_cpu_ldf demo 0xF029) !! Z.to_nat (i (chip8_cpu_ldf demo 0xF029) + 4)
  = font !! Z.to_nat (5 * V demo (X 0xF029) + 4).
Proof.
  split; [split; [reflexivity | by_compute]|].
  apply (ldf_addresses_glyph demo 0xF029 4); [reflexivity | by_compute ..].
Defined.

(** ** More on drawing *)

(** DRW writes the display and VF and nothing else, whatever the operands
    and wherever it draws; the display keeps its size. *)
Theorem drw_frame (c c' : Chip8) (op : Opcode) :
  chip8_cpu_drw c op = Ok c' ->
  c' = with_screen (with_v c (v c')) (screen c') ∧
  length (screen c') = length (screen c) ∧
  length (v c') = length (v c) ∧
  ∀ k, 0 <= k -> k ≠ 0xF -> V c' k = V c k.
Proof.
  set (P := fun s : Chip8 =>
              s = with_screen (with_v c (v s)) (screen s) ∧
              length (screen s) = length (screen c) ∧
              length (v s) = length (v c) ∧
              ∀ k, 0 <= k -> k ≠ 0xF -> V s k = V c k).
  assert (Hflag: ∀ s b, P s -> P (set_v s 0xF b)).
  { intros s b (Hs & Hl & Hlv & Hv). split; [|split; [|split]].
    - unfold set_v. rewrite Hs at 1. reflexivity.
    - exact Hl.
    - by rewrite length_set_v.
    - intros k Hk Hne. rewrite V_set_v_ne by lia. by apply Hv. }
  assert (Hpixel: ∀ row col s s', P s -> drw_pixel op row col s = Ok s' -> P s').
  { intros row col s s' Hs H. unfold drw_pixel in H.
    apply bind_Ok_inv in H as (px & _ & H).
    set (d := if decide (px ≠ 0) then set_v s 0xF 0x1 else s) in H.
    assert (Hd: P d) by (subst d; destruct (decide (px ≠ 0)); [by apply Hflag | done]).
    clearbody d. destruct Hd as (Hd & Hl & Hlv & Hv).
    apply bind_Ok_inv in H as (px' & _ & H). apply bind_Ok_inv in H as (a & Ha & H).
    injection H as <-. apply store_Ok_inv in Ha as [_ ->].
    split; [|split; [|split]].
    - rewrite Hd at 1. reflexivity.
    - cbn [screen with_screen]. by rewrite length_insert.
    - exact Hlv.
    - exact Hv. }
  intros H. unfold chip8_cpu_drw in H.
  eapply (for_loop_preserves P); [| |exact H].
  - intros row t t' Ht Hrow. unfold drw_row in Hrow.
    apply bind_Ok_inv in Hrow as (b & _ & Hrow).
    eapply (for_loop_preserves P); [|exact Ht|exact Hrow].
    intros col u u' Hu Hb. cbn beta in Hb.
    destruct (decide _); [by eapply Hpixel | by injection Hb as <-].
  - apply Hflag. split; [by destruct c|]. done.
Qed.

Lemma drw_frame_witness :
  let c := with_i demo 0 in
  let c1 := with_v (with_screen c (list_inserts 519 [1; 1; 1; 1] (screen c)))
              (<[15%nat := 0]> (v c)) in
  chip8_cpu_drw c 0xD011 = Ok c1 ∧
  c1 = with_screen (with_v c (v c1)) (screen c1) ∧
  length (screen c1) = length (screen c) ∧
  length (v c1) = length (v c) ∧
  ∀ k, 0 <= k -> k ≠ 0xF -> V c1 k = V c k.
Proof.
  cbv zeta.
  assert (H: chip8_cpu_drw (with_i demo 0) 0xD011
             = Ok (with_v (with_screen (with_i demo 0)
                             (list_inserts 519 [1; 1; 1; 1] (screen (with_i demo 0))))
                     (<[15%nat := 0]> (v (with_i demo 0))))).
  { vm_compute. reflexivity. }
  split; [exact H|]. apply (drw_frame (with_i demo 0) _ 0xD011 H).
Defined.

(** That draw lights the four cells of the glyph's top row at (7, 8) and
    lowers VF, which was 1. *)
Lemma drw_frame_example :
  (c1 ← chip8_cpu_drw (with_i demo 0) 0xD011;
   Ok (take 6 (drop (8 * 64 + 6) (screen c1)), V c1 0xF))
  = Ok ([0; 1; 1; 1; 1; 0], 0).
Proof. vm_compute. reflexivity. Qed.

Lemma row_cells_elem_2 (b vx vy row : Z) (count : nat) (col col' : Z) :
  col <= col' < col + Z.of_nat count -> Z.land b (Z.shiftr 0x80 col') ≠ 0 ->
  cell vx vy row col' ∈ row_cells b vx vy row col count.
Proof.
  revert col. induction count as [|n IH]; intros col Hr Hb; [lia|].
  cbn [row_cells]. apply elem_of_app. destruct (decide (col' = col)) as [->|Hne].
  - left. rewrite decide_True by done. by left.
  - right. apply IH; [lia | done].
Qed.

Lemma sprite_cells_elem_2 (mem : list Z) (I vx vy : Z) (count : nat) (row row' col' : Z) :
  row <= row' < row + Z.of_nat count -> 0 <= col' < 8 ->
  Z.land (mem !!! Z.to_nat (I + row')) (Z.shiftr 0x80 col') ≠ 0 ->
  cell vx vy row' col' ∈ sprite_cells mem I vx vy row count.
Proof.
  revert row. induction count as [|n IH]; intros row Hr Hc Hb; [lia|].
  cbn [sprite_cells]. apply elem_of_app. destruct (decide (row' = row)) as [->|Hne].
  - left. apply row_cells_elem_2; [lia | done].
  - right. apply IH; [lia | done | done].
Qed.

Lemma cls_drw_drawing (c : Chip8) (op : Opcode) :
  wf c -> X op ≠ 0xF -> Y op ≠ 0xF -> i c + N op <= 4096 -> touched_in_bounds c op ->
  cls_drw c op
  = Ok (drawing (chip8_cpu_cls c 0x00E0)
          (foldl toggle (replicate 2048 0, 0) (drw_cells c op))).
Proof.
  intros Hwf Hx Hy Hmem Htouch.
  destruct Hwf as [Hram _ _ _ _ _ Hv _ Hi _ _ _ _ _]. unfold word in Hi.
  pose proof (drw_cells_in_bounds c op Htouch) as Hin.
  unfold cls_drw. set (c0 := chip8_cpu_cls c 0x00E0).
  rewrite drw_drawing; [reflexivity|done|done| | |].
  - change (i c0) with (i c). lia.
  - change (ram c0) with (ram c). change (i c0) with (i c). rewrite Hram. lia.
  - intros k Hk. change (drw_cells c0 op) with (drw_cells c op) in Hk.
    change (screen c0) with (replicate 2048 0). rewrite length_replicate.
    specialize (Hin k Hk). lia.
Qed.

(** DRW on a cleared display shows the sprite: with x and y other than
    0xF, the sprite inside the memory and its set bits inside the display,
    the lit cells are exactly the cells of the set bits -- bit 7 of a row
    byte leftmost, row r and column j at index Vx + j + (Vy + r) * 64 -- and
    VF is 0. *)
Theorem drw_renders_sprite (c : Chip8) (op : Opcode) :
  wf c -> X op ≠ 0xF -> Y op ≠ 0xF -> i c + N op <= 4096 -> touched_in_bounds c op ->
  ∃ c1, cls_drw c op = Ok c1 ∧
    V c1 0xF = 0 ∧
    (∀ row col, 0 <= row < N op -> 0 <= col < 8 ->
       Z.land (ram c !!! Z.to_nat (i c + row)) (Z.shiftr 0x80 col) ≠ 0 ->
       screen c1 !! Z.to_nat (cell (V c (X op)) (V c (Y op)) row col) = Some 1) ∧
    (∀ k b, screen c1 !! k = Some b -> b ≠ 0 ->
       ∃ row col, 0 <= row < N op ∧ 0 <= col < 8 ∧
         Z.land (ram c !!! Z.to_nat (i c + row)) (Z.shiftr 0x80 col) ≠ 0 ∧
         Z.of_nat k = cell (V c (X op)) (V c (Y op)) row col).
Proof.
  intros Hwf Hx Hy Hmem Htouch. pose proof (N_range op) as Hn.
  pose proof (cls_drw_drawing c op Hwf Hx Hy Hmem Htouch) as Hrun.
  pose proof (drw_cells_in_bounds c op Htouch) as Hin.
  pose proof (sprite_cells_NoDup (ram c) (i c) (V c (X op)) (V c (Y op))
                (Z.to_nat (N op)) 0) as Hnd.
  fold (drw_cells c op) in Hnd.
  destruct (toggles_twice (drw_cells c op) Hnd Hin) as (Hf1 & Hone & Hnone & _).
  set (sf1 := foldl toggle (replicate 2048 0, 0) (drw_cells c op)) in *.
  assert (Hl1: length sf1.1 = 2048%nat).
  { unfold sf1. rewrite toggles_length. apply length_replicate. }
  eexists. split; [exact Hrun|].
  change (screen (drawing (chip8_cpu_cls c 0x00E0) sf1)) with sf1.1.
  split; [|split].
  - rewrite V_drawing_flag; [exact Hf1 | apply (wf_v c Hwf)].
  - intros row col Hr Hc Hb.
    assert (Hk: cell (V c (X op)) (V c (Y op)) row col ∈ drw_cells c op).
    { apply sprite_cells_elem_2; [lia | done | done]. }
    rewrite <- (Hone _ Hk). apply list_lookup_lookup_total_lt.
    rewrite Hl1. specialize (Hin _ Hk). lia.
  - intros k b Hb Hnz. apply lookup_lt_Some in Hb as Hlt. rewrite Hl1 in Hlt.
    apply list_lookup_total_correct in Hb. rewrite <- (Nat2Z.id k) in Hb.
    destruct (decide (Z.of_nat k ∈ drw_cells c op)) as [Hk|Hk].
    + apply sprite_cells_elem in Hk as (row & col & Hr & Hc & Hbit & Heq).
      exists row, col. split; [lia|]. done.
    + rewrite Hnone in Hb by (done || lia). congruence.
Qed.

Lemma drw_renders_sprite_witness :
  let c := with_i demo 0 in
  (wf c ∧ X 0xD015 ≠ 0xF ∧ Y 0xD015 ≠ 0xF ∧ i c + N 0xD015 <= 4096 ∧
   touched_in_bounds c 0xD015) ∧
  ∃ c1, cls_drw c 0xD015 = Ok c1 ∧
    V c1 0xF = 0 ∧
    (∀ row col, 0 <= row < N 0xD015 -> 0 <= col < 8 ->
       Z.land (ram c !!! Z.to_nat (i c + row)) (Z.shiftr 0x80 col) ≠ 0 ->
       screen c1 !! Z.to_nat (cell (V c (X 0xD015)) (V c (Y 0xD015)) row col) = Some 1) ∧
    (∀ k b, screen c1 !! k = Some b -> b ≠ 0 ->
       ∃ row col, 0 <= row < N 0xD015 ∧ 0 <= col < 8 ∧
         Z.land (ram c !!! Z.to_nat (i c + row)) (Z.shiftr 0x80 col) ≠ 0 ∧
         Z.of_nat k = cell (V c (X 0xD015)) (V c (Y 0xD015)) row col).
Proof.
  cbv zeta.
  assert (H1: wf (with_i demo 0)) by (apply wf_check_wf; vm_compute; reflexivity).
  assert (H2: touched_in_bounds (with_i demo 0) 0xD015).
  { intros row col Hr Hc _. change (N 0xD015) with 5 in Hr.
    change (V (with_i demo 0) (X 0xD015)) with 7.
    change (V (with_i demo 0) (Y 0xD015)) with 8.
    unfold cell, SCREEN_SIZE, SCREEN_H, SCREEN_W. lia. }
  split.
  - split; [exact H1|]. split; [discriminate|]. split; [discriminate|].
    split; [discriminate | exact H2].
  - apply (drw_renders_sprite (with_i demo 0) 0xD015);
      [exact H1 | discriminate | discriminate | discriminate | exact H2].
Defined.

(** ** SUBN and RND *)

(** SUBN Vx,Vy, for x and y other than 0xF: VF is 1 when Vy is strictly
    above Vx and 0 otherwise -- equal operands give VF = 0 -- and Vx
    becomes (Vy - Vx) mod 256. *)
Theorem subn_borrow (c : Chip8) (op : Opcode) :
  length (v c) = 16%nat -> X op ≠ 0xF -> Y op ≠ 0xF ->
  V (chip8_cpu_subn c op) 0xF = (if decide (V c (Y op) > V c (X op)) then 1 else 0) ∧
  V (chip8_cpu_subn c op) (X op) = (V c (Y op) - V c (X op)) mod 256 ∧
  (V c (X op) = V c (Y op) ->
   V (chip8_cpu_subn c op) 0xF = 0 ∧ V (chip8_cpu_subn c op) (X op) = 0).
Proof.
  intros Hlen Hx Hy. pose proof (X_range op). pose proof (Y_range op).
  assert (H1: V (chip8_cpu_subn c op) 0xF
              = (if decide (V c (Y op) > V c (X op)) then 1 else 0))
    by (by apply subn_sets_flag).
  assert (H2: V (chip8_cpu_subn c op) (X op) = (V c (Y op) - V c (X op)) mod 256).
  { unfold chip8_cpu_subn. rewrite V_set_v_eq by (rewrite length_set_v, Hlen; lia).
    rewrite !V_set_v_ne by lia. reflexivity. }
  split; [exact H1|]. split; [exact H2|]. intros He. rewrite H1, H2, He.
  rewrite decide_False by lia. rewrite Z.sub_diag. done.
Qed.

Lemma subn_borrow_witness :
  (length (v demo) = 16%nat ∧ X 0x8017 ≠ 0xF ∧ Y 0x8017 ≠ 0xF) ∧
  V (chip8_cpu_subn demo 0x8017) 0xF
    = (if decide (V demo (Y 0x8017) > V demo (X 0x8017)) then 1 else 0) ∧
  V (chip8_cpu_subn demo 0x8017) (X 0x8017)
    = (V demo (Y 0x8017) - V demo (X 0x8017)) mod 256 ∧
  (V demo (X 0x8017) = V demo (Y 0x8017) ->
   V (chip8_cpu_subn demo 0x8017) 0xF = 0 ∧ V (chip8_cpu_subn demo 0x8017) (X 0x8017) = 0).
Proof.
  split; [by_compute|]. apply (subn_borrow demo 0x8017); by_compute.
Defined.

(** RND Vx,kk takes one value from [rand], whatever it is, cuts it to a
    byte and masks it with kk: Vx ends as a byte with no bit outside kk; the
    rest of the machine stays. *)
Theorem rnd_is_masked {World : Type} (rand : World -> World * Z)
    (fuel : nat) (w : World) (c : Chip8) (op : Opcode) :
  length (v c) = 16%nat ->
  ∃ b, chip8_cpu_rnd rand fuel w c op = Ok ((rand w).1, set_v c (X op) b) ∧
       V (set_v c (X op) b) (X op) = b ∧
       byte b ∧ Z.land b (KK op) = b ∧ b = Z.land ((rand w).2 mod 256) (op mod 256).
Proof.
  intros Hlen. pose proof (X_range op). unfold chip8_cpu_rnd.
  destruct (rand w) as [w1 r]. cbn [fst snd]. eexists. split; [reflexivity|].
  split; [apply V_set_v_eq; rewrite Hlen; lia|].
  split; [|split; [|by rewrite KK_eq]].
  - unfold byte, KK. change 0x00FF with (Z.ones 8). rewrite Z.land_assoc.
    rewrite Z.land_ones by lia. apply Z.mod_pos_bound. lia.
  - rewrite <- Z.land_assoc. by rewrite Z.land_diag.
Qed.

Lemma rnd_is_masked_witness :
  let w := Host.mkWorld [] true [0x1234ABCD] in
  length (v demo) = 16%nat ∧
  ∃ b, chip8_cpu_rnd Host.rand O w demo 0xC20F
       = Ok ((Host.rand w).1, set_v demo (X 0xC20F) b) ∧
       V (set_v demo (X 0xC20F) b) (X 0xC20F) = b ∧
       byte b ∧ Z.land b (KK 0xC20F) = b ∧
       b = Z.land ((Host.rand w).2 mod 256) (0xC20F mod 256).
Proof.
  cbv zeta. split; [reflexivity|].
  apply (rnd_is_masked Host.rand O (Host.mkWorld [] true [0x1234ABCD]) demo 0xC20F).
  reflexivity.
Defined.

(** ** The key handler of main.c *)

Lemma set_keys_pad (k : nat) (val : Z) (ks : list Z) :
  (k < 16)%nat -> Host.set_keys (Host.keypad !!! k) val ks = <[k := val]> ks.
Proof.
  intros Hk.
  do 16 (destruct k as [|k]; [vm_compute; reflexivity|]). lia.
Qed.

Lemma set_keys_other (sym val : Z) (ks : list Z) :
  sym ∉ Host.keypad -> Host.set_keys sym val ks = ks.
Proof.
  intros Hsym. unfold Host.set_keys.
  generalize (seq 0 (Z.to_nat KEYPAD_SIZE)). intros l. revert ks.
  induction l as [|j l IH]; intros ks; [reflexivity|]. cbn [foldl].
  rewrite decide_False; [apply IH|].
  intros Hj. apply Hsym. by eapply list_elem_of_lookup_2.
Qed.

(** What the handler does with one event: a key of the pad going down or
    up sets or clears the flag of its own index and no other; the y key
    resets the machine and leaves the flags; a quit event clears [running];
    any other key or event changes nothing. *)
Theorem host_handle_event (r : bool) (c : Chip8) :
  (∀ k, (k < 16)%nat ->
     Host.handle_event (r, c) (Host.SDL_KEYDOWN (Host.keypad !!! k))
       = (r, with_keys c (<[k := 1]> (keys c))) ∧
     Host.handle_event (r, c) (Host.SDL_KEYUP (Host.keypad !!! k))
       = (r, with_keys c (<[k := 0]> (keys c)))) ∧
  Host.handle_event (r, c) (Host.SDL_KEYDOWN Host.SDLK_y) = (r, chip8_reset c) ∧
  Host.handle_event (r, c) Host.SDL_QUIT = (false, c) ∧
  Host.handle_event (r, c) Host.SDL_OTHER = (r, c) ∧
  (∀ sym, sym ∉ Host.keypad -> sym ≠ Host.SDLK_y ->
     Host.handle_event (r, c) (Host.SDL_KEYDOWN sym) = (r, c) ∧
     Host.handle_event (r, c) (Host.SDL_KEYUP sym) = (r, c)).
Proof.
  assert (Hy: Host.SDLK_y ∉ Host.keypad).
  { unfold Host.SDLK_y, Host.keypad. solve_elem. }
  assert (Hpad: ∀ k, (k < 16)%nat -> Host.keypad !!! k ≠ Host.SDLK_y).
  { intros k Hk He. apply Hy. rewrite <- He. apply list_elem_of_lookup_total_2.
    exact Hk. }
  split; [|split; [|split; [|split]]].
  - intros k Hk. cbn [Host.handle_event]. rewrite decide_False by by apply Hpad.
    rewrite !set_keys_pad by done. done.
  - cbn [Host.handle_event]. rewrite decide_True by done.
    rewrite set_keys_other by done. by destruct c.
  - reflexivity.
  - reflexivity.
  - intros sym Hsym Hne. cbn [Host.handle_event]. rewrite decide_False by done.
    rewrite !set_keys_other by done. by destruct c.
Qed.

(** ** The machine stays within the ranges of its types *)

Lemma u8_byte (z : Z) : byte (u8 z).
Proof. unfold byte, u8. apply Z.mod_pos_bound. lia. Qed.

Lemma u16_word (z : Z) : word (u16 z).
Proof. unfold word, u16. apply Z.mod_pos_bound. lia. Qed.

Lemma V_byte (c : Chip8) (k : Z) : wf c -> 0 <= k < 16 -> byte (V c k).
Proof.
  intros Hwf Hk. unfold V. eapply Forall_lookup_1; [apply (wf_v_bytes c Hwf)|].
  apply list_lookup_lookup_total_lt. rewrite (wf_v c Hwf). lia.
Qed.

Lemma wf_with_pc (c : Chip8) (z : Z) : wf c -> word z -> wf (with_pc c z).
Proof. intros [] Hz. by split. Qed.

Lemma wf_with_i (c : Chip8) (z : Z) : wf c -> word z -> wf (with_i c z).
Proof. intros [] Hz. by split. Qed.

Lemma wf_with_dt (c : Chip8) (z : Z) : wf c -> byte z -> wf (with_dt c z).
Proof. intros [] Hz. by split. Qed.

Lemma wf_with_st (c : Chip8) (z : Z) : wf c -> byte z -> wf (with_st c z).
Proof. intros [] Hz. by split. Qed.

Lemma wf_with_sp (c : Chip8) (z : Z) : wf c -> byte z -> wf (with_sp c z).
Proof. intros [] Hz. by split. Qed.

Lemma wf_set_v (c : Chip8) (k b : Z) : wf c -> byte b -> wf (set_v c k b).
Proof.
  intros [] Hb. split; try done; cbn [v set_v with_v].
  - by rewrite length_insert.
  - by apply Forall_insert.
Qed.

Lemma wf_store_ram (c : Chip8) (n : nat) (b : Z) :
  wf c -> byte b -> wf (with_ram c (<[n := b]> (ram c))).
Proof.
  intros [] Hb. split; try done; cbn [ram with_ram].
  - by rewrite length_insert.
  - by apply Forall_insert.
Qed.

Lemma wf_store_screen (c : Chip8) (n : nat) (b : Z) :
  wf c -> byte b -> wf (with_screen c (<[n := b]> (screen c))).
Proof.
  intros [] Hb. split; try done; cbn [screen with_screen].
  - by rewrite length_insert.
  - by apply Forall_insert.
Qed.

Lemma wf_store_stack (c : Chip8) (n : nat) (b : Z) :
  wf c -> word b -> wf (with_stack c (<[n := b]> (stack c))).
Proof.
  intros [] Hb. split; try done; cbn [stack with_stack].
  - by rewrite length_insert.
  - by apply Forall_insert.
Qed.

Lemma wf_with_keys (c : Chip8) (ks : list Z) :
  wf c -> length ks = 16%nat -> wf (with_keys c ks).
Proof. intros [] Hk. by split. Qed.

Lemma byte_flag (P : Prop) `{Decision P} : byte (if decide P then 1 else 0).
Proof. unfold byte. destruct (decide P); lia. Qed.

Lemma wf_create : wf chip8_create.
Proof. apply wf_check_wf. vm_compute. reflexivity. Qed.

Lemma wf_reset (c : Chip8) : wf c -> wf (chip8_reset c).
Proof.
  intros []. unfold chip8_reset.
  split;
    cbn [ram screen stack v i dt st sp pc keys
         with_pc with_i with_dt with_st with_sp with_v with_stack with_screen];
    first [ assumption
          | apply length_replicate
          | apply Forall_replicate; unfold byte, word; lia
          | unfold byte, word; lia ].
Qed.

Lemma wf_tick (c : Chip8) : wf c -> wf (chip8_tick c).
Proof.
  intros Hwf. unfold chip8_tick.
  set (d := if decide (dt c ≠ 0) then with_dt c (u8 (dt c - 1)) else c).
  assert (H1: wf d).
  { subst d. destruct (decide _); [apply wf_with_dt; [done | apply u8_byte] | done]. }
  clearbody d. cbv zeta.
  destruct (decide (st d ≠ 0)); [apply wf_with_st; [done | apply u8_byte] | done].
Qed.

Lemma wf_load_rom (c : Chip8) (bytes : list Z) :
  wf c -> Forall byte bytes -> wf (chip8_load_rom c (Some bytes)).1.
Proof.
  intros [] Hb. split; try done; cbn [chip8_load_rom fst ram with_ram].
  - by rewrite length_inserts.
  - apply Forall_lookup_2. intros j x Hx.
    apply list_lookup_inserts_Some in Hx as [[_ Hx]|(_ & _ & Hx)].
    + eapply Forall_lookup_1; [|exact Hx]. done.
    + apply lookup_take_Some in Hx as [Hx _]. eapply Forall_lookup_1; [|exact Hx]. done.
Qed.

Lemma for_loop_preserves_in {T : Type} (P : T -> Prop) (body : Z -> T -> outcome T)
    (count : nat) (from : Z) (s s' : T) :
  (∀ k t t', from <= k < from + Z.of_nat count -> P t -> body k t = Ok t' -> P t') ->
  P s -> for_loop from count body s = Ok s' -> P s'.
Proof.
  revert from s. induction count as [|n IH]; intros from s Hstep H0; simpl.
  - by intros [= <-].
  - intros H. apply bind_Ok_inv in H as (t & Hb & Hl).
    apply (IH (from + 1) t); [|eapply Hstep; [|exact H0|exact Hb]; lia|exact Hl].
    intros k u u' Hk. apply Hstep. lia.
Qed.

Ltac wf_step :=
  first [ assumption
        | apply u8_byte | apply u16_word | apply NNN_word | apply byte_flag
        | apply wf_with_pc | apply wf_with_i | apply wf_with_dt | apply wf_with_st
        | apply wf_with_sp | apply wf_set_v | apply wf_store_ram
        | apply wf_store_screen | apply wf_store_stack
        | apply V_byte; [|first [apply X_range | apply Y_range | lia]]
        | apply wf_dt | apply wf_st ].


Create HintDb handlers.
#[local] Hint Unfold chip8_cpu_jmp chip8_cpu_jmpv0 chip8_cpu_se chip8_cpu_sne
  chip8_cpu_ser chip8_cpu_sner chip8_cpu_ld chip8_cpu_ldr chip8_cpu_or chip8_cpu_xor
  chip8_cpu_and chip8_cpu_add chip8_cpu_addr chip8_cpu_sub chip8_cpu_subn chip8_cpu_shr
  chip8_cpu_shl chip8_cpu_ldi chip8_cpu_addi chip8_cpu_ldf chip8_cpu_ldrdt
  chip8_cpu_lddtr chip8_cpu_ldstr : handlers.

Ltac wf_solve := autounfold with handlers; cbv zeta; repeat wf_step.

Lemma keeps_wf_total {World : Type} (f : Chip8 -> Opcode -> Chip8) :
  (∀ c op, wf c -> wf (f c op)) -> keeps_wf (World := World) (total f).
Proof. intros Hf fuel w c op w' c' Hwf H. injection H as _ <-. by apply Hf. Qed.

Lemma keeps_wf_partial {World : Type} (f : Chip8 -> Opcode -> outcome Chip8) :
  (∀ c c' op, wf c -> f c op = Ok c' -> wf c') -> keeps_wf (World := World) (partial f).
Proof.
  intros Hf fuel w c op w' c' Hwf H. unfold partial in H.
  apply bind_Ok_inv in H as (c1 & Hc1 & H). injection H as _ <-. eauto.
Qed.

Lemma keeps_wf_bdi {World : Type} : keeps_wf (World := World) chip8_cpu_bdi.
Proof. intros fuel w c op w' c' _ H. discriminate. Qed.

Lemma keeps_wf_entry {World : Type} (table : list (Opimpl (World := World))) (k : Z) :
  Forall keeps_wf table -> keeps_wf (call_entry table k).
Proof.
  intros Hall fuel w c op w' c' Hok. unfold call_entry.
  destruct (decide (0 <= k)); [|discriminate].
  destruct (table !! Z.to_nat k) as [f|] eqn:Hf; [|discriminate].
  eapply Forall_lookup_1 in Hall; [|exact Hf]. by apply Hall.
Qed.

Lemma wf_cls (c : Chip8) (op : Opcode) : wf c -> wf (chip8_cpu_cls c op).
Proof.
  intros []. split; try done; cbn [screen chip8_cpu_cls with_screen].
  apply Forall_replicate. unfold byte. lia.
Qed.

Lemma wf_call (c c' : Chip8) (op : Opcode) : wf c -> chip8_cpu_call c op = Ok c' -> wf c'.
Proof.
  intros Hwf H. unfold chip8_cpu_call in H. apply bind_Ok_inv in H as (a & Ha & H).
  injection H as <-. apply store_Ok_inv in Ha as [_ ->]. cbn [sp pc with_stack].
  repeat wf_step.
Qed.

Lemma wf_ret (c c' : Chip8) (op : Opcode) : wf c -> chip8_cpu_ret c op = Ok c' -> wf c'.
Proof.
  intros Hwf H. unfold chip8_cpu_ret in H. apply bind_Ok_inv in H as (a & Ha & H).
  injection H as <-. apply load_Ok_inv in Ha as [_ Ha]. cbn [stack with_sp] in Ha.
  repeat wf_step. eapply Forall_lookup_1; [apply (wf_stack_words c Hwf) | exact Ha].
Qed.

Lemma wf_skp (c c' : Chip8) (op : Opcode) : wf c -> chip8_cpu_skp c op = Ok c' -> wf c'.
Proof.
  intros Hwf H. unfold chip8_cpu_skp in H. apply bind_Ok_inv in H as (a & _ & H).
  injection H as <-. destruct (decide _); repeat wf_step.
Qed.

Lemma wf_sknp (c c' : Chip8) (op : Opcode) : wf c -> chip8_cpu_sknp c op = Ok c' -> wf c'.
Proof.
  intros Hwf H. unfold chip8_cpu_sknp in H. apply bind_Ok_inv in H as (a & _ & H).
  injection H as <-. destruct (decide _); repeat wf_step.
Qed.

Lemma wf_bcd (c c' : Chip8) (op : Opcode) : wf c -> chip8_cpu_bcd c op = Ok c' -> wf c'.
Proof.
  intros Hwf H. unfold chip8_cpu_bcd in H.
  apply bind_Ok_inv in H as (a1 & Ha1 & H). apply store_Ok_inv in Ha1 as [_ ->].
  apply bind_Ok_inv in H as (a2 & Ha2 & H). apply store_Ok_inv in Ha2 as [_ ->].
  apply bind_Ok_inv in H as (a3 & Ha3 & H). apply store_Ok_inv in Ha3 as [_ ->].
  injection H as <-.
  repeat match goal with
         | |- wf (with_ram ?d (<[_ := _]> (ram ?e))) =>
             change (wf (with_ram e (<[_ := _]> (ram e))))
         end.
  assert (H1: wf (with_ram c (<[Z.to_nat (i c) := u8 (Z.quot (Z.rem (V c (X op)) 1000) 100)]>
                                (ram c)))) by repeat wf_step.
  set (c1 := with_ram c _) in *.
  assert (H2: wf (with_ram c1 (<[Z.to_nat (i c1 + 1)
                                 := u8 (Z.quot (Z.rem (V c1 (X op)) 100) 10)]> (ram c1))))
    by repeat wf_step.
  set (c2 := with_ram c1 _) in *.
  change (wf (with_ram c2 (<[Z.to_nat (i c2 + 2) := u8 (Z.rem (V c2 (X op)) 10)]> (ram c2)))).
  repeat wf_step.
Qed.

Lemma wf_ldir (c c' : Chip8) (op : Opcode) : wf c -> chip8_cpu_ldir c op = Ok c' -> wf c'.
Proof.
  intros Hwf H. pose proof (X_range op). unfold chip8_cpu_ldir in H.
  apply bind_Ok_inv in H as (s & Hl & H). injection H as <-.
  apply wf_with_i; [|apply u16_word].
  eapply (for_loop_preserves_in wf); [|exact Hwf|exact Hl].
  intros k t t' Hk Ht Hb. cbn beta in Hb. apply bind_Ok_inv in Hb as (a & Ha & Hb).
  injection Hb as <-. apply store_Ok_inv in Ha as [_ ->].
  apply wf_store_ram; [done|]. apply V_byte; [done | lia].
Qed.

Lemma wf_ldri (c c' : Chip8) (op : Opcode) : wf c -> chip8_cpu_ldri c op = Ok c' -> wf c'.
Proof.
  intros Hwf H. unfold chip8_cpu_ldri in H.
  apply bind_Ok_inv in H as (s & Hl & H). injection H as <-.
  apply wf_with_i; [|apply u16_word].
  eapply (for_loop_preserves wf); [|exact Hwf|exact Hl].
  intros k t t' Ht Hb. cbn beta in Hb. apply bind_Ok_inv in Hb as (b & Hload & Hb).
  injection Hb as <-. apply load_Ok_inv in Hload as [_ Hload].
  apply wf_set_v; [done|]. eapply Forall_lookup_1; [apply (wf_ram_bytes t Ht) | exact Hload].
Qed.

Lemma wf_drw (c c' : Chip8) (op : Opcode) : wf c -> chip8_cpu_drw c op = Ok c' -> wf c'.
Proof.
  intros Hwf H. unfold chip8_cpu_drw in H.
  eapply (for_loop_preserves wf); [| |exact H].
  - intros row t t' Ht Hrow. unfold drw_row in Hrow.
    apply bind_Ok_inv in Hrow as (b & _ & Hrow).
    eapply (for_loop_preserves wf); [|exact Ht|exact Hrow].
    intros col u u' Hu Hb. cbn beta in Hb.
    destruct (decide _); [|by injection Hb as <-].
    unfold drw_pixel in Hb. apply bind_Ok_inv in Hb as (px & _ & Hb).
    set (d := if decide (px ≠ 0) then set_v u 0xF 0x1 else u) in Hb.
    assert (Hd: wf d).
    { subst d. destruct (decide _); [|done]. apply wf_set_v; [done|]. unfold byte. lia. }
    clearbody d. apply bind_Ok_inv in Hb as (px' & _ & Hb).
    apply bind_Ok_inv in Hb as (a & Ha & Hb). injection Hb as <-.
    apply store_Ok_inv in Ha as [_ ->]. apply wf_store_screen; [done | apply u8_byte].
  - apply wf_set_v; [done|]. unfold byte. lia.
Qed.

Section WellFormed.

Context {World : Type}.
Variable key_handle : World -> Chip8 -> World * Chip8.
Variable rand : World -> World * Z.
Hypothesis key_handle_wf : ∀ w c, wf c -> wf (key_handle w c).2.

Lemma keeps_wf_ldk : keeps_wf (chip8_cpu_ldk key_handle).
Proof.
  intros fuel. induction fuel as [|f IH]; intros w c op w' c' Hwf; [discriminate|].
  rewrite ldk_step. pose proof (key_handle_wf w c Hwf) as Hwf1.
  destruct (scan_keys _ _ _) as [[k|]| | |] eqn:Hscan; simpl; try discriminate.
  - intros H. injection H as _ <-. apply wf_set_v; [done|].
    apply scan_keys_Some in Hscan as (Hr & _); [|lia]. unfold byte, KEYPAD_SIZE in *. lia.
  - by apply IH.
Qed.

Lemma keeps_wf_rnd : keeps_wf (chip8_cpu_rnd rand).
Proof.
  intros fuel w c op w' c' Hwf. unfold chip8_cpu_rnd.
  destruct (rand w) as [w1 r]. intros H. injection H as _ <-.
  apply wf_set_v; [done|]. unfold byte, KK. change 0x00FF with (Z.ones 8).
  rewrite Z.land_assoc, Z.land_ones by lia. apply Z.mod_pos_bound. lia.
Qed.

Lemma keeps_wf_func : keeps_wf (World := World) chip8_cpu_func.
Proof.
  intros fuel w c op w' c' Hwf. unfold chip8_cpu_func.
  destruct (decide (KK op = 0xE0)); [|destruct (decide (KK op = 0xEE))].
  - intros H. injection H as _ <-. by apply wf_cls.
  - intros H. eapply (keeps_wf_partial _ wf_ret); eassumption.
  - discriminate.
Qed.

Lemma keeps_wf_key : keeps_wf (World := World) chip8_cpu_key.
Proof.
  intros fuel w c op w' c' Hwf. unfold chip8_cpu_key.
  destruct (decide (KK op = 0x9E)); [|destruct (decide (KK op = 0xA1))].
  - intros H. eapply (keeps_wf_partial _ wf_skp); eassumption.
  - intros H. eapply (keeps_wf_partial _ wf_sknp); eassumption.
  - discriminate.
Qed.

Lemma keeps_wf_vx : keeps_wf (chip8_cpu_vx key_handle).
Proof.
  intros fuel w c op w' c' Hwf. unfold chip8_cpu_vx.
  repeat match goal with
         | |- (if decide ?P then _ else _) = _ -> _ => destruct (decide P)
         end;
    try discriminate; intros H;
    first [ eapply keeps_wf_ldk; eassumption
          | eapply (keeps_wf_partial _ wf_bcd); eassumption
          | eapply (keeps_wf_partial _ wf_ldir); eassumption
          | eapply (keeps_wf_partial _ wf_ldri); eassumption
          | eapply keeps_wf_total; [|exact Hwf|exact H]; intros; wf_solve ].
Qed.

Lemma keeps_wf_arith : keeps_wf (World := World) chip8_cpu_arith.
Proof.
  intros fuel w c op w' c' Hwf H. unfold chip8_cpu_arith in H.
  eapply (keeps_wf_entry chip8_op_arith); [|exact Hwf|exact H].
  unfold chip8_op_arith.
  repeat (apply Forall_cons; split;
          [first [ apply keeps_wf_bdi
                 | apply keeps_wf_total; intros; wf_solve ] |]).
  apply Forall_nil_2.
Qed.

Lemma keeps_wf_table : Forall keeps_wf (chip8_op_all key_handle rand).
Proof.
  unfold chip8_op_all.
  repeat (apply Forall_cons; split;
          [first [ apply keeps_wf_func
                 | apply keeps_wf_key
                 | apply keeps_wf_vx
                 | apply keeps_wf_rnd
                 | apply keeps_wf_arith
                 | apply (keeps_wf_partial _ wf_call)
                 | apply (keeps_wf_partial _ wf_drw)
                 | apply keeps_wf_total; intros; wf_solve ] |]).
  apply Forall_nil_2.
Qed.

(** Whatever the machine does keeps it within the ranges of its C types,
    as long as the operation has an outcome and the key handler keeps it
    so: registers, timers, stack pointer and memory and display cells are
    bytes, [pc], [I] and the stack entries are 16-bit, and the arrays keep
    their sizes.  This holds from creation on, through ROM loading, reset,
    ticks, cycles and every instruction. *)
Theorem machine_stays_well_formed :
  wf chip8_create ∧
  (∀ c bytes, wf c -> Forall byte bytes -> wf (chip8_load_rom c (Some bytes)).1) ∧
  (∀ c, wf c -> wf (chip8_load_rom c None).1) ∧
  (∀ c, wf c -> wf (chip8_reset c)) ∧
  (∀ c, wf c -> wf (chip8_tick c)) ∧
  (∀ fuel w c op w' c', wf c ->
     dispatch key_handle rand fuel w c op = Ok (w', c') -> wf c') ∧
  (∀ fuel w c w' c', wf c ->
     chip8_cycle key_handle rand fuel w c = Ok (w', c') -> wf c').
Proof.
  split; [exact wf_create|]. split; [exact wf_load_rom|]. split; [done|].
  split; [exact wf_reset|]. split; [exact wf_tick|]. split.
  - intros fuel w c op w' c' Hwf H. unfold dispatch in H.
    eapply (keeps_wf_entry _ _ keeps_wf_table); eassumption.
  - intros fuel w c w' c' Hwf. unfold chip8_cycle.
    pose proof (key_handle_wf w c Hwf) as Hwf1.
    destruct (key_handle w c) as [w1 c1]. cbn [snd] in Hwf1. intros H.
    apply bind_Ok_inv in H as (hi & _ & H). apply bind_Ok_inv in H as (lo & _ & H).
    eapply (keeps_wf_entry _ _ keeps_wf_table); [|exact H].
    apply wf_with_pc; [done | apply u16_word].
Qed.

End WellFormed.

(** The key handler of main.c keeps the machine within its ranges. *)
Lemma set_keys_length (sym val : Z) (ks : list Z) :
  length (Host.set_keys sym val ks) = length ks.
Proof.
  unfold Host.set_keys. generalize (seq 0 (Z.to_nat KEYPAD_SIZE)). intros l. revert ks.
  induction l as [|j l IH]; intros ks; [reflexivity|]. cbn [foldl].
  rewrite IH. destruct (decide _); [apply length_insert | reflexivity].
Qed.

Lemma host_event_wf (e : Host.SDL_Event) (r : bool) (c : Chip8) :
  wf c -> wf (Host.handle_event (r, c) e).2.
Proof.
  intros Hwf. unfold Host.handle_event. destruct e as [|sym|sym|]; cbn [snd]; [done| | |done].
  - assert (Hd: wf (if decide (sym = Host.SDLK_y) then chip8_reset c else c)).
    { destruct (decide _); [by apply wf_reset | done]. }
    apply wf_with_keys; [done|]. rewrite set_keys_length. apply (wf_keys _ Hd).
  - apply wf_with_keys; [done|]. rewrite set_keys_length. apply (wf_keys _ Hwf).
Qed.

Lemma host_key_handle_wf (w : Host.World) (c : Chip8) :
  wf c -> wf (Host.key_handle w c).2.
Proof.
  intros Hwf. unfold Host.key_handle. destruct (Host.pending w) as [|batch rest]; [done|].
  assert (H: ∀ l r d, wf d -> wf (foldl Host.handle_event (r, d) l).2).
  { induction l as [|e l IH]; intros r d Hd; [done|]. cbn [foldl].
    pose proof (host_event_wf e r d Hd) as He.
    destruct (Host.handle_event (r, d) e) as [r1 d1]. by apply IH. }
  specialize (H batch (Host.running w) c Hwf).
  by destruct (foldl Host.handle_event (Host.running w, c) batch).
Qed.

Lemma machine_stays_well_formed_witness :
  (∀ w c, wf c -> wf (Host.key_handle w c).2) ∧
  wf chip8_create ∧
  (∀ c bytes, wf c -> Forall byte bytes -> wf (chip8_load_rom c (Some bytes)).1) ∧
  (∀ c, wf c -> wf (chip8_load_rom c None).1) ∧
  (∀ c, wf c -> wf (chip8_reset c)) ∧
  (∀ c, wf c -> wf (chip8_tick c)) ∧
  (∀ fuel w c op w' c', wf c ->
     dispatch Host.key_handle Host.rand fuel w c op = Ok (w', c') -> wf c') ∧
  (∀ fuel w c w' c', wf c ->
     chip8_cycle Host.key_handle Host.rand fuel w c = Ok (w', c') -> wf c').
Proof.
  split; [exact host_key_handle_wf|].
  apply (machine_stays_well_formed Host.key_handle Host.rand host_key_handle_wf).
Defined.

(** ** A cycle on CLS *)

(** A cycle that fetches 00E0 clears the display and leaves the program
    counter after the instruction; the rest of the machine is as the key
    handler handed it back. *)
Theorem cycle_runs_cls {World : Type}
    (key_handle : World -> Chip8 -> World * Chip8) (rand : World -> World * Z)
    (fuel : nat) (w : World) (c : Chip8) :
  0 <= pc (key_handle w c).2 ->
  ram (key_handle w c).2 !! Z.to_nat (pc (key_handle w c).2) = Some 0x00 ->
  ram (key_handle w c).2 !! Z.to_nat (pc (key_handle w c).2 + 1) = Some 0xE0 ->
  chip8_cycle key_handle rand fuel w c
  = Ok ((key_handle w c).1,
        with_screen (with_pc (key_handle w c).2 (u16 (pc (key_handle w c).2 + 2)))
          (replicate 2048 0)).
Proof.
  intros Hpc Hhi Hlo.
  destruct (cycle_dispatch key_handle rand fuel w c 0x00 0xE0 Hpc Hhi Hlo) as [-> _];
    [unfold byte; lia | unfold byte; lia |].
  reflexivity.
Qed.

Lemma cycle_runs_cls_witness :
  let c := with_screen (chip8_load_rom chip8_create (Some [0x00; 0xE0])).1
             (replicate 2048 1) in
  (0 <= pc (Host.key_handle Host.idle c).2 ∧
   ram (Host.key_handle Host.idle c).2 !! Z.to_nat (pc (Host.key_handle Host.idle c).2)
     = Some 0x00 ∧
   ram (Host.key_handle Host.idle c).2 !! Z.to_nat (pc (Host.key_handle Host.idle c).2 + 1)
     = Some 0xE0) ∧
  chip8_cycle Host.key_handle Host.rand 0 Host.idle c
  = Ok ((Host.key_handle Host.idle c).1,
        with_screen (with_pc (Host.key_handle Host.idle c).2
                       (u16 (pc (Host.key_handle Host.idle c).2 + 2)))
          (replicate 2048 0)).
Proof.
  cbv zeta. split.
  - split; [discriminate|]. split; reflexivity.
  - apply (cycle_runs_cls Host.key_handle Host.rand 0 Host.idle
             (with_screen (chip8_load_rom chip8_create (Some [0x00; 0xE0])).1
                (replicate 2048 1))); [discriminate | reflexivity | reflexivity].
Defined.
